(** * Lowlife duel engine: a shallow embedding of the combat state machine

    The development follows [src/duel_core.py] (type [DuelState] and its
    methods, armor mitigation, weapon resolution), [src/combat_loadout.py]
    (weapon choice by range) and the action handlers of [src/duel_legacy.py]
    (buttons and the scripted opponent).

    Conventions of the embedding:
    - Python [int] is [Z]; a Python [float] is the rational [Q] it denotes
      (no infinities); [round] is Python 3's round-half-to-even.  Where
      the source rounds the result of float arithmetic to an integer,
      prints it or compares it with a constant of the same size (armor
      mitigation, the bars, the odds line, the initiative), and where it
      builds the stats dictionary, the arithmetic is the correctly rounded
      binary64 one ([b64], [fadd], [fsub], [fmul], [fdiv]); the chances
      that are only compared with a random draw and the gate ratio are
      computed exactly.
    - dictionaries keyed by user id are [gmap Z _], sets of ids [gset Z].
    - [random] is an explicit stream of raw draws threaded through a small
      state monad together with the module-level spinner index.
    - [touch()] only stamps the wall clock and is left out; the chat
      transport (message edits, views) does not write the duel state and is
      left out as well. *)

From Stdlib Require Import ZArith QArith Qminmax Qabs Qpower Lia Lqa.
From stdpp Require Import gmap strings list fin_maps pretty.

Local Open Scope Z_scope.

(** ** Small numeric helpers *)

(** [iclamp(v, lo, hi) = max(lo, min(hi, v))] *)
Definition iclamp (v lo hi : Z) : Z := Z.max lo (Z.min hi v).

(** [clamp] is the same on floats. *)
Definition clamp (v lo hi : Q) : Q := Qmax lo (Qmin hi v).

(** Python 3 [round(x)] for one argument: nearest integer, ties to even. *)
Definition py_round (q : Q) : Z :=
  let n := Qnum q in
  let d := Z.pos (Qden q) in
  let fl := n / d in
  match (2 * (n mod d)) ?= d with
  | Lt => fl
  | Gt => fl + 1
  | Eq => if Z.even fl then fl else fl + 1
  end.

(** [float(n)] *)
Definition float (n : Z) : Q := inject_Z n.

(** ** Binary64 arithmetic

    A float of the source is an IEEE 754 binary64 number: 53 significant
    bits, exponents down to the subnormal last place [2^-1074].  [b64 q]
    is the binary64 number nearest to the rational [q], ties to the even
    significand: the value of a decimal literal [q], of [float(n)] for an
    integer, and of [+], [-], [*], [/] whose exact result is [q].  The
    result is a fraction in lowest terms.  Overflow to infinity (from
    [2^1024] on) is not modelled. *)

(** [2^e] for an integer [e] of either sign. *)
Definition pow2 (e : Z) : Q := Qpower 2 e.

(** [floor(log2 |q|)] for [q] other than 0. *)
Definition Qlog2 (q : Q) : Z :=
  let k := Z.log2 (Z.abs (Qnum q)) - Z.log2 (Z.pos (Qden q)) in
  if Qle_bool (pow2 k) (Qabs q) then k else k - 1.

(** The exponent of the last place of the binary64 numbers around [q]. *)
Definition ulp_exp (q : Q) : Z := Z.max (-1074) (Qlog2 q - 52).

Definition b64 (q : Q) : Q :=
  if Qeq_bool q 0 then 0%Q
  else Qred (inject_Z (py_round (q / pow2 (ulp_exp q))) * pow2 (ulp_exp q))%Q.

Definition fadd (x y : Q) : Q := b64 (x + y).
Definition fsub (x y : Q) : Q := b64 (x - y).
Definition fmul (x y : Q) : Q := b64 (x * y).
Definition fdiv (x y : Q) : Q := b64 (x / y).

(** ** Range gates *)

Inductive RangeGate : Type := HANDS | CLOSE | MID | FAR | VERYFAR.

Global Instance RangeGate_eq_dec : EqDecision RangeGate.
Proof. solve_decision. Defined.

Definition RANGE_ORDER : list RangeGate := [HANDS; CLOSE; MID; FAR; VERYFAR].

(** [len(RANGE_ORDER) - 1] *)
Definition LAST_GATE : Z := Z.of_nat (length RANGE_ORDER) - 1.

Definition rg_to_loadout_range (rg : RangeGate) : string :=
  match rg with
  | HANDS | CLOSE => "Close"
  | MID => "Mid"
  | _ => "Far"
  end.

(** ** Loadout ([src/combat_loadout.py]) *)

Module CombatLoadout.

Record WeaponProfile : Type := mkWeapon {
  name : string;
  wclass : string;
  ranges : list string;
  base_damage : Z;
  base_accuracy : Z
}.

(** The dictionary built by [get_combatkit]; only the keys read by the
    duel are kept. *)
Record CombatKit : Type := mkKit {
  primary : option WeaponProfile;
  secondary : option WeaponProfile;
  mods : gmap string Z;
  preferred_slot : string
}.

(** [kit.get(slot)] for a weapon slot. *)
Definition kit_get (kit : CombatKit) (slot : string) : option WeaponProfile :=
  if String.eqb slot "primary" then primary kit
  else if String.eqb slot "secondary" then secondary kit
  else None.

Fixpoint first_in_range (range_state : string) (kit : CombatKit) (cand : list string)
  : option string * option WeaponProfile :=
  match cand with
  | [] => (None, None)
  | slot :: rest =>
      match kit_get kit slot with
      | Some wp =>
          if bool_decide (range_state ∈ ranges wp) then (Some slot, Some wp)
          else first_in_range range_state kit rest
      | None => first_in_range range_state kit rest
      end
  end.

Definition pick_weapon_for_range (range_state : string) (kit : CombatKit)
  : option string * option WeaponProfile :=
  let pref := preferred_slot kit in
  let cand := [pref; if String.eqb pref "secondary" then "primary" else "secondary"] in
  first_in_range range_state kit cand.

End CombatLoadout.
Import CombatLoadout.

(** ** External providers

    The duel reaches the outside world through optional providers (stats,
    equipment, combat kit, inventory).  They are gathered in one record. *)

Record Providers : Type := mkProviders {
  _GET_STATS : option (Z -> gmap string Q);
  get_equipped_mods : Z -> gmap string Q;
  get_equipped_ids : Z -> gmap string string;
  get_combatkit : Z -> Z -> CombatKit;
  (** whether the optional inventory hook exists and accepts an item *)
  add_item_to_inventory : bool
}.

(** The three entries of the stats dictionary that the duel consults.
    [float(x)] of a provider's number is [b64 x]; the equipment bonus is
    added with the float sum. *)
Record Stats : Type := mkStats { combat : Q; fitness : Q; armor : Q }.

Definition load_player_stats (P : Providers) (user_id : Z) : Stats :=
  let raw := match _GET_STATS P with Some f => f user_id | None => ∅ end in
  let eqm := get_equipped_mods P user_id in
  let add (k : string) (v : Q) : Q := fadd (b64 v) (b64 (default 0%Q (eqm !! k))) in
  {| combat := add "combat" (default 10%Q (raw !! "combat"));
     fitness := add "fitness" (default 10%Q (raw !! "fitness"));
     armor := add "armor" 0%Q |}.

(** ** Weapon numbers ([compute_attack_numbers]) *)

Definition _RANGE_ACC_MOD (range_state : string) : Z :=
  if String.eqb range_state "Close" then 10
  else if String.eqb range_state "Near" then 0
  else if String.eqb range_state "Mid" then -10
  else if String.eqb range_state "Far" then -20
  else if String.eqb range_state "Out-of-Range" then -999
  else 0.

(** The result dictionary: either [ready = False] with a reason and a
    message, or [ready = True] with the resolved numbers. *)
Inductive AttackCalc : Type :=
| NotReady (reason message : string) (mods : gmap string Z)
| Ready (slot : string) (weapon : WeaponProfile) (accuracy damage : Z) (mods : gmap string Z).

(** The unarmed profile; the source builds a bare namespace with the four
    attributes below and no range list. *)
Definition Fists : WeaponProfile :=
  {| name := "Fists"; wclass := "melee"; ranges := []; base_damage := 6; base_accuracy := 70 |}.

Definition compute_attack_numbers (P : Providers) (guild_id attacker_user_id : Z)
    (range_state : string) : AttackCalc :=
  let kit := get_combatkit P guild_id attacker_user_id in
  let '(slot, wp) := pick_weapon_for_range range_state kit in
  let mods := CombatLoadout.mods kit in
  let finish (slot : string) (wp : WeaponProfile) :=
    let acc := base_accuracy wp + default 0 (mods !! "accuracy") + _RANGE_ACC_MOD range_state in
    let acc := Z.max 5 (Z.min 95 acc) in
    let dmg := base_damage wp + default 0 (mods !! "damage") in
    let dmg := Z.max 1 dmg in
    Ready slot wp acc dmg mods in
  match wp with
  | Some wp => finish (default "" slot) wp
  | None =>
      if negb (String.eqb range_state "Close") then
        NotReady "no_weapon_too_far"
          ("No viable weapon at " +:+ range_state +:+
           " range. You're unarmed — advance to **Close** to use **Fists**.")
          mods
      else finish "unarmed" Fists
  end.

Definition armor_kind_from_wclass (wcls : string) : string :=
  if String.eqb wcls "melee" then "melee"
  else if bool_decide (wcls ∈ ["pistol"; "smg"]) then "small_ranged"
  else if bool_decide (wcls ∈ ["shotgun"; "rifle"]) then "large_ranged"
  else "ranged".

(** ** State *)

Record Combatant : Type := mkCombatant {
  user_id : Z;
  name : string;
  hp : Z;
  is_ai : bool
}.

Definition set_hp (v : Z) (c : Combatant) : Combatant :=
  mkCombatant (user_id c) (name c) v (is_ai c).

(** An entry of [last_hit]: [{"by": ..., "type": ..., "weapon": ...}]. *)
Record HitInfo : Type := mkHit { hit_by : Z; hit_type : string; hit_weapon : string }.

(** The duel aggregate.  [finisher], [cover_line] and [trails] are the
    attributes that the action layer attaches to the object. *)
Record DuelState : Type := mkDuel {
  guild_id : Z;
  a : Combatant;
  b : Combatant;
  range_idx : Z;
  vis_segments : Z;
  pos : gmap Z Z;
  last_mover : option Z;
  turn_id : Z;
  log_lines : list string;
  full_log_lines : list string;
  active : bool;
  round_no : Z;
  grappling : bool;
  positioning : gmap Z Z;
  choking : option (Z * Z);
  breath : gmap Z Z;
  bloodflow : gmap Z Z;
  unconscious : gset Z;
  clearing_stacks : gmap Z Z;
  clearing_expiries : gmap Z (list Z);
  turn_tick : Z;
  hidden : gset Z;
  in_cover : gset Z;
  cover_pct : gmap Z Z;
  grenades_pending : gmap Z (gmap string Z);
  skip_turn_for : gset Z;
  last_hit : gmap Z HitInfo;
  grapple_just_started : bool;
  grapple_starter_id : option Z;
  grapple_flip : Z;
  finisher : option (Z * Z);
  cover_line : list (option string);
  trails : gmap Z (gset Z)
}.

Definition set_a (v : Combatant) (s : DuelState) : DuelState :=
  mkDuel (guild_id s) v (b s) (range_idx s) (vis_segments s) (pos s) (last_mover s) (turn_id s)
    (log_lines s) (full_log_lines s) (active s) (round_no s) (grappling s) (positioning s)
    (choking s) (breath s) (bloodflow s) (unconscious s) (clearing_stacks s)
    (clearing_expiries s) (turn_tick s) (hidden s) (in_cover s) (cover_pct s)
    (grenades_pending s) (skip_turn_for s) (last_hit s) (grapple_just_started s)
    (grapple_starter_id s) (grapple_flip s) (finisher s) (cover_line s) (trails s).
Definition set_b (v : Combatant) (s : DuelState) : DuelState :=
  mkDuel (guild_id s) (a s) v (range_idx s) (vis_segments s) (pos s) (last_mover s) (turn_id s)
    (log_lines s) (full_log_lines s) (active s) (round_no s) (grappling s) (positioning s)
    (choking s) (breath s) (bloodflow s) (unconscious s) (clearing_stacks s)
    (clearing_expiries s) (turn_tick s) (hidden s) (in_cover s) (cover_pct s)
    (grenades_pending s) (skip_turn_for s) (last_hit s) (grapple_just_started s)
    (grapple_starter_id s) (grapple_flip s) (finisher s) (cover_line s) (trails s).
Definition set_range_idx (v : Z) (s : DuelState) : DuelState :=
  mkDuel (guild_id s) (a s) (b s) v (vis_segments s) (pos s) (last_mover s) (turn_id s)
    (log_lines s) (full_log_lines s) (active s) (round_no s) (grappling s) (positioning s)
    (choking s) (breath s) (bloodflow s) (unconscious s) (clearing_stacks s)
    (clearing_expiries s) (turn_tick s) (hidden s) (in_cover s) (cover_pct s)
    (grenades_pending s) (skip_turn_for s) (last_hit s) (grapple_just_started s)
    (grapple_starter_id s) (grapple_flip s) (finisher s) (cover_line s) (trails s).
Definition set_pos (v : gmap Z Z) (s : DuelState) : DuelState :=
  mkDuel (guild_id s) (a s) (b s) (range_idx s) (vis_segments s) v (last_mover s) (turn_id s)
    (log_lines s) (full_log_lines s) (active s) (round_no s) (grappling s) (positioning s)
    (choking s) (breath s) (bloodflow s) (unconscious s) (clearing_stacks s)
    (clearing_expiries s) (turn_tick s) (hidden s) (in_cover s) (cover_pct s)
    (grenades_pending s) (skip_turn_for s) (last_hit s) (grapple_just_started s)
    (grapple_starter_id s) (grapple_flip s) (finisher s) (cover_line s) (trails s).
Definition set_last_mover (v : option Z) (s : DuelState) : DuelState :=
  mkDuel (guild_id s) (a s) (b s) (range_idx s) (vis_segments s) (pos s) v (turn_id s)
    (log_lines s) (full_log_lines s) (active s) (round_no s) (grappling s) (positioning s)
    (choking s) (breath s) (bloodflow s) (unconscious s) (clearing_stacks s)
    (clearing_expiries s) (turn_tick s) (hidden s) (in_cover s) (cover_pct s)
    (grenades_pending s) (skip_turn_for s) (last_hit s) (grapple_just_started s)
    (grapple_starter_id s) (grapple_flip s) (finisher s) (cover_line s) (trails s).
Definition set_turn_id (v : Z) (s : DuelState) : DuelState :=
  mkDuel (guild_id s) (a s) (b s) (range_idx s) (vis_segments s) (pos s) (last_mover s) v
    (log_lines s) (full_log_lines s) (active s) (round_no s) (grappling s) (positioning s)
    (choking s) (breath s) (bloodflow s) (unconscious s) (clearing_stacks s)
    (clearing_expiries s) (turn_tick s) (hidden s) (in_cover s) (cover_pct s)
    (grenades_pending s) (skip_turn_for s) (last_hit s) (grapple_just_started s)
    (grapple_starter_id s) (grapple_flip s) (finisher s) (cover_line s) (trails s).
Definition set_log_lines (v : list string) (s : DuelState) : DuelState :=
  mkDuel (guild_id s) (a s) (b s) (range_idx s) (vis_segments s) (pos s) (last_mover s)
    (turn_id s) v (full_log_lines s) (active s) (round_no s) (grappling s) (positioning s)
    (choking s) (breath s) (bloodflow s) (unconscious s) (clearing_stacks s)
    (clearing_expiries s) (turn_tick s) (hidden s) (in_cover s) (cover_pct s)
    (grenades_pending s) (skip_turn_for s) (last_hit s) (grapple_just_started s)
    (grapple_starter_id s) (grapple_flip s) (finisher s) (cover_line s) (trails s).
Definition set_full_log_lines (v : list string) (s : DuelState) : DuelState :=
  mkDuel (guild_id s) (a s) (b s) (range_idx s) (vis_segments s) (pos s) (last_mover s)
    (turn_id s) (log_lines s) v (active s) (round_no s) (grappling s) (positioning s)
    (choking s) (breath s) (bloodflow s) (unconscious s) (clearing_stacks s)
    (clearing_expiries s) (turn_tick s) (hidden s) (in_cover s) (cover_pct s)
    (grenades_pending s) (skip_turn_for s) (last_hit s) (grapple_just_started s)
    (grapple_starter_id s) (grapple_flip s) (finisher s) (cover_line s) (trails s).
Definition set_active (v : bool) (s : DuelState) : DuelState :=
  mkDuel (guild_id s) (a s) (b s) (range_idx s) (vis_segments s) (pos s) (last_mover s)
    (turn_id s) (log_lines s) (full_log_lines s) v (round_no s) (grappling s) (positioning s)
    (choking s) (breath s) (bloodflow s) (unconscious s) (clearing_stacks s)
    (clearing_expiries s) (turn_tick s) (hidden s) (in_cover s) (cover_pct s)
    (grenades_pending s) (skip_turn_for s) (last_hit s) (grapple_just_started s)
    (grapple_starter_id s) (grapple_flip s) (finisher s) (cover_line s) (trails s).
Definition set_round_no (v : Z) (s : DuelState) : DuelState :=
  mkDuel (guild_id s) (a s) (b s) (range_idx s) (vis_segments s) (pos s) (last_mover s)
    (turn_id s) (log_lines s) (full_log_lines s) (active s) v (grappling s) (positioning s)
    (choking s) (breath s) (bloodflow s) (unconscious s) (clearing_stacks s)
    (clearing_expiries s) (turn_tick s) (hidden s) (in_cover s) (cover_pct s)
    (grenades_pending s) (skip_turn_for s) (last_hit s) (grapple_just_started s)
    (grapple_starter_id s) (grapple_flip s) (finisher s) (cover_line s) (trails s).
Definition set_grappling (v : bool) (s : DuelState) : DuelState :=
  mkDuel (guild_id s) (a s) (b s) (range_idx s) (vis_segments s) (pos s) (last_mover s)
    (turn_id s) (log_lines s) (full_log_lines s) (active s) (round_no s) v (positioning s)
    (choking s) (breath s) (bloodflow s) (unconscious s) (clearing_stacks s)
    (clearing_expiries s) (turn_tick s) (hidden s) (in_cover s) (cover_pct s)
    (grenades_pending s) (skip_turn_for s) (last_hit s) (grapple_just_started s)
    (grapple_starter_id s) (grapple_flip s) (finisher s) (cover_line s) (trails s).
Definition set_positioning (v : gmap Z Z) (s : DuelState) : DuelState :=
  mkDuel (guild_id s) (a s) (b s) (range_idx s) (vis_segments s) (pos s) (last_mover s)
    (turn_id s) (log_lines s) (full_log_lines s) (active s) (round_no s) (grappling s) v
    (choking s) (breath s) (bloodflow s) (unconscious s) (clearing_stacks s)
    (clearing_expiries s) (turn_tick s) (hidden s) (in_cover s) (cover_pct s)
    (grenades_pending s) (skip_turn_for s) (last_hit s) (grapple_just_started s)
    (grapple_starter_id s) (grapple_flip s) (finisher s) (cover_line s) (trails s).
Definition set_choking (v : option (Z * Z)) (s : DuelState) : DuelState :=
  mkDuel (guild_id s) (a s) (b s) (range_idx s) (vis_segments s) (pos s) (last_mover s)
    (turn_id s) (log_lines s) (full_log_lines s) (active s) (round_no s) (grappling s)
    (positioning s) v (breath s) (bloodflow s) (unconscious s) (clearing_stacks s)
    (clearing_expiries s) (turn_tick s) (hidden s) (in_cover s) (cover_pct s)
    (grenades_pending s) (skip_turn_for s) (last_hit s) (grapple_just_started s)
    (grapple_starter_id s) (grapple_flip s) (finisher s) (cover_line s) (trails s).
Definition set_breath (v : gmap Z Z) (s : DuelState) : DuelState :=
  mkDuel (guild_id s) (a s) (b s) (range_idx s) (vis_segments s) (pos s) (last_mover s)
    (turn_id s) (log_lines s) (full_log_lines s) (active s) (round_no s) (grappling s)
    (positioning s) (choking s) v (bloodflow s) (unconscious s) (clearing_stacks s)
    (clearing_expiries s) (turn_tick s) (hidden s) (in_cover s) (cover_pct s)
    (grenades_pending s) (skip_turn_for s) (last_hit s) (grapple_just_started s)
    (grapple_starter_id s) (grapple_flip s) (finisher s) (cover_line s) (trails s).
Definition set_bloodflow (v : gmap Z Z) (s : DuelState) : DuelState :=
  mkDuel (guild_id s) (a s) (b s) (range_idx s) (vis_segments s) (pos s) (last_mover s)
    (turn_id s) (log_lines s) (full_log_lines s) (active s) (round_no s) (grappling s)
    (positioning s) (choking s) (breath s) v (unconscious s) (clearing_stacks s)
    (clearing_expiries s) (turn_tick s) (hidden s) (in_cover s) (cover_pct s)
    (grenades_pending s) (skip_turn_for s) (last_hit s) (grapple_just_started s)
    (grapple_starter_id s) (grapple_flip s) (finisher s) (cover_line s) (trails s).
Definition set_unconscious (v : gset Z) (s : DuelState) : DuelState :=
  mkDuel (guild_id s) (a s) (b s) (range_idx s) (vis_segments s) (pos s) (last_mover s)
    (turn_id s) (log_lines s) (full_log_lines s) (active s) (round_no s) (grappling s)
    (positioning s) (choking s) (breath s) (bloodflow s) v (clearing_stacks s)
    (clearing_expiries s) (turn_tick s) (hidden s) (in_cover s) (cover_pct s)
    (grenades_pending s) (skip_turn_for s) (last_hit s) (grapple_just_started s)
    (grapple_starter_id s) (grapple_flip s) (finisher s) (cover_line s) (trails s).
Definition set_clearing_stacks (v : gmap Z Z) (s : DuelState) : DuelState :=
  mkDuel (guild_id s) (a s) (b s) (range_idx s) (vis_segments s) (pos s) (last_mover s)
    (turn_id s) (log_lines s) (full_log_lines s) (active s) (round_no s) (grappling s)
    (positioning s) (choking s) (breath s) (bloodflow s) (unconscious s) v (clearing_expiries s)
    (turn_tick s) (hidden s) (in_cover s) (cover_pct s) (grenades_pending s) (skip_turn_for s)
    (last_hit s) (grapple_just_started s) (grapple_starter_id s) (grapple_flip s) (finisher s)
    (cover_line s) (trails s).
Definition set_clearing_expiries (v : gmap Z (list Z)) (s : DuelState) : DuelState :=
  mkDuel (guild_id s) (a s) (b s) (range_idx s) (vis_segments s) (pos s) (last_mover s)
    (turn_id s) (log_lines s) (full_log_lines s) (active s) (round_no s) (grappling s)
    (positioning s) (choking s) (breath s) (bloodflow s) (unconscious s) (clearing_stacks s) v
    (turn_tick s) (hidden s) (in_cover s) (cover_pct s) (grenades_pending s) (skip_turn_for s)
    (last_hit s) (grapple_just_started s) (grapple_starter_id s) (grapple_flip s) (finisher s)
    (cover_line s) (trails s).
Definition set_turn_tick (v : Z) (s : DuelState) : DuelState :=
  mkDuel (guild_id s) (a s) (b s) (range_idx s) (vis_segments s) (pos s) (last_mover s)
    (turn_id s) (log_lines s) (full_log_lines s) (active s) (round_no s) (grappling s)
    (positioning s) (choking s) (breath s) (bloodflow s) (unconscious s) (clearing_stacks s)
    (clearing_expiries s) v (hidden s) (in_cover s) (cover_pct s) (grenades_pending s)
    (skip_turn_for s) (last_hit s) (grapple_just_started s) (grapple_starter_id s)
    (grapple_flip s) (finisher s) (cover_line s) (trails s).
Definition set_in_cover (v : gset Z) (s : DuelState) : DuelState :=
  mkDuel (guild_id s) (a s) (b s) (range_idx s) (vis_segments s) (pos s) (last_mover s)
    (turn_id s) (log_lines s) (full_log_lines s) (active s) (round_no s) (grappling s)
    (positioning s) (choking s) (breath s) (bloodflow s) (unconscious s) (clearing_stacks s)
    (clearing_expiries s) (turn_tick s) (hidden s) v (cover_pct s) (grenades_pending s)
    (skip_turn_for s) (last_hit s) (grapple_just_started s) (grapple_starter_id s)
    (grapple_flip s) (finisher s) (cover_line s) (trails s).
Definition set_cover_pct (v : gmap Z Z) (s : DuelState) : DuelState :=
  mkDuel (guild_id s) (a s) (b s) (range_idx s) (vis_segments s) (pos s) (last_mover s)
    (turn_id s) (log_lines s) (full_log_lines s) (active s) (round_no s) (grappling s)
    (positioning s) (choking s) (breath s) (bloodflow s) (unconscious s) (clearing_stacks s)
    (clearing_expiries s) (turn_tick s) (hidden s) (in_cover s) v (grenades_pending s)
    (skip_turn_for s) (last_hit s) (grapple_just_started s) (grapple_starter_id s)
    (grapple_flip s) (finisher s) (cover_line s) (trails s).
Definition set_grenades_pending (v : gmap Z (gmap string Z)) (s : DuelState) : DuelState :=
  mkDuel (guild_id s) (a s) (b s) (range_idx s) (vis_segments s) (pos s) (last_mover s)
    (turn_id s) (log_lines s) (full_log_lines s) (active s) (round_no s) (grappling s)
    (positioning s) (choking s) (breath s) (bloodflow s) (unconscious s) (clearing_stacks s)
    (clearing_expiries s) (turn_tick s) (hidden s) (in_cover s) (cover_pct s) v
    (skip_turn_for s) (last_hit s) (grapple_just_started s) (grapple_starter_id s)
    (grapple_flip s) (finisher s) (cover_line s) (trails s).
Definition set_skip_turn_for (v : gset Z) (s : DuelState) : DuelState :=
  mkDuel (guild_id s) (a s) (b s) (range_idx s) (vis_segments s) (pos s) (last_mover s)
    (turn_id s) (log_lines s) (full_log_lines s) (active s) (round_no s) (grappling s)
    (positioning s) (choking s) (breath s) (bloodflow s) (unconscious s) (clearing_stacks s)
    (clearing_expiries s) (turn_tick s) (hidden s) (in_cover s) (cover_pct s)
    (grenades_pending s) v (last_hit s) (grapple_just_started s) (grapple_starter_id s)
    (grapple_flip s) (finisher s) (cover_line s) (trails s).
Definition set_last_hit (v : gmap Z HitInfo) (s : DuelState) : DuelState :=
  mkDuel (guild_id s) (a s) (b s) (range_idx s) (vis_segments s) (pos s) (last_mover s)
    (turn_id s) (log_lines s) (full_log_lines s) (active s) (round_no s) (grappling s)
    (positioning s) (choking s) (breath s) (bloodflow s) (unconscious s) (clearing_stacks s)
    (clearing_expiries s) (turn_tick s) (hidden s) (in_cover s) (cover_pct s)
    (grenades_pending s) (skip_turn_for s) v (grapple_just_started s) (grapple_starter_id s)
    (grapple_flip s) (finisher s) (cover_line s) (trails s).
Definition set_grapple_just_started (v : bool) (s : DuelState) : DuelState :=
  mkDuel (guild_id s) (a s) (b s) (range_idx s) (vis_segments s) (pos s) (last_mover s)
    (turn_id s) (log_lines s) (full_log_lines s) (active s) (round_no s) (grappling s)
    (positioning s) (choking s) (breath s) (bloodflow s) (unconscious s) (clearing_stacks s)
    (clearing_expiries s) (turn_tick s) (hidden s) (in_cover s) (cover_pct s)
    (grenades_pending s) (skip_turn_for s) (last_hit s) v (grapple_starter_id s)
    (grapple_flip s) (finisher s) (cover_line s) (trails s).
Definition set_grapple_starter_id (v : option Z) (s : DuelState) : DuelState :=
  mkDuel (guild_id s) (a s) (b s) (range_idx s) (vis_segments s) (pos s) (last_mover s)
    (turn_id s) (log_lines s) (full_log_lines s) (active s) (round_no s) (grappling s)
    (positioning s) (choking s) (breath s) (bloodflow s) (unconscious s) (clearing_stacks s)
    (clearing_expiries s) (turn_tick s) (hidden s) (in_cover s) (cover_pct s)
    (grenades_pending s) (skip_turn_for s) (last_hit s) (grapple_just_started s) v
    (grapple_flip s) (finisher s) (cover_line s) (trails s).
Definition set_grapple_flip (v : Z) (s : DuelState) : DuelState :=
  mkDuel (guild_id s) (a s) (b s) (range_idx s) (vis_segments s) (pos s) (last_mover s)
    (turn_id s) (log_lines s) (full_log_lines s) (active s) (round_no s) (grappling s)
    (positioning s) (choking s) (breath s) (bloodflow s) (unconscious s) (clearing_stacks s)
    (clearing_expiries s) (turn_tick s) (hidden s) (in_cover s) (cover_pct s)
    (grenades_pending s) (skip_turn_for s) (last_hit s) (grapple_just_started s)
    (grapple_starter_id s) v (finisher s) (cover_line s) (trails s).
Definition set_finisher (v : option (Z * Z)) (s : DuelState) : DuelState :=
  mkDuel (guild_id s) (a s) (b s) (range_idx s) (vis_segments s) (pos s) (last_mover s)
    (turn_id s) (log_lines s) (full_log_lines s) (active s) (round_no s) (grappling s)
    (positioning s) (choking s) (breath s) (bloodflow s) (unconscious s) (clearing_stacks s)
    (clearing_expiries s) (turn_tick s) (hidden s) (in_cover s) (cover_pct s)
    (grenades_pending s) (skip_turn_for s) (last_hit s) (grapple_just_started s)
    (grapple_starter_id s) (grapple_flip s) v (cover_line s) (trails s).
Definition set_trails (v : gmap Z (gset Z)) (s : DuelState) : DuelState :=
  mkDuel (guild_id s) (a s) (b s) (range_idx s) (vis_segments s) (pos s) (last_mover s)
    (turn_id s) (log_lines s) (full_log_lines s) (active s) (round_no s) (grappling s)
    (positioning s) (choking s) (breath s) (bloodflow s) (unconscious s) (clearing_stacks s)
    (clearing_expiries s) (turn_tick s) (hidden s) (in_cover s) (cover_pct s)
    (grenades_pending s) (skip_turn_for s) (last_hit s) (grapple_just_started s)
    (grapple_starter_id s) (grapple_flip s) (finisher s) (cover_line s) v.

(** The two fighters are handled by reference in the source ([self.a],
    [self.b]); a [Side] names which one a reference points to. *)
Inductive Side : Type := SideA | SideB.

Global Instance Side_eq_dec : EqDecision Side.
Proof. solve_decision. Defined.

Definition fighter (s : DuelState) (w : Side) : Combatant :=
  match w with SideA => a s | SideB => b s end.

Definition flip_side (w : Side) : Side :=
  match w with SideA => SideB | SideB => SideA end.

(** [c.hp = v] through the reference [c]. *)
Definition set_fighter_hp (w : Side) (v : Z) (s : DuelState) : DuelState :=
  match w with
  | SideA => set_a (set_hp v (a s)) s
  | SideB => set_b (set_hp v (b s)) s
  end.

(** ** Armor mitigation *)

Definition _ARMOR_FACTORS : gmap string Q :=
  list_to_map [("melee", 60 # 100); ("small_ranged", 80 # 100); ("large_ranged", 80 # 100);
               ("ranged", 80 # 100); ("grenade", 50 # 100); ("none", 0 # 100)]%Q.

(** Returns [(dmg - mit, mit)].  The table holds the factors as they are
    written; [b64] reads one as the float it denotes, [float(armor)] is
    [b64] of the armor, and the product of the two is the float product. *)
Definition apply_armor_reduction (state : DuelState) (defender_id : Z) (dfn : Stats)
    (dmg : Z) (kind : string) : Z * Z :=
  let factor := b64 (default (70 # 100)%Q (_ARMOR_FACTORS !! kind)) in
  let raw := py_round (fmul (b64 (armor dfn)) factor) in
  let mit := iclamp raw 0 (Z.max 0 (dmg - 1)) in
  (dmg - mit, mit).

(** ** [DuelState] methods ([src/duel_core.py]) *)

(** [RANGE_ORDER[self.range_idx]].  Every writer of [range_idx] clamps it
    to [0..4] ([valid_gate]).  Outside that interval the source raises an
    [IndexError] (above 4) or counts from the end of the list (below 0);
    the total function below models neither, so statements that read the
    gate assume [valid_gate]. *)
Definition rngate (s : DuelState) : RangeGate :=
  default VERYFAR (RANGE_ORDER !! Z.to_nat (range_idx s)).

Definition valid_gate (s : DuelState) : Prop := 0 <= range_idx s <= LAST_GATE.

(** [current()] and [other()], as references. *)
Definition current (s : DuelState) : Side :=
  if turn_id s =? 0 then SideA else SideB.

Definition other (s : DuelState) : Side :=
  if turn_id s =? 0 then SideB else SideA.

Definition is_draw (s : DuelState) : bool :=
  let a_dead := (hp (a s) <=? 0) || bool_decide (user_id (a s) ∈ unconscious s) in
  let b_dead := (hp (b s) <=? 0) || bool_decide (user_id (b s) ∈ unconscious s) in
  a_dead && b_dead.

Definition winner (s : DuelState) : option Side :=
  if (hp (a s) <=? 0) && (0 <? hp (b s)) then Some SideB
  else if (hp (b s) <=? 0) && (0 <? hp (a s)) then Some SideA
  else if bool_decide (user_id (a s) ∈ unconscious s)
          && negb (bool_decide (user_id (b s) ∈ unconscious s)) then Some SideB
  else if bool_decide (user_id (b s) ∈ unconscious s)
          && negb (bool_decide (user_id (a s) ∈ unconscious s)) then Some SideA
  else None.

(** [self.log_lines[-6:]] once the window holds more than six lines. *)
Definition trim_log (l : list string) : list string :=
  if (6 <? length l)%nat then drop (length l - 6) l else l.

Definition add_raw (line : string) (s : DuelState) : DuelState :=
  let s := set_full_log_lines (full_log_lines s ++ [line]) s in
  set_log_lines (trim_log (log_lines s ++ [line])) s.

Definition _target_vis_gap (s : DuelState) : Z :=
  let idx_ratio := (float (range_idx s) / float LAST_GATE)%Q in
  iclamp (py_round (idx_ratio * float (vis_segments s - 1))%Q) 3 (vis_segments s - 3).

Definition _check_grapple_transition (prev now : RangeGate) (actor_id : option Z)
    (s : DuelState) : DuelState :=
  let was := grappling s in
  let s :=
    if was && negb (bool_decide (now = HANDS)) then
      let s := add_raw "🧷 Grappling broken. Combat resumes." s in
      let s := set_grappling false s in
      let s := set_grapple_just_started false s in
      set_grapple_starter_id None s
    else s in
  if negb (grappling s) && bool_decide (is_Some (choking s)) then
    let s := add_raw "🫁 Choke is released as distance opens." s in
    let s := set_choking None s in
    set_bloodflow ∅ (set_breath ∅ s)
  else s.

Definition _sync_visual_positions (mover_id : option Z) (s : DuelState) : DuelState :=
  if grappling s then s else
  let a_id := user_id (a s) in
  let b_id := user_id (b s) in
  let target_gap := _target_vis_gap s in
  let pos_a := default 1 (pos s !! a_id) in
  let pos_b := default (vis_segments s - 2) (pos s !! b_id) in
  let pos_a := if pos_b <=? pos_a then Z.max 0 (pos_b - 2) else pos_a in
  let cur_gap := Z.abs (pos_b - pos_a) in
  if cur_gap =? target_gap then
    set_pos (<[b_id := pos_b]> (<[a_id := pos_a]> (pos s))) s
  else
    let '(pos_a, pos_b) :=
      if bool_decide (mover_id = Some a_id) then
        (iclamp (pos_b - target_gap) 0 (vis_segments s - 1), pos_b)
      else if bool_decide (mover_id = Some b_id) then
        (pos_a, iclamp (pos_a + target_gap) 0 (vis_segments s - 1))
      else
        let left := Z.max 0 ((vis_segments s - target_gap) / 2 - 1) in
        (left, iclamp (left + target_gap) 0 (vis_segments s - 1)) in
    let pos_a := if pos_b <=? pos_a then Z.max 0 (pos_b - 1) else pos_a in
    set_pos (<[b_id := pos_b]> (<[a_id := pos_a]> (pos s))) s.

Definition step_range (delta : Z) (actor_id : option Z) (s : DuelState) : DuelState :=
  let prev := rngate s in
  let s := set_range_idx (iclamp (range_idx s + delta) 0 LAST_GATE) s in
  let s := set_last_mover actor_id s in
  let s := _sync_visual_positions actor_id s in
  _check_grapple_transition prev (rngate s) actor_id s.

Definition micro_move (actor_id toward_steps : Z) (s : DuelState) : DuelState :=
  if grappling s then s else
  let a_id := user_id (a s) in
  let b_id := user_id (b s) in
  let pos_a := default 1 (pos s !! a_id) in
  let pos_b := default (vis_segments s - 2) (pos s !! b_id) in
  if negb (bool_decide (actor_id ∈ [a_id; b_id])) then s else
  let me_left := ((pos_a <? pos_b) && (actor_id =? a_id))
                 || ((pos_b <? pos_a) && (actor_id =? b_id)) in
  let me_pos := if actor_id =? a_id then pos_a else pos_b in
  let them_pos := if actor_id =? a_id then pos_b else pos_a in
  let me_pos :=
    if 0 <=? toward_steps then
      if me_left then Z.min (them_pos - 1) (me_pos + toward_steps)
      else Z.max (them_pos + 1) (me_pos - toward_steps)
    else
      let steps := Z.abs toward_steps in
      if me_left then Z.max 0 (me_pos - steps)
      else Z.min (vis_segments s - 1) (me_pos + steps) in
  let me_pos :=
    if me_left then Z.min me_pos (them_pos - 1) else Z.max me_pos (them_pos + 1) in
  let pos_a := if actor_id =? a_id then me_pos else pos_a in
  let pos_b := if actor_id =? a_id then pos_b else me_pos in
  let s := set_pos (<[b_id := pos_b]> (<[a_id := pos_a]> (pos s))) s in
  let gap := Z.abs (pos_b - pos_a) in
  let ratio := (float gap / float (Z.max 1 (vis_segments s - 1)))%Q in
  let new_idx := iclamp (py_round (ratio * float LAST_GATE)%Q) 0 LAST_GATE in
  let prev := rngate s in
  let s := set_range_idx new_idx s in
  _check_grapple_transition prev (rngate s) (Some actor_id) s.

Definition can_grapple (s : DuelState) : bool :=
  negb (grappling s) && bool_decide (rngate s = HANDS).

Definition begin_grapple (starter_id : Z) (s : DuelState) : DuelState :=
  if negb (can_grapple s) then s else
  let s := set_grappling true s in
  let s := set_grapple_just_started true s in
  let s := set_grapple_starter_id (Some starter_id) s in
  let s := set_grapple_flip 0 s in
  let d := 2 in
  let left := Z.max 0 ((vis_segments s - d) / 2 - 1) in
  let s := set_pos (<[user_id (a s) := left]> (pos s)) s in
  let s := set_pos (<[user_id (b s) := Z.min (vis_segments s - 1) (left + d)]> (pos s)) s in
  let s := set_turn_id (if starter_id =? user_id (a s) then 0 else 1) s in
  add_raw "🤼 Grappling engaged!" s.

(** One iteration of the loop of [_expire_clearing]. *)
Definition expire_uid (s : DuelState) (uid : Z) : DuelState :=
  let exps := default [] (clearing_expiries s !! uid) in
  match exps with
  | [] => s
  | _ =>
      let kept := filter (λ t, turn_tick s < t) exps in
      let removed := Z.of_nat (length exps) - Z.of_nat (length kept) in
      let s :=
        if 0 <? removed then
          set_clearing_stacks
            (<[uid := Z.max 0 (default 0 (clearing_stacks s !! uid) - removed)]>
               (clearing_stacks s)) s
        else s in
      match kept with
      | _ :: _ => set_clearing_expiries (<[uid := kept]> (clearing_expiries s)) s
      | [] =>
          let s := set_clearing_expiries (delete uid (clearing_expiries s)) s in
          if default 0 (clearing_stacks s !! uid) =? 0 then
            set_clearing_stacks (delete uid (clearing_stacks s)) s
          else s
      end
  end.

Definition _expire_clearing (s : DuelState) : DuelState :=
  foldl expire_uid s [user_id (a s); user_id (b s)].

(** ** Randomness and the log spinner

    [random] draws and the module-level [_SPIN_IDX] are the only state
    outside the duel object.  A computation of type [M A] reads and writes
    them.  Every call of [random.randint], [random.random] or
    [random.choice] consumes one raw draw of the stream. *)

Record Globals : Type := mkGlobals { _SPIN_IDX : Z; rng : list N }.

Definition M (A : Type) : Type := Globals → A * Globals.

Global Instance M_ret : MRet M := λ A x g, (x, g).
Global Instance M_bind : MBind M := λ A B k m g, let '(x, g') := m g in k x g'.

(** The next raw draw; an exhausted stream keeps answering 0. *)
Definition next_raw : M N := λ g,
  match rng g with
  | [] => (0%N, g)
  | n :: rest => (n, mkGlobals (_SPIN_IDX g) rest)
  end.

(** [random.randint(lo, hi)]: an integer of [lo..hi], both ends included. *)
Definition randint (lo hi : Z) : M Z :=
  n ← next_raw; mret (lo + Z.of_N n mod (hi - lo + 1)).

(** [random.random()]: 53 random bits scaled into [0, 1). *)
Definition random_random : M Q :=
  n ← next_raw; mret (Z.of_N n mod 2 ^ 53 # 2 ^ 53)%Q.

(** [random.choice(seq)] for a three-element sequence. *)
Definition random_choice3 {A : Type} (x0 x1 x2 : A) : M A :=
  n ← next_raw;
  mret (match (n mod 3)%N with 0%N => x0 | 1%N => x1 | _ => x2 end).

Definition ANIM_FRAMES : list string := ["◐"; "◓"; "◑"; "◒"].

Definition next_fx_frame : M string := λ g,
  match ANIM_FRAMES with
  | [] => ("•", g)
  | _ =>
      let i := (_SPIN_IDX g + 1) mod Z.of_nat (length ANIM_FRAMES) in
      (default "" (ANIM_FRAMES !! Z.to_nat i), mkGlobals i (rng g))
  end.

Definition push (line : string) (s : DuelState) : M DuelState :=
  fx ← next_fx_frame;
  mret (add_raw (fx +:+ " " +:+ line) s).

Definition record_hit (attacker_id target_id : Z) (kind weapon : string) (s : DuelState)
    : DuelState :=
  set_last_hit (<[target_id := mkHit attacker_id kind weapon]> (last_hit s)) s.

(** ** Status ticks and the end of a turn *)

Definition _apply_choke_tick (s : DuelState) : M DuelState :=
  match choking s with
  | None => mret s
  | Some (choker, target) =>
      d ← randint 6 10;
      let s := set_breath (<[target := iclamp (default 50 (breath s !! target) - d) 0 100]>
                             (breath s)) s in
      d ← randint 3 7;
      let s := set_bloodflow
                 (<[target := iclamp (default 50 (bloodflow s !! target) - d) 0 100]>
                    (bloodflow s)) s in
      if (default 0 (breath s !! target) <=? 0) || (default 0 (bloodflow s !! target) <=? 0)
      then
        let s := set_unconscious ({[target]} ∪ unconscious s) s in
        let loser := if user_id (a s) =? target then a s else b s in
        let s := set_last_hit (<[target := mkHit choker "strangled" ""]> (last_hit s)) s in
        mret (add_raw ("😵‍💫 " +:+ name loser +:+ " passes out from the choke!") s)
      else mret s
  end.

(** [self.turn_id ^= 1], the round count and the tick. *)
Definition flip_turn (s : DuelState) : DuelState :=
  let s := set_turn_id (Z.lxor (turn_id s) 1) s in
  let s := if turn_id s =? 0 then set_round_no (round_no s + 1) s else s in
  set_turn_tick (turn_tick s + 1) s.

Definition end_turn (s : DuelState) : M DuelState :=
  let s := flip_turn s in
  let s := if grappling s then set_grapple_flip (Z.lxor (grapple_flip s) 1) s else s in
  let cur := fighter s (current s) in
  let s :=
    if bool_decide (user_id cur ∈ skip_turn_for s) then
      let s := set_skip_turn_for (skip_turn_for s ∖ {[user_id cur]}) s in
      let s := add_raw ("😵 " +:+ name cur +:+ " is staggered and loses a turn.") s in
      flip_turn s
    else s in
  s ← _apply_choke_tick s;
  mret (_expire_clearing s).

(** ** Action layer ([src/duel_legacy.py]) *)

Definition COVER_SET : list string := ["🚪"; "🚧"; "🛢️"].
Definition COVER_PCT_DEFAULT : Z := 40.

Definition _mark_trail (uid : Z) (s : DuelState) : DuelState :=
  let segs := vis_segments s in
  let idx := iclamp (default 0 (pos s !! uid)) 0 (segs - 1) in
  set_trails (<[uid := {[idx]} ∪ default ∅ (trails s !! uid)]> (trails s)) s.

(** [(cover_line or [None]*segs)[idx]].  The layout built at the start of
    a duel holds [segs] tokens, so the index is in range ([cover_ok]); a
    shorter layout would raise in the source and reads as no cover here. *)
Definition cover_token (s : DuelState) (idx : Z) : option string :=
  match cover_line s with
  | [] => None
  | l => mjoin (l !! Z.to_nat idx)
  end.

Definition cover_ok (s : DuelState) : Prop :=
  1 <= vis_segments s
  ∧ (cover_line s = [] ∨ vis_segments s <= Z.of_nat (length (cover_line s))).

Definition update_cover_flag (s : DuelState) (c : Side) : DuelState :=
  let uid := user_id (fighter s c) in
  let segs := vis_segments s in
  let idx := iclamp (default 0 (pos s !! uid)) 0 (segs - 1) in
  match cover_token s idx with
  | Some tok =>
      if bool_decide (tok ∈ COVER_SET) then
        let s := set_in_cover ({[uid]} ∪ in_cover s) s in
        set_cover_pct (<[uid := COVER_PCT_DEFAULT]> (cover_pct s)) s
      else
        let s := set_in_cover (in_cover s ∖ {[uid]}) s in
        set_cover_pct (delete uid (cover_pct s)) s
  | None =>
      let s := set_in_cover (in_cover s ∖ {[uid]}) s in
      set_cover_pct (delete uid (cover_pct s)) s
  end.

Definition _update_cover_flags (s : DuelState) : DuelState :=
  foldl update_cover_flag s [SideA; SideB].

(** The armor suffix of a damage line. *)
Definition armor_note (mit : Z) : string :=
  if 0 <? mit then " (−" +:+ pretty mit +:+ " armor)" else "".

Section Actions.
Context (P : Providers).

Definition _can_throw_grenade (uid : Z) : bool :=
  match get_equipped_ids P uid !! "grenade" with
  | Some iid => negb (String.eqb iid "")
  | None => false
  end.

Definition _grenade_hit_chance (s : DuelState) (thrower_id target_id : Z) : Q :=
  let p := ((80 # 100) - float (range_idx s) * (12 # 100))%Q in
  let s_throw := fitness (load_player_stats P thrower_id) in
  let s_tgt := fitness (load_player_stats P target_id) in
  let p := (p + (1 # 100) * (s_throw - s_tgt))%Q in
  clamp p (10 # 100) (95 # 100).

Definition _resolve_pending_grenade (acted : Side) (s : DuelState) : M DuelState :=
  let uid := user_id (fighter s acted) in
  match grenades_pending s !! uid with
  | None => mret s
  | Some pend =>
      if bool_decide (pend = ∅) then mret s else
      let dfn := load_player_stats P uid in
      let raw := default 0 (pend !! "damage") in
      let '(final, mit) := apply_armor_reduction s uid dfn raw "grenade" in
      let s := set_fighter_hp acted (Z.max 0 (hp (fighter s acted) - final)) s in
      let thrower_id := default 0 (pend !! "from") in
      let s := record_hit thrower_id uid "grenade" "grenade" s in
      s ← push ("💥 Grenade detonates on " +:+ name (fighter s acted) +:+ ": **"
                +:+ pretty final +:+ "** damage" +:+ armor_note mit +:+ ".") s;
      mret (set_grenades_pending (delete uid (grenades_pending s)) s)
  end.

(** True if fists are not allowed (anything but Hands On / grappling). *)
Definition _fists_too_far (s : DuelState) : bool :=
  negb (grappling s || can_grapple s).

(** The probability of a hit, as [_attack_once] and the scripted opponent
    both compute it inline. *)
Definition hit_probability (s : DuelState) (accuracy : Z) (atk dfn : Stats)
    (defender_id : Z) : Q :=
  let p := (float accuracy / 100)%Q in
  let p :=
    if bool_decide (defender_id ∈ in_cover s) then
      (p * (1 - float (default 0%Z (cover_pct s !! defender_id)) / 100))%Q
    else p in
  let p := if bool_decide (defender_id ∈ hidden s) then 0%Q else p in
  let p := (p + ((15 # 1000) * (combat atk - combat dfn)
                 + (10 # 1000) * (fitness atk - fitness dfn)))%Q in
  clamp p 0 (98 # 100).

Definition _attack_once (attacker defender : Side) (s : DuelState) : M DuelState :=
  let rng_name := rg_to_loadout_range (rngate s) in
  match compute_attack_numbers P (guild_id s) (user_id (fighter s attacker)) rng_name with
  | NotReady _ message _ => push message s
  | Ready _ weapon accuracy damage _ =>
      let weapon_name := CombatLoadout.name weapon in
      if String.eqb weapon_name "Fists" && _fists_too_far s then
        push (name (fighter s attacker) +:+ " is too far away to **swing** their fists.") s
      else
        let atk := load_player_stats P (user_id (fighter s attacker)) in
        let dfn := load_player_stats P (user_id (fighter s defender)) in
        let p := hit_probability s accuracy atk dfn (user_id (fighter s defender)) in
        r ← random_random;
        if Qle_bool r p then
          let base := damage in
          let kind := armor_kind_from_wclass (wclass weapon) in
          let '(final, mit) :=
            apply_armor_reduction s (user_id (fighter s defender)) dfn base kind in
          let s := set_fighter_hp defender (Z.max 0 (hp (fighter s defender) - final)) s in
          s ← (if String.eqb weapon_name "Fists" then
                 push (name (fighter s attacker) +:+ " **swings** and hits "
                       +:+ name (fighter s defender) +:+ " for **" +:+ pretty final
                       +:+ "**" +:+ armor_note mit +:+ ".") s
               else
                 push (name (fighter s attacker) +:+ " hits " +:+ name (fighter s defender)
                       +:+ " with **" +:+ weapon_name +:+ "** for **" +:+ pretty final
                       +:+ "**" +:+ armor_note mit +:+ ".") s);
          mret (record_hit (user_id (fighter s attacker)) (user_id (fighter s defender))
                  "shot" weapon_name s)
        else
          if String.eqb weapon_name "Fists" then
            push (name (fighter s attacker) +:+ " **swings** and **misses**.") s
          else
            push (name (fighter s attacker) +:+ " fires and **misses**.") s
  end.

(** *** Finisher offer and end-of-duel check *)

Definition FINISHER_MSG : string := "☠️ Your opponent is **unconscious**. Choose their fate.".

(** Returns whether a finisher view is offered, with the updated state. *)
Definition _maybe_offer_finisher (s : DuelState) : bool * DuelState :=
  match winner s with
  | None => (false, s)
  | Some w =>
      let loser := flip_side w in
      if bool_decide (user_id (fighter s loser) ∈ unconscious s) && active s then
        let s :=
          match finisher s with
          | Some _ => s
          | None => set_finisher (Some (user_id (fighter s w), user_id (fighter s loser))) s
          end in
        let s :=
          if bool_decide (last (log_lines s) = Some FINISHER_MSG) then s
          else add_raw FINISHER_MSG s in
        (true, s)
      else (false, s)
  end.

Definition _end_if_finished_or_offer (s : DuelState) : M DuelState :=
  let '(offered, s) := _maybe_offer_finisher s in
  if offered then mret s else
  if is_draw s then
    let s := set_finisher None s in
    let s := set_active false s in
    push "Both fighters fall! It's a draw." s
  else
    match winner s with
    | Some w =>
        let s := set_finisher None s in
        let s := set_active false s in
        push ("🏆 " +:+ name (fighter s w) +:+ " wins!") s
    | None => mret s
    end.

Definition _end_and_update (s : DuelState) : M DuelState :=
  _end_if_finished_or_offer s.
(** *** The scripted opponent *)

(** The active-squeeze step shared by the choke button and the scripted
    choker; [line] is the log line of the caller. *)
Definition squeeze (choker target : Z) (line : string) (s : DuelState) : M DuelState :=
  d ← randint 8 12;
  let s := set_breath (<[target := iclamp (default 50 (breath s !! target) - d) 0 100]>
                         (breath s)) s in
  d ← randint 4 8;
  let s := set_bloodflow
             (<[target := iclamp (default 50 (bloodflow s !! target) - d) 0 100]>
                (bloodflow s)) s in
  s ← push line s;
  if (default 0 (breath s !! target) <=? 0) || (default 0 (bloodflow s !! target) <=? 0)
  then
    let s := set_unconscious ({[target]} ∪ unconscious s) s in
    let s := record_hit choker target "strangled" "" s in
    match winner s with
    | Some w =>
        let s := set_finisher (Some (user_id (fighter s w), target)) s in
        if bool_decide (last (log_lines s) = Some FINISHER_MSG) then mret s
        else mret (add_raw FINISHER_MSG s)
    | None => mret s
    end
  else mret s.

(** Wrestle, punch and break-free as resolved for the actor [me] against
    [foe]; [tag] is the prefix the scripted opponent puts on its lines. *)
Definition wrestle (me foe : Side) (bot : bool) (s : DuelState) : M DuelState :=
  dmg ← randint 1 2;
  let s := set_fighter_hp foe (Z.max 0 (hp (fighter s foe) - dmg)) s in
  let me_id := user_id (fighter s me) in
  let foe_id := user_id (fighter s foe) in
  r ← random_random;
  let '(s, swing) :=
    if Qle_bool (1 # 2) r then (s, "")
    else
      let s := set_positioning
                 (<[me_id := iclamp (default 50 (positioning s !! me_id) + 10) 0 100]>
                    (positioning s)) s in
      let s := set_positioning
                 (<[foe_id := iclamp (default 50 (positioning s !! foe_id) - 10) 0 100]>
                    (positioning s)) s in
      (s, " Position improved.") in
  s ← push (if bot then
              "🤖 " +:+ name (fighter s me) +:+ " wrestles " +:+ name (fighter s foe)
              +:+ " for **" +:+ pretty dmg +:+ "**." +:+ swing
            else
              name (fighter s me) +:+ " **wrestles** " +:+ name (fighter s foe)
              +:+ " for **" +:+ pretty dmg +:+ "**." +:+ swing) s;
  mret (record_hit me_id foe_id "wrestle" "" s).

Definition punch (me foe : Side) (bot : bool) (s : DuelState) : M DuelState :=
  dmg ← randint 1 5;
  let s := set_fighter_hp foe (Z.max 0 (hp (fighter s foe) - dmg)) s in
  s ← push (if bot then
              "🤖 " +:+ name (fighter s me) +:+ " punches " +:+ name (fighter s foe)
              +:+ " for **" +:+ pretty dmg +:+ "**."
            else
              name (fighter s me) +:+ " **punches** " +:+ name (fighter s foe)
              +:+ " for **" +:+ pretty dmg +:+ "**.") s;
  mret (record_hit (user_id (fighter s me)) (user_id (fighter s foe)) "punch" "Fists" s).

Definition break_free (me foe : Side) (bot : bool) (s : DuelState) : M DuelState :=
  let me_id := user_id (fighter s me) in
  let foe_id := user_id (fighter s foe) in
  let my_pos := default 50 (positioning s !! me_id) in
  let their_pos := default 50 (positioning s !! foe_id) in
  let p := clamp ((40 # 100) + float (my_pos - their_pos) / 200)%Q (10 # 100) (90 # 100) in
  r ← random_random;
  if Qle_bool r p then
    let s := set_grappling false s in
    let s := set_choking None s in
    push (if bot then "🤖 " +:+ name (fighter s me) +:+ " breaks free!"
          else "🧷 " +:+ name (fighter s me) +:+ " **breaks free** from the grapple!") s
  else
    let s := set_positioning (<[me_id := iclamp (my_pos - 5) 0 100]> (positioning s)) s in
    let s := set_positioning (<[foe_id := iclamp (their_pos + 5) 0 100]> (positioning s)) s in
    push (if bot then "🤖 " +:+ name (fighter s me) +:+ " tries to break free but fails."
          else name (fighter s me) +:+ " tries to break free but **fails**.") s.

(** The movement fallback of the scripted opponent. *)
Definition ai_advance (ai : Side) (s : DuelState) : M DuelState :=
  step ← randint 1 2;
  let ai_id := user_id (fighter s ai) in
  let s := micro_move ai_id step s in
  let s := _mark_trail ai_id s in
  let s := _update_cover_flags s in
  push ("🤖 " +:+ name (fighter s ai) +:+ " advances **" +:+ pretty step +:+ " meters**.") s.

(** The shot of the scripted opponent once a weapon is resolved. *)
Definition ai_fire (ai foe : Side) (weapon : WeaponProfile) (accuracy damage : Z)
    (s : DuelState) : M DuelState :=
  let weapon_name := CombatLoadout.name weapon in
  let atk := load_player_stats P (user_id (fighter s ai)) in
  let dfn := load_player_stats P (user_id (fighter s foe)) in
  let p := hit_probability s accuracy atk dfn (user_id (fighter s foe)) in
  r ← random_random;
  if Qle_bool r p then
    let kind := armor_kind_from_wclass (wclass weapon) in
    let '(final, mit) := apply_armor_reduction s (user_id (fighter s foe)) dfn damage kind in
    let s := set_fighter_hp foe (Z.max 0 (hp (fighter s foe) - final)) s in
    s ← (if String.eqb weapon_name "Fists" then
           push ("🤖 " +:+ name (fighter s ai) +:+ " **swings** and hits "
                 +:+ name (fighter s foe) +:+ " for **" +:+ pretty final +:+ "**"
                 +:+ armor_note mit +:+ ".") s
         else
           push ("🤖 " +:+ name (fighter s ai) +:+ " fires **" +:+ weapon_name
                 +:+ "** and hits " +:+ name (fighter s foe) +:+ " for **" +:+ pretty final
                 +:+ "**" +:+ armor_note mit +:+ ".") s);
    mret (record_hit (user_id (fighter s ai)) (user_id (fighter s foe)) "shot" weapon_name s)
  else
    if String.eqb weapon_name "Fists" then
      push ("🤖 " +:+ name (fighter s ai) +:+ " **swings** and **misses**.") s
    else
      push ("🤖 " +:+ name (fighter s ai) +:+ " fires and **misses**.") s.

Definition _maybe_ai_take_turn (s : DuelState) : M DuelState :=
  if negb (active s) || negb (is_ai (fighter s (current s))) then mret s else
  let '(offered, s) := _maybe_offer_finisher s in
  if offered then mret s else
  s ← _resolve_pending_grenade (current s) s;
  let ai := current s in
  let foe := other s in
  match choking s with
  | Some (choker, target) =>
      if user_id (fighter s ai) =? choker then
        s ← squeeze choker target
              ("🤖 " +:+ name (fighter s ai) +:+ " tightens the choke.") s;
        end_turn s
      else
        s ← push ("🤖 " +:+ name (fighter s ai) +:+ " struggles for air…") s;
        end_turn s
  | None =>
      if grappling s then
        choice ← random_choice3 "wrestle" "punch" "break";
        s ← (if String.eqb choice "wrestle" then wrestle ai foe true s
             else if String.eqb choice "punch" then punch ai foe true s
             else break_free ai foe true s);
        end_turn s
      else
        let rng_name := rg_to_loadout_range (rngate s) in
        s ← match compute_attack_numbers P (guild_id s) (user_id (fighter s ai)) rng_name
            with
            | Ready _ weapon accuracy damage _ =>
                if String.eqb (CombatLoadout.name weapon) "Fists" && _fists_too_far s
                then ai_advance ai s
                else ai_fire ai foe weapon accuracy damage s
            | NotReady _ _ _ => ai_advance ai s
            end;
        end_turn s
  end.

(** *** Buttons of the main view *)

Definition main_is_my_turn (inter_user : Z) (s : DuelState) : bool :=
  active s && (inter_user =? user_id (fighter s (current s))).

Definition btn_advance (inter_user : Z) (s : DuelState) : M DuelState :=
  if negb (main_is_my_turn inter_user s) then mret s else
  s ← _resolve_pending_grenade (current s) s;
  steps ← randint 1 2;
  let s := micro_move inter_user steps s in
  let s := _mark_trail inter_user s in
  let s := _update_cover_flags s in
  s ← push (name (fighter s (current s)) +:+ " advances **" +:+ pretty steps
            +:+ " meters**.") s;
  s ← end_turn s;
  s ← _maybe_ai_take_turn s;
  _end_and_update s.

Definition btn_attack (inter_user : Z) (s : DuelState) : M DuelState :=
  if negb (main_is_my_turn inter_user s) then mret s else
  s ← _resolve_pending_grenade (current s) s;
  let attacker := current s in
  let defender := other s in
  s ← _attack_once attacker defender s;
  s ← end_turn s;
  s ← _maybe_ai_take_turn s;
  _end_and_update s.

Definition btn_grenade (inter_user : Z) (s : DuelState) : M DuelState :=
  if negb (main_is_my_turn inter_user s) then mret s else
  let thrower := current s in
  let target := other s in
  let thrower_id := user_id (fighter s thrower) in
  let target_id := user_id (fighter s target) in
  s ← (if negb (_can_throw_grenade thrower_id) then
         push (name (fighter s thrower) +:+ " fumbles for a grenade, but has none.") s
       else
         let p := _grenade_hit_chance s thrower_id target_id in
         r ← random_random;
         if Qle_bool r p then
           dmg ← randint 30 40;
           let s := set_grenades_pending
                      (<[target_id := {[ "from" := thrower_id; "damage" := dmg ]}]>
                         (grenades_pending s)) s in
           push ("💣 " +:+ name (fighter s thrower) +:+ " lobs a grenade! It lands near "
                 +:+ name (fighter s target)
                 +:+ " and will detonate at the start of their turn.") s
         else
           push ("💣 " +:+ name (fighter s thrower)
                 +:+ " throws a grenade but it **misses** the mark.") s);
  s ← end_turn s;
  s ← _maybe_ai_take_turn s;
  _end_and_update s.

Definition btn_disengage (inter_user : Z) (s : DuelState) : M DuelState :=
  if negb (main_is_my_turn inter_user s) then mret s else
  s ← _resolve_pending_grenade (current s) s;
  n ← randint 1 3;
  let steps := - n in
  let s := micro_move inter_user steps s in
  let s := _mark_trail inter_user s in
  let s := _update_cover_flags s in
  s ← push (name (fighter s (current s)) +:+ " retreats **" +:+ pretty (Z.abs steps)
            +:+ " meters**.") s;
  s ← end_turn s;
  s ← _maybe_ai_take_turn s;
  _end_and_update s.

Definition btn_grapple (inter_user : Z) (s : DuelState) : M DuelState :=
  if negb (main_is_my_turn inter_user s) then mret s else
  if negb (can_grapple s) then mret s else
  mret (begin_grapple inter_user s).

(** *** Buttons of the grapple view *)

Definition grapple_is_my_turn (inter_user : Z) (s : DuelState) : bool :=
  active s && (inter_user =? user_id (fighter s (current s)))
  && negb (negb (grappling s) || bool_decide (is_Some (choking s))).

Definition btn_choke (inter_user : Z) (s : DuelState) : M DuelState :=
  if negb (grapple_is_my_turn inter_user s) then mret s else
  let me := current s in
  let foe := other s in
  let me_id := user_id (fighter s me) in
  let foe_id := user_id (fighter s foe) in
  let my_pos := default 50 (positioning s !! me_id) in
  let their_pos := default 50 (positioning s !! foe_id) in
  let p := clamp ((50 # 100) + float (my_pos - their_pos) / 200)%Q (20 # 100) (85 # 100) in
  r ← random_random;
  s ← (if Qle_bool r p then
         let s := set_choking (Some (me_id, foe_id)) s in
         let s := set_breath (<[foe_id := default 50 (breath s !! foe_id)]> (breath s)) s in
         let s := set_bloodflow (<[foe_id := default 50 (bloodflow s !! foe_id)]>
                                   (bloodflow s)) s in
         push ("🫵 " +:+ name (fighter s me) +:+ " secures a **choke** on "
               +:+ name (fighter s foe) +:+ "!") s
       else
         push (name (fighter s me) +:+ " reaches for a choke but **fails**.") s);
  s ← end_turn s;
  s ← _maybe_ai_take_turn s;
  _end_and_update s.

Definition btn_wrestle (inter_user : Z) (s : DuelState) : M DuelState :=
  if negb (grapple_is_my_turn inter_user s) then mret s else
  s ← wrestle (current s) (other s) false s;
  s ← end_turn s;
  s ← _maybe_ai_take_turn s;
  _end_and_update s.

Definition btn_punch (inter_user : Z) (s : DuelState) : M DuelState :=
  if negb (grapple_is_my_turn inter_user s) then mret s else
  s ← punch (current s) (other s) false s;
  s ← end_turn s;
  s ← _maybe_ai_take_turn s;
  _end_and_update s.

Definition btn_breakfree (inter_user : Z) (s : DuelState) : M DuelState :=
  if negb (grapple_is_my_turn inter_user s) then mret s else
  s ← break_free (current s) (other s) false s;
  s ← end_turn s;
  s ← _maybe_ai_take_turn s;
  _end_and_update s.

(** *** Buttons of the choke view *)

Definition choke_is_my_turn (inter_user : Z) (s : DuelState) : bool :=
  active s && (inter_user =? user_id (fighter s (current s)))
  && match choking s with
     | Some (choker, _) => choker =? inter_user
     | None => false
     end.

Definition btn_squeeze (inter_user : Z) (s : DuelState) : M DuelState :=
  if negb (choke_is_my_turn inter_user s) then mret s else
  match choking s with
  | None => mret s
  | Some (choker, target) =>
      s ← squeeze choker target
            ("🫀 " +:+ name (fighter s (current s)) +:+ " **tightens the choke**.") s;
      s ← end_turn s;
      s ← _maybe_ai_take_turn s;
      _end_and_update s
  end.

Definition btn_letgo (inter_user : Z) (s : DuelState) : M DuelState :=
  if negb (choke_is_my_turn inter_user s) then mret s else
  let s := set_choking None s in
  s ← push ("🫁 " +:+ name (fighter s (current s)) +:+ " **releases the choke**.") s;
  s ← end_turn s;
  s ← _maybe_ai_take_turn s;
  _end_and_update s.

(** *** Buttons of the finisher view *)

Definition _is_victor (inter_user victor_id : Z) (s : DuelState) : bool :=
  active s && (inter_user =? victor_id).

(** [self.state.a if self.state.a.user_id == uid else self.state.b] *)
Definition side_of (s : DuelState) (uid : Z) : Side :=
  if user_id (a s) =? uid then SideA else SideB.

Definition btn_mercy (inter_user victor_id target_id : Z) (s : DuelState) : M DuelState :=
  if negb (_is_victor inter_user victor_id s) then mret s else
  let victor := side_of s victor_id in
  let target := side_of s target_id in
  let s := add_raw ("🕊️ " +:+ name (fighter s victor) +:+ " shows **mercy** to "
                    +:+ name (fighter s target) +:+ ".") s in
  let s := set_last_hit (<[target_id := mkHit victor_id "mercy" ""]> (last_hit s)) s in
  let s := set_finisher None s in
  mret (set_active false s).

Definition btn_beat (inter_user victor_id target_id : Z) (s : DuelState) : M DuelState :=
  if negb (_is_victor inter_user victor_id s) then mret s else
  let victor := side_of s victor_id in
  let target := side_of s target_id in
  dmg ← randint 1 7;
  let s := set_fighter_hp target (Z.max 0 (hp (fighter s target) - dmg)) s in
  s ← push ("👊 " +:+ name (fighter s victor) +:+ " **beats** the unconscious "
            +:+ name (fighter s target) +:+ " for **" +:+ pretty dmg +:+ "**.") s;
  let s := record_hit victor_id target_id "punch" "Fists" s in
  if hp (fighter s target) <=? 0 then
    let s := set_finisher None s in
    mret (set_active false s)
  else mret s.

(** The hostage item goes to the inventory provider, outside the duel. *)
Definition btn_kidnap (inter_user victor_id target_id : Z) (s : DuelState) : M DuelState :=
  if negb (_is_victor inter_user victor_id s) then mret s else
  let victor := side_of s victor_id in
  let target := side_of s target_id in
  let ok_msg := if add_item_to_inventory P then " (added to inventory)" else "" in
  let s := add_raw ("🧿 " +:+ name (fighter s victor) +:+ " **kidnaps** "
                    +:+ name (fighter s target) +:+ "." +:+ ok_msg) s in
  let s := set_last_hit (<[target_id := mkHit victor_id "kidnap" ""]> (last_hit s)) s in
  let s := set_finisher None s in
  mret (set_active false s).

End Actions.

(** ** Action entry points

    The buttons of the four views, as one type. *)
Inductive Action : Type :=
| Advance | Disengage | Attack | ThrowGrenade | BeginGrapple
| Wrestle | Punch | BreakFree | Choke | Squeeze | LetGo
| Mercy (victor_id target_id : Z) | Beat (victor_id target_id : Z)
| Kidnap (victor_id target_id : Z).

Definition press (P : Providers) (act : Action) (inter_user : Z) (s : DuelState)
    : M DuelState :=
  match act with
  | Advance => btn_advance P inter_user s
  | Disengage => btn_disengage P inter_user s
  | Attack => btn_attack P inter_user s
  | ThrowGrenade => btn_grenade P inter_user s
  | BeginGrapple => btn_grapple inter_user s
  | Wrestle => btn_wrestle P inter_user s
  | Punch => btn_punch P inter_user s
  | BreakFree => btn_breakfree P inter_user s
  | Choke => btn_choke P inter_user s
  | Squeeze => btn_squeeze P inter_user s
  | LetGo => btn_letgo P inter_user s
  | Mercy v t => btn_mercy inter_user v t s
  | Beat v t => btn_beat inter_user v t s
  | Kidnap v t => btn_kidnap P inter_user v t s
  end.

(** The states of a running duel: a duel starts at a valid gate, outside
    grapple and choke, and moves on by a button press (which may run the
    scripted opponent) or by one of the public methods of the state. *)
Inductive reachable (P : Providers) : DuelState → Prop :=
| reach_start s :
    valid_gate s → grappling s = false → choking s = None → reachable P s
| reach_press s act u g : reachable P s → reachable P (press P act u s g).1
| reach_step_range s delta actor : reachable P s → reachable P (step_range delta actor s)
| reach_micro_move s actor steps : reachable P s → reachable P (micro_move actor steps s)
| reach_begin_grapple s starter : reachable P s → reachable P (begin_grapple starter s)
| reach_end_turn s g : reachable P s → reachable P (end_turn s g).1.

(** ** Construction and sample data *)

(** The dataclass defaults followed by [__post_init__].  The constructor
    of the source creates neither [cover_line] nor [trails]: both are
    attached by [_init_battlefield], which every command runs right after
    the constructor.  Until then the record holds the empty list, which the
    readers of [cover_line] treat like a missing attribute (a line without
    cover), and the empty dictionary, where [_mark_trail] of the source
    would fail on the missing attribute. *)
Definition DuelState_init (guild : Z) (ca cb : Combatant) : DuelState :=
  let s :=
    {| guild_id := guild; a := ca; b := cb;
       range_idx := 2; vis_segments := 26; pos := ∅; last_mover := None;
       turn_id := 0; log_lines := []; full_log_lines := []; active := true; round_no := 1;
       grappling := false; positioning := ∅; choking := None; breath := ∅; bloodflow := ∅;
       unconscious := ∅; clearing_stacks := ∅; clearing_expiries := ∅; turn_tick := 0;
       hidden := ∅; in_cover := ∅; cover_pct := ∅; grenades_pending := ∅;
       skip_turn_for := ∅; last_hit := ∅; grapple_just_started := false;
       grapple_starter_id := None; grapple_flip := 0; finisher := None;
       cover_line := []; trails := ∅ |} in
  let d := _target_vis_gap s in
  let left := Z.max 0 ((vis_segments s - d) / 2 - 1) in
  let s := set_pos (<[user_id ca := left]> (pos s)) s in
  let s := set_pos (<[user_id cb := Z.min (vis_segments s - 1) (left + d)]> (pos s)) s in
  let s := set_positioning (<[user_id ca := 50]> (positioning s)) s in
  set_positioning (<[user_id cb := 50]> (positioning s)) s.

Definition Combatant_init (uid : Z) (nm : string) : Combatant :=
  {| user_id := uid; name := nm; hp := 100; is_ai := false |}.

Module Sample.

Definition ann : Combatant := Combatant_init 1 "Ann".
Definition bob : Combatant := Combatant_init 2 "Bob".
Definition bot : Combatant := {| user_id := 2; name := "AI Defender"; hp := 100; is_ai := true |}.

(** A fresh duel between two players, and one against the scripted
    opponent. *)
Definition duel : DuelState := DuelState_init 7 ann bob.
Definition duel_ai : DuelState := DuelState_init 7 ann bot.

Definition empty_kit : CombatKit :=
  {| primary := None; secondary := None; mods := ∅; preferred_slot := "primary" |}.

(** Nobody owns anything: base stats, no weapons, no grenade. *)
Definition bare : Providers :=
  {| _GET_STATS := None; get_equipped_mods := λ _, ∅; get_equipped_ids := λ _, ∅;
     get_combatkit := λ _ _, empty_kit;
     add_item_to_inventory := false |}.

(** Everybody wears armor 10 and carries a grenade, still no weapon. *)
Definition armored : Providers :=
  {| _GET_STATS := None;
     get_equipped_mods := λ _, {[ "armor" := 10%Q ]};
     get_equipped_ids := λ _, {[ "grenade" := "grenade.frag" ]};
     get_combatkit := λ _ _, empty_kit;
     add_item_to_inventory := false |}.

Definition g0 : Globals := {| _SPIN_IDX := -1; rng := [] |}.

(** The next [random.random()] is 0.0, the luckiest roll there is. *)
Definition g_lucky : Globals := {| _SPIN_IDX := -1; rng := [0%N; 0%N; 0%N; 0%N] |}.

Definition duel_hands : DuelState := set_range_idx 0 duel.

(** Bob has armed a grenade (damage 35) against Ann, who is to act. *)
Definition duel_grenade : DuelState :=
  set_grenades_pending {[ 1 := {[ "from" := 2; "damage" := 35 ]} ]} duel.

(** Ann and Bob grapple at HANDS, a grenade still pending on Ann. *)
Definition grapple_grenade : DuelState :=
  set_grappling true (set_range_idx 0 duel_grenade).

(** Ann chokes Bob, whose breath is at 5 and bloodflow at 50. *)
Definition duel_choke : DuelState :=
  set_breath {[ 2 := 5 ]}
    (set_bloodflow {[ 2 := 50 ]}
       (set_choking (Some (1, 2)) (set_grappling true duel_hands))).


(** The same choke with a grenade still pending on Ann. *)
Definition choke_grenade : DuelState :=
  set_grenades_pending {[ 1 := {[ "from" := 2; "damage" := 35 ]} ]} duel_choke.

(** Ann grabs Bob at HANDS and secures a choke: two button presses. *)
Definition choke_reached : DuelState :=
  (press bare Choke 1 (press bare BeginGrapple 1 duel_hands g_lucky).1 g_lucky).1.

(** Ann is at 0 hit points; Bob is alive but unconscious. *)
Definition duel_down : DuelState :=
  set_unconscious {[ 2 ]} (set_a (set_hp 0 ann) duel).

(** Bob is at 0 hit points and Ann is unconscious. *)
Definition duel_down_b : DuelState :=
  set_unconscious {[ 1 ]} (set_b (set_hp 0 bob) duel).

(** Both fighters have hit points left; Bob is unconscious. *)
Definition duel_ko : DuelState := set_unconscious {[ 2 ]} duel.


Definition stats10 : Stats := {| combat := 10; fitness := 10; armor := 10 |}.

(** Armor 45: times 0.70 the exact product is 31.5, the float product
    31.499999999999996. *)
Definition stats45 : Stats := {| combat := 10; fitness := 10; armor := 45 |}.

End Sample.

(** ** Auxiliary notions used in the statements *)

(** The recorded expiries of [uid], as the loop reads them. *)
Definition expiries_of (s : DuelState) (uid : Z) : list Z :=
  default [] (clearing_expiries s !! uid).

Definition stacks_of (s : DuelState) (uid : Z) : Z :=
  default 0 (clearing_stacks s !! uid).

(** How many recorded expiries of [uid] are due at the current tick. *)
Definition due (s : DuelState) (uid : Z) : Z :=
  Z.of_nat (length (filter (λ t, t <= turn_tick s) (expiries_of s uid))).

(** What one expiry pass owes to fighter [uid]: the due entries are gone
    from the list and the stack count went down by their number, not
    below 0. *)
Definition expired_once (s s' : DuelState) (uid : Z) : Prop :=
  expiries_of s' uid = filter (λ t, turn_tick s < t) (expiries_of s uid)
  ∧ stacks_of s' uid =
      (if 0 <? due s uid then Z.max 0 (stacks_of s uid - due s uid) else stacks_of s uid).

(** No recorded expiry of [uid] is due at the current tick. *)
Definition settled (s : DuelState) (uid : Z) : Prop :=
  Forall (λ t, turn_tick s < t) (expiries_of s uid).


(** The globals after one raw draw has been consumed. *)
Definition pop (g : Globals) : Globals := mkGlobals (_SPIN_IDX g) (tail (rng g)).

(** The fields that the scheduler of [end_turn] owns. *)
Definition staggered (s : DuelState) : bool :=
  let cur := if Z.lxor (turn_id s) 1 =? 0 then a s else b s in
  bool_decide (user_id cur ∈ skip_turn_for s).

(** The status ticks leave the scheduler fields and the hit points
    alone. *)
Definition same_schedule (s s' : DuelState) : Prop :=
  turn_id s' = turn_id s ∧ round_no s' = round_no s ∧ turn_tick s' = turn_tick s
  ∧ grapple_flip s' = grapple_flip s ∧ skip_turn_for s' = skip_turn_for s
  ∧ a s' = a s ∧ b s' = b s ∧ grappling s' = grappling s ∧ choking s' = choking s
  ∧ range_idx s' = range_idx s.


(** The part of [end_turn] that runs before the status ticks: owner,
    round, tick, grapple bit and the staggered-turn skip. *)
Definition turn_advance (s : DuelState) : DuelState :=
  let s := flip_turn s in
  let s := if grappling s then set_grapple_flip (Z.lxor (grapple_flip s) 1) s else s in
  let cur := fighter s (current s) in
  if bool_decide (user_id cur ∈ skip_turn_for s) then
    let s := set_skip_turn_for (skip_turn_for s ∖ {[user_id cur]}) s in
    let s := add_raw ("😵 " +:+ name cur +:+ " is staggered and loses a turn.") s in
    flip_turn s
  else s.

(** What a choke decay with draws [d1] (breath) and [d2] (bloodflow) leaves
    in [s'], starting from [s]. *)
Definition choke_outcome (s : DuelState) (choker target d1 d2 : Z) (s' : DuelState) : Prop :=
  let br := iclamp (default 50 (breath s !! target) - d1) 0 100 in
  let bl := iclamp (default 50 (bloodflow s !! target) - d2) 0 100 in
  breath s' !! target = Some br ∧ bloodflow s' !! target = Some bl
  ∧ 0 <= br <= 100 ∧ 0 <= bl <= 100
  ∧ hp (a s') = hp (a s) ∧ hp (b s') = hp (b s)
  ∧ (if (br <=? 0) || (bl <=? 0)
     then unconscious s' = {[target]} ∪ unconscious s
          ∧ last_hit s' !! target = Some (mkHit choker "strangled" "")
     else unconscious s' = unconscious s ∧ last_hit s' = last_hit s).


(** Both fighters stand on the line, on different cells. *)
Definition on_line (s : DuelState) (pa pb : Z) : Prop :=
  pos s !! user_id (a s) = Some pa ∧ pos s !! user_id (b s) = Some pb
  ∧ pa ≠ pb ∧ 0 <= pa <= vis_segments s - 1 ∧ 0 <= pb <= vis_segments s - 1.

(** The phase invariant of a running duel: the range index is valid, a
    grapple exists only at the HANDS gate, and a choke only inside a
    grapple.  It holds for a fresh duel and every operation keeps it
    (lemmas [coherent_*]). *)
Definition coherent (s : DuelState) : Prop :=
  valid_gate s
  ∧ (grappling s = true → rngate s = HANDS)
  ∧ (is_Some (choking s) → grappling s = true).

(** Grapple is off and a choke that was active in [s] is gone from [s']. *)
Definition released (s s' : DuelState) : Prop :=
  grappling s' = false
  ∧ (is_Some (choking s) → choking s' = None ∧ breath s' = ∅ ∧ bloodflow s' = ∅).

(** [same_phase s s']: the fields that [coherent] reads are those of [s]. *)
Definition same_phase (s s' : DuelState) : Prop :=
  range_idx s' = range_idx s ∧ grappling s' = grappling s ∧ choking s' = choking s.

(** [ensures m Q]: whatever the draws, the result of [m] satisfies [Q]. *)
Definition ensures {A : Type} (m : M A) (Q : A → Prop) : Prop := ∀ g, Q (m g).1.

(** [same_stage s s']: [s'] differs from [s] at most in hit points, the
    last-hit record, the pending grenades and the log. *)
Definition same_stage (s s' : DuelState) : Prop :=
  guild_id s' = guild_id s ∧ range_idx s' = range_idx s ∧ turn_id s' = turn_id s
  ∧ vis_segments s' = vis_segments s ∧ pos s' = pos s
  ∧ active s' = active s ∧ grappling s' = grappling s ∧ choking s' = choking s
  ∧ unconscious s' = unconscious s ∧ finisher s' = finisher s
  ∧ hidden s' = hidden s ∧ in_cover s' = in_cover s ∧ cover_pct s' = cover_pct s
  ∧ (∀ w, user_id (fighter s' w) = user_id (fighter s w)
          ∧ name (fighter s' w) = name (fighter s w)
          ∧ is_ai (fighter s' w) = is_ai (fighter s w)).

(** The state right after a pending grenade on [acted] went off: [damage]
    mitigated as kind "grenade", hit points floored at 0, the hit recorded,
    the entry removed.  The log line is added separately. *)
Definition detonated (P : Providers) (acted : Side) (pend : gmap string Z) (s : DuelState)
    : DuelState :=
  let uid := user_id (fighter s acted) in
  let '(final, mit) :=
    apply_armor_reduction s uid (load_player_stats P uid) (default 0 (pend !! "damage"))
      "grenade" in
  let s := set_fighter_hp acted (Z.max 0 (hp (fighter s acted) - final)) s in
  record_hit (default 0 (pend !! "from")) uid "grenade" "grenade" s.



(** The damage of the grenade pending on [uid], if there is one. *)
Definition pending_damage (s : DuelState) (uid : Z) : option Z :=
  pend ← grenades_pending s !! uid; pend !! "damage".

(** * The rest of the engine and its callers

    The definitions below follow the parts of [src/duel_core.py] and
    [src/duel_legacy.py] that the duel proper does not need (labels, bars,
    odds, the view chooser, the battlefield, the channel registry) and the
    inventory of [src/inventory.py] from which [src/combat_loadout.py]
    builds a combat kit. *)

(** ** Range labels ([src/duel_core.py]) *)

(** [int(x)] on a float: truncation toward zero. *)
Definition py_int (q : Q) : Z := Z.quot (Qnum q) (Z.pos (Qden q)).

Definition RANGE_NAMES (rg : RangeGate) : string :=
  match rg with
  | HANDS => "Hands On"
  | CLOSE => "Close"
  | MID => "Mid"
  | FAR => "Far"
  | VERYFAR => "Very Far"
  end.

Definition RANGE_METERS (rg : RangeGate) : Q * Q :=
  match rg with
  | HANDS => (1, 3)
  | CLOSE => (4, 10)
  | MID => (11, 30)
  | FAR => (31, 50)
  | VERYFAR => (51, 999)
  end%Q.

Definition _approx_m (rg : RangeGate) : Z :=
  let '(lo, hi) := RANGE_METERS rg in
  py_round ((lo + Qmin hi (lo + Qmax 2 (hi - lo))) / 2)%Q.

Definition range_label (rg : RangeGate) : string :=
  let '(lo, hi) := RANGE_METERS rg in
  let hi_txt := if bool_decide (rg = VERYFAR) then "50m+" else pretty (py_int hi) +:+ "m" in
  RANGE_NAMES rg +:+ " " +:+ pretty (py_int lo) +:+ "–" +:+ hi_txt
  +:+ " (≈" +:+ pretty (_approx_m rg) +:+ "m)".

(** ** The whole stats dictionary *)

(** [load_player_stats] returns a dictionary with fourteen fixed keys; the
    duel reads three of them (record [Stats] above).  [Sheet.t] has them
    all, for the callers that read the others.  [float(x)] is [b64 x],
    and the equipment bonus is added with the float sum. *)
Module Sheet.

Record t : Type := mk {
  health : Q; blood : Q; cash : Q; net_worth : Q; weight : Q; capacity : Q;
  melee_dmg : Q; ranged_dmg : Q; combat : Q; fitness : Q;
  hit_bonus : Q; crit_bonus : Q; crit_mult_bonus : Q; armor : Q
}.

Definition load_player_stats (P : Providers) (user_id : Z) : t :=
  let raw := match _GET_STATS P with Some f => f user_id | None => ∅ end in
  let get (k : string) (d : Q) : Q := b64 (default d (raw !! k)) in
  let mods := get_equipped_mods P user_id in
  let add (k : string) (v : Q) : Q := fadd (b64 v) (b64 (default 0%Q (mods !! k))) in
  {| health := get "health" (default 100%Q (raw !! "hp"));
     blood := get "blood" 0%Q;
     cash := get "cash" 0%Q;
     net_worth := get "net_worth" (default 0%Q (raw !! "networth"));
     weight := add "weight" (get "weight" 0%Q);
     capacity := add "capacity" (get "capacity" (default 20%Q (raw !! "inventory_capacity")));
     melee_dmg := add "melee_dmg" (get "melee_dmg" 10%Q);
     ranged_dmg := add "ranged_dmg" (get "ranged_dmg" 10%Q);
     combat := add "combat" (get "combat" 10%Q);
     fitness := add "fitness" (get "fitness" 10%Q);
     hit_bonus := add "hit_bonus" 0%Q;
     crit_bonus := add "crit_bonus" 0%Q;
     crit_mult_bonus := add "crit_mult_bonus" 0%Q;
     armor := add "armor" 0%Q |}.

End Sheet.

(** ** Odds and critical hits *)

Definition Qlt_bool (x y : Q) : bool := negb (Qle_bool y x).

(** The weighted sum is a float sum, added from left to right. *)
Definition profile_score (P : Providers) (user_id hp_now : Z) : Q :=
  let s := Sheet.load_player_stats P user_id in
  Qmax 1 (fadd (fadd (fadd (fmul (b64 (30 # 100))
                                 (fadd (Sheet.melee_dmg s) (Sheet.ranged_dmg s)))
                           (fmul (b64 (25 # 100)) (Sheet.combat s)))
                     (fmul (b64 (20 # 100)) (Sheet.fitness s)))
               (fmul (b64 (25 # 100)) (b64 (float hp_now)))).

(** [p_a - 0.5] is the float difference, and the thresholds are the floats
    that the literals denote. *)
Definition odds_phrase (p_a : Q) (name_a name_b : string) : string :=
  let diff := Qabs (fsub p_a (1 # 2)) in
  let fav := if Qle_bool (1 # 2) p_a then name_a else name_b in
  if Qlt_bool diff (b64 (2 # 100)) then "Anyone's guess!"
  else if Qlt_bool diff (b64 (8 # 100)) then "It looks like it's going to be a close fight."
  else if Qlt_bool diff (b64 (15 # 100)) then "Slight edge to " +:+ fav +:+ "."
  else if Qlt_bool diff (b64 (25 # 100)) then fav +:+ " is favored."
  else "This should be a beatdown...".

(** The share of fighter [a] that [_post_public_banner] hands to
    [odds_phrase]: a float quotient by a float sum. *)
Definition banner_share (P : Providers) (ca cb : Combatant) : Q :=
  fdiv (profile_score P (user_id ca) (hp ca))
       (fadd (profile_score P (user_id ca) (hp ca)) (profile_score P (user_id cb) (hp cb))).

Definition crit_params (atk : Sheet.t) : Q * Q :=
  let chance := clamp ((10 # 100) + (5 # 1000) * (Sheet.combat atk - 10)
                       + Sheet.crit_bonus atk)%Q (5 # 100) (40 # 100) in
  let mult := clamp ((150 # 100) + (5 # 1000) * Sheet.combat atk
                     + Sheet.crit_mult_bonus atk)%Q (150 # 100) (225 # 100) in
  (chance, mult).

(** ** More [DuelState] methods *)

Definition is_participant (s : DuelState) (uid : Z) : bool :=
  bool_decide (uid ∈ [user_id (a s); user_id (b s)]).

(** [l[-1] = line] on a non-empty list, [l.append(line)] on an empty one. *)
Definition set_last_line (line : string) (l : list string) : list string :=
  match l with
  | [] => [line]
  | _ => <[(length l - 1)%nat := line]> l
  end.

Definition replace_last (line : string) (s : DuelState) : DuelState :=
  let s := set_log_lines (set_last_line line (log_lines s)) s in
  set_full_log_lines (set_last_line line (full_log_lines s)) s.

(** ** Inventory ([src/inventory.py])

    A player's stored state is a dictionary with an ["inventory"] list and
    an ["equipment"] dictionary from slot to instance id (or [None]).
    Items are dictionaries; the keys that the code reads with a subscript
    ([inst_id], [name], [type], [def_id]) are plain fields, the keys read
    with [.get] are optional.  Dictionaries whose order shows (equipment)
    are association lists with the update rule of a Python dictionary.
    Writing the state back to disk ([save_player]) is left out. *)

Module Inventory.

Record Item : Type := mkItem {
  inst_id : string;
  name : string;
  type_ : string;
  def_id : string;
  weight : option Q;
  slot : option string;
  fit_slots : option (list string);
  tags : option (list string);
  mods : option (gmap string Z)
}.

Record Player : Type := mkPlayer {
  inventory : list Item;
  equipment : list (string * option string);
  carry_capacity : option Q;
  preferred_weapon_slot : option string
}.

Definition set_inventory (v : list Item) (st : Player) : Player :=
  mkPlayer v (equipment st) (carry_capacity st) (preferred_weapon_slot st).

Definition set_equipment (v : list (string * option string)) (st : Player) : Player :=
  mkPlayer (inventory st) v (carry_capacity st) (preferred_weapon_slot st).

Definition set_preferred_weapon_slot (v : option string) (st : Player) : Player :=
  mkPlayer (inventory st) (equipment st) (carry_capacity st) v.

(** [d.get(k)] and [d[k] = v] on an association list. *)
Fixpoint dict_get {V : Type} (k : string) (d : list (string * V)) : option V :=
  match d with
  | [] => None
  | (k', v) :: rest => if String.eqb k' k then Some v else dict_get k rest
  end.

Fixpoint dict_set {V : Type} (k : string) (v : V) (d : list (string * V))
  : list (string * V) :=
  match d with
  | [] => [(k, v)]
  | (k', v') :: rest =>
      if String.eqb k' k then (k', v) :: rest else (k', v') :: dict_set k v rest
  end.

(** The instance id in a slot when it is truthy (neither [None] nor the
    empty string). *)
Definition truthy (v : option string) : option string :=
  match v with
  | Some iid => if String.eqb iid "" then None else Some iid
  | None => None
  end.

(** [next((x for x in inventory if x["inst_id"] == iid), None)] *)
Definition find_inst (inv : list Item) (iid : string) : option Item :=
  List.find (λ x, String.eqb (inst_id x) iid) inv.

(** [item.get("slot")] *)
Definition item_slot (item : Item) : option string := slot item.

Definition VALID_SLOTS : list string := ["primary"; "secondary"; "armor"; "accessory"].

(** The second loop of [_find_item], over the equipment. *)
Fixpoint find_equipped (inv : list Item) (eq : list (string * option string))
    (inst : string) : option Item :=
  match eq with
  | [] => None
  | (_, v) :: rest =>
      match truthy v with
      | None => find_equipped inv rest inst
      | Some iid =>
          match find_inst inv iid with
          | Some it =>
              if String.eqb (inst_id it) inst then Some it else find_equipped inv rest inst
          | None => find_equipped inv rest inst
          end
      end
  end.

Definition _find_item (st : Player) (inst : string) : option Item :=
  match find_inst (inventory st) inst with
  | Some it => Some it
  | None => find_equipped (inventory st) (equipment st) inst
  end.

Definition grant_item (item : Item) (st : Player) : Player :=
  set_inventory (inventory st ++ [item]) st.

(** [inv.pop(idx)] at the first index whose item has the id; [None] when
    there is none. *)
Fixpoint pop_inst (inst : string) (inv : list Item) : option (list Item) :=
  match inv with
  | [] => None
  | it :: rest =>
      if String.eqb (inst_id it) inst then Some rest
      else cons it <$> pop_inst inst rest
  end.

(** The loop of [remove_item] over the equipment: every slot that holds
    the id is set to [None]. *)
Definition clear_slots (inst : string) (eq : list (string * option string))
  : list (string * option string) :=
  map (λ '(slot, iid), (slot, if bool_decide (iid = Some inst) then None else iid)) eq.

Definition remove_item (inst : string) (st : Player) : bool * Player :=
  match pop_inst inst (inventory st) with
  | Some inv =>
      (true, set_equipment (clear_slots inst (equipment st)) (set_inventory inv st))
  | None => (false, st)
  end.

Definition equip_item (inst : string) (slot : option string) (st : Player)
  : (bool * string) * Player :=
  match _find_item st inst with
  | None => ((false, "Item not found."), st)
  | Some item =>
      if String.eqb (type_ item) "consumable" then
        ((false, "Consumables cannot be equipped."), st)
      else
        let slot :=
          match slot with
          | Some sl => sl
          | None => default "primary" (truthy (item_slot item))
          end in
        if negb (bool_decide (slot ∈ VALID_SLOTS)) then
          ((false, "Invalid slot '" +:+ slot +:+ "'."), st)
        else if negb (bool_decide (slot ∈ default [slot] (fit_slots item))) then
          ((false, name item +:+ " cannot be equipped to '" +:+ slot +:+ "'."), st)
        else
          ((true, "Equipped " +:+ name item +:+ " to " +:+ slot +:+ "."),
           set_equipment (dict_set slot (Some inst) (equipment st)) st)
  end.

Definition unequip_slot (slot : string) (st : Player) : (bool * string) * Player :=
  if negb (bool_decide (slot ∈ VALID_SLOTS)) then
    ((false, "Invalid slot '" +:+ slot +:+ "'."), st)
  else
    match dict_get slot (equipment st) with
    | Some (Some _) =>
        ((true, "Unequipped " +:+ slot +:+ "."),
         set_equipment (dict_set slot None (equipment st)) st)
    | _ => ((false, "Nothing equipped in " +:+ slot +:+ "."), st)
    end.

(** *** Weight and capacity *)

(** [round(x, 2)], on the idealised floats. *)
Definition py_round2 (x : Q) : Q := (py_round (x * 100) # 100)%Q.

Definition base_capacity (st : Player) : Q := default 25%Q (carry_capacity st).

(** Each equipped item with the tag 'carry' grants 5 kg. *)
Definition capacity_bonus_from_equipment (st : Player) : Q :=
  foldl (λ bonus '(_, v),
           match truthy v with
           | None => bonus
           | Some iid =>
               match find_inst (inventory st) iid with
               | Some it =>
                   match tags it with
                   | Some tg => if bool_decide ("carry" ∈ tg) then (bonus + 5)%Q else bonus
                   | None => bonus
                   end
               | None => bonus
               end
           end) 0%Q (equipment st).

Definition current_capacity (st : Player) : Q :=
  py_round2 (base_capacity st + capacity_bonus_from_equipment st).

Definition total_weight (st : Player) : Q :=
  py_round2 (foldl (λ w it, (w + default 0%Q (weight it))%Q) 0%Q (inventory st)).

Definition is_overweight (st : Player) : bool :=
  Qlt_bool (current_capacity st) (total_weight st).

(** *** Derived modifiers *)

(** [for k, v in item_mods.items(): mods[k] = mods.get(k, 0) + int(v)] *)
Definition add_mods (acc item_mods : gmap string Z) : gmap string Z :=
  map_fold (λ k v acc, <[k := default 0 (acc !! k) + v]> acc) acc item_mods.

Definition derived_equipped_mods (st : Player) : gmap string Z :=
  foldl (λ acc '(_, v),
           match truthy v with
           | None => acc
           | Some iid =>
               match find_inst (inventory st) iid with
               | Some item => add_mods acc (default ∅ (mods item))
               | None => acc
               end
           end) ∅ (equipment st).

Definition get_equipped_ids (st : Player) : list string :=
  omap (λ '(_, v), truthy v) (equipment st).

Definition get_equipped_mods (st : Player) : gmap string Z := derived_equipped_mods st.

Definition get_equipped_items (st : Player) : list (string * option Item) :=
  foldl (λ out '(slot, v),
           match truthy v with
           | None => dict_set slot None out
           | Some iid => dict_set slot (find_inst (inventory st) iid) out
           end) [] (equipment st).

(** *** Consumables and transfer *)

Definition use_consumable (inst : string) (st : Player) : (bool * string) * Player :=
  match _find_item st inst with
  | None => ((false, "Item not found."), st)
  | Some it =>
      if negb (String.eqb (type_ it) "consumable") then
        ((false, "That item is not a consumable."), st)
      else
        let effect_msg := "You used **" +:+ name it +:+ "**." in
        let '(removed, st) := remove_item inst st in
        if negb removed then ((false, "Failed to consume item."), st)
        else ((true, effect_msg), st)
  end.

(** The two states are distinct objects. *)
Definition transfer_item (inst : string) (from_state to_state : Player)
  : (bool * string) * (Player * Player) :=
  match _find_item from_state inst with
  | None => ((false, "Item not found."), (from_state, to_state))
  | Some it =>
      if bool_decide (Some inst ∈ (equipment from_state).*2) then
        ((false, "Unequip the item before transferring."), (from_state, to_state))
      else
        let '(ok, from_state) := remove_item inst from_state in
        if negb ok then ((false, "Failed to remove from sender."), (from_state, to_state))
        else
          ((true, "Transferred **" +:+ name it +:+ "** to the recipient."),
           (from_state, set_inventory (inventory to_state ++ [it]) to_state))
  end.

End Inventory.

(** ** Building the combat kit ([src/combat_loadout.py]) *)

Module Loadout.

(** The per-class defaults: ranges, base damage, base accuracy. *)
Definition _CLASS (wcls : string) : option (list string * Z * Z) :=
  if String.eqb wcls "melee" then Some (["Close"], 6, 85)
  else if String.eqb wcls "pistol" then Some (["Close"; "Near"; "Mid"], 5, 70)
  else if String.eqb wcls "smg" then Some (["Close"; "Near"], 6, 65)
  else if String.eqb wcls "shotgun" then Some (["Close"; "Near"], 9, 60)
  else if String.eqb wcls "rifle" then Some (["Near"; "Mid"; "Far"], 7, 75)
  else None.

Definition _class_from_item (it : option Inventory.Item) : option string :=
  match it with
  | None => None
  | Some it =>
      let tags := default [] (Inventory.tags it) in
      let def_id := Inventory.def_id it in
      if bool_decide ("melee" ∈ tags) || String.prefix "melee." def_id
         || bool_decide ("bat" ∈ tags) then Some "melee"
      else if bool_decide ("pistol" ∈ tags) then Some "pistol"
      else if bool_decide ("smg" ∈ tags) then Some "smg"
      else if bool_decide ("shotgun" ∈ tags) then Some "shotgun"
      else if bool_decide ("rifle" ∈ tags) then Some "rifle"
      else None
  end.

(** The profile of the item in a slot; of the nine attributes of the
    source's [WeaponProfile] the five that the duel reads are kept. *)
Definition _profile_from_item (slot : string) (it : option Inventory.Item)
  : option WeaponProfile :=
  match it with
  | None => None
  | Some item =>
      match _class_from_item it with
      | None => None
      | Some wcls =>
          match _CLASS wcls with
          | None => None
          | Some (ranges, base_damage, base_accuracy) =>
              Some {| CombatLoadout.name := Inventory.name item;
                      wclass := wcls;
                      ranges := ranges;
                      base_damage := base_damage;
                      base_accuracy := base_accuracy |}
          end
      end
  end.

(** [get_combatkit]; [load_player] stands for the persistence layer. *)
Definition get_combatkit (load_player : Z → Z → Inventory.Player) (guild_id user_id : Z)
  : CombatKit :=
  let state := load_player guild_id user_id in
  let eq := Inventory.get_equipped_items state in
  {| primary := _profile_from_item "primary" (mjoin (Inventory.dict_get "primary" eq));
     secondary := _profile_from_item "secondary" (mjoin (Inventory.dict_get "secondary" eq));
     CombatLoadout.mods := Inventory.derived_equipped_mods state;
     preferred_slot := default "primary" (Inventory.preferred_weapon_slot state) |}.

(** [set_preferred_slot], on the loaded state. *)
Definition set_preferred_slot (slot : string) (st : Inventory.Player) : Inventory.Player :=
  Inventory.set_preferred_weapon_slot (Some slot) st.

End Loadout.

(** ** Bars of the HUD ([src/duel_legacy.py]) *)

(** [s * n] on a string: [n] copies, none when [n] is not positive. *)
Definition str_mul (s : string) (n : Z) : string :=
  String.concat "" (replicate (Z.to_nat n) s).



Definition _ARMOR_DISPLAY_MAX : Q := 20.

(** The number of filled cells of [armor_bar]. *)
Definition armor_filled (armor : Q) (segments : Z) : Z :=
  let pct := clamp (fdiv armor _ARMOR_DISPLAY_MAX) 0 1 in
  iclamp (py_round (fmul pct (b64 (float segments)))) 0 segments.

Definition armor_bar (armor : Q) (segments : Z) : string :=
  let filled := armor_filled armor segments in
  str_mul "🟦" filled +:+ str_mul "⬛" (segments - filled).



Definition _pos_word (v : Z) : string :=
  if v <=? 25 then "Awful"
  else if v <=? 40 then "Poor"
  else if v <=? 60 then "Even"
  else if v <=? 80 then "Good"
  else "Dominant".

(** ** Which buttons a viewer gets *)

Inductive View : Type :=
| DuelLogView
| DuelMainView
| GrappleView
| ChokeView
| FinalizeView (victor_id target_id : Z).

Definition _make_view (s : DuelState) (viewer_id : Z) : View :=
  if negb (active s) then DuelLogView else
  match finisher s with
  | Some (victor_id, target_id) =>
      if viewer_id =? victor_id then FinalizeView victor_id target_id else DuelLogView
  | None =>
      match choking s with
      | Some (choker_id, _) =>
          if (user_id (fighter s (current s)) =? choker_id) && (viewer_id =? choker_id)
          then ChokeView else DuelLogView
      | None =>
          if grappling s then
            if viewer_id =? user_id (fighter s (current s)) then GrappleView else DuelLogView
          else DuelMainView
      end
  end.

(** ** The result line of the public banner *)

Definition _finish_summary (s : DuelState) : string :=
  match winner s with
  | None => "It ends in a draw."
  | Some w =>
      let win := fighter s w in
      let loser := fighter s (flip_side w) in
      let info := last_hit s !! user_id loser in
      let t := hit_type <$> info in
      let wpn := default "" (hit_weapon <$> info) in
      if bool_decide (t = Some "shot") then
        name win +:+ " shot " +:+ name loser
        +:+ (if String.eqb wpn "" then "" else " with " +:+ wpn) +:+ "."
      else if bool_decide (t = Some "grenade") then
        name win +:+ " blew up " +:+ name loser +:+ " with a grenade."
      else if bool_decide (t = Some "punch") then
        name win +:+ " Beat " +:+ name loser +:+ " to Death."
      else if bool_decide (t = Some "wrestle") then
        name win +:+ " beat " +:+ name loser +:+ " (wrestle)."
      else if bool_decide (t = Some "strangled") then
        name win +:+ " choked out " +:+ name loser +:+ "."
      else if bool_decide (t = Some "kidnap") then
        name win +:+ " kidnapped " +:+ name loser +:+ "."
      else if bool_decide (t = Some "mercy") then
        name win +:+ " spared " +:+ name loser +:+ "."
      else name win +:+ " defeated " +:+ name loser +:+ "."
  end.

(** ** Setting up a duel *)

(** The attributes of the duel object that the record [DuelState] leaves
    out and that the set-up writes, kept beside it. *)
Module Arena.

Record t : Type := mk {
  duel : DuelState;
  channel_id : Z;
  weather : string;
  map_time : option string;
  initiative_note : string;
  odds_phrase : string;
  public_msg_id : option Z
}.

Definition set_duel (v : DuelState) (ar : t) : t :=
  mk v (channel_id ar) (weather ar) (map_time ar) (initiative_note ar) (odds_phrase ar)
    (public_msg_id ar).

Definition set_map_time (v : option string) (ar : t) : t :=
  mk (duel ar) (channel_id ar) (weather ar) v (initiative_note ar) (odds_phrase ar)
    (public_msg_id ar).

Definition set_initiative_note (v : string) (ar : t) : t :=
  mk (duel ar) (channel_id ar) (weather ar) (map_time ar) v (odds_phrase ar)
    (public_msg_id ar).

Definition set_odds_phrase (v : string) (ar : t) : t :=
  mk (duel ar) (channel_id ar) (weather ar) (map_time ar) (initiative_note ar) v
    (public_msg_id ar).

Definition set_public_msg_id (v : option Z) (ar : t) : t :=
  mk (duel ar) (channel_id ar) (weather ar) (map_time ar) (initiative_note ar)
    (odds_phrase ar) v.

End Arena.

Definition set_cover_line (v : list (option string)) (s : DuelState) : DuelState :=
  mkDuel (guild_id s) (a s) (b s) (range_idx s) (vis_segments s) (pos s) (last_mover s)
    (turn_id s) (log_lines s) (full_log_lines s) (active s) (round_no s) (grappling s)
    (positioning s) (choking s) (breath s) (bloodflow s) (unconscious s) (clearing_stacks s)
    (clearing_expiries s) (turn_tick s) (hidden s) (in_cover s) (cover_pct s)
    (grenades_pending s) (skip_turn_for s) (last_hit s) (grapple_just_started s)
    (grapple_starter_id s) (grapple_flip s) (finisher s) v (trails s).

(** [random.choice(seq)] for a non-empty sequence [x0 :: rest]. *)
Definition random_choice {A : Type} (x0 : A) (rest : list A) : M A :=
  n ← next_raw;
  mret (default x0 ((x0 :: rest) !! N.to_nat (n mod N.of_nat (S (length rest))))).

Definition WEATHER_EMOJIS : list string := ["☀️"; "⛅"; "🌧️"; "🌩️"; "🌫️"; "❄️"; "🌪️"; "🌦️"].

(** [DuelState(guild_id=..., channel_id=..., a=..., b=...)]: the weather
    default draws once, then [__post_init__] runs. *)
Definition DuelState_new (guild channel : Z) (ca cb : Combatant) : M Arena.t :=
  w ← random_choice "☀️" ["⛅"; "🌧️"; "🌩️"; "🌫️"; "❄️"; "🌪️"; "🌦️"];
  mret (Arena.mk (DuelState_init guild ca cb) channel w None "" "" None).

Definition LOG_VISIBLE : Z := 6.

Definition _seed_combat_log (rows : Z) (fill_char : string) (s : DuelState) : DuelState :=
  match log_lines s with
  | [] =>
      let s := set_log_lines (log_lines s ++ replicate (Z.to_nat rows) fill_char) s in
      set_full_log_lines (full_log_lines s ++ replicate (Z.to_nat rows) fill_char) s
  | _ => s
  end.

(** The chance of fighter [a] to act first, computed in floats from left
    to right as the source writes it. *)
Definition initiative_share (P : Providers) (s : DuelState) : Q :=
  let sa := load_player_stats P (user_id (a s)) in
  let sb := load_player_stats P (user_id (b s)) in
  clamp (fadd (fadd (1 # 2) (fmul (b64 (2 # 100)) (fsub (combat sa) (combat sb))))
              (fmul (b64 (1 # 100)) (fsub (fitness sa) (fitness sb))))
        (b64 (10 # 100)) (b64 (90 # 100)).

Definition _decide_initiative (P : Providers) (ar : Arena.t) : M Arena.t :=
  let s := Arena.duel ar in
  let p_a := initiative_share P s in
  roll ← random_random;
  let first := if Qle_bool roll p_a then SideA else SideB in
  let s := set_turn_id (match first with SideA => 0 | SideB => 1 end) s in
  let pa := py_round (fmul p_a 100) in
  let pb := 100 - pa in
  let ar := Arena.set_initiative_note ("a" +:+ pretty pa +:+ "_[b" +:+ pretty pb +:+ "]") ar in
  let line := "Initiative: " +:+ name (a s) +:+ " " +:+ pretty pa +:+ "% vs " +:+ name (b s)
              +:+ " " +:+ pretty pb +:+ "% → **" +:+ name (fighter s first) +:+ "** starts." in
  let s := set_log_lines (log_lines s ++ [line]) s in
  let s := set_full_log_lines (full_log_lines s ++ [default "" (last (log_lines s))]) s in
  mret (Arena.set_duel s ar).

Definition COVER_DOOR : string := "🚪".
Definition COVER_BARRICADE : string := "🚧".
Definition COVER_BARREL : string := "🛢️".

(** The loop of [_init_battlefield] that sprinkles cover: [num] tries, a
    try is dropped when it lands on or next to a placed token. *)
Fixpoint sprinkle_cover (segs : Z) (num : nat) (cover : list (option string))
    (placed : gset Z) : M (list (option string)) :=
  match num with
  | O => mret cover
  | S num =>
      pos ← randint 0 (segs - 1);
      if bool_decide (set_Exists (λ p, Z.abs (pos - p) <= 1) placed) then
        sprinkle_cover segs num cover placed
      else
        token ← random_choice COVER_BARRICADE [COVER_BARRICADE; COVER_BARREL; COVER_DOOR];
        sprinkle_cover segs num (<[Z.to_nat pos := Some token]> cover) ({[pos]} ∪ placed)
  end.

(** The source draws positions with [random.randint(0, segs - 1)], which
    raises when [segs < 1]; statements about the battlefield assume a
    line of at least one cell. *)
Definition _init_battlefield (ar : Arena.t) : M Arena.t :=
  mt ← random_choice "Day" ["Night"];
  let ar := Arena.set_map_time (Some mt) ar in
  let s := Arena.duel ar in
  let segs := vis_segments s in
  num ← randint 5 8;
  cover ← sprinkle_cover segs (Z.to_nat num) (replicate (Z.to_nat segs) None) ∅;
  let s := set_cover_line cover s in
  let s := set_trails (<[user_id (b s) := ∅]> (<[user_id (a s) := ∅]> ∅)) s in
  let s := _update_cover_flags s in
  mret (Arena.set_duel s ar).

(** [_post_public_banner]; [msg_id] is the id that the chat gives to the
    banner message. *)
Definition _post_public_banner (P : Providers) (msg_id : Z) (ar : Arena.t) : Arena.t :=
  let s := Arena.duel ar in
  let p_a := banner_share P (a s) (b s) in
  let ar := Arena.set_odds_phrase (odds_phrase p_a (name (a s)) (name (b s))) ar in
  Arena.set_public_msg_id (Some msg_id) ar.

(** ** The per-channel registry and the [/duel] commands *)

Module Member.
Record t : Type := mk { id : Z; display_name : string }.
End Member.

(** [_DUEL_BY_CHANNEL], keyed by [(guild_id, channel_id)].  The registry
    holds the duel object itself, so what is written to the duel after it
    was registered is seen through the registry; the commands below
    register the object once they are done writing to it. *)
Definition Registry : Type := gmap (Z * Z) Arena.t.

Inductive StartReply : Type :=
| SelfDuel
| AlreadyActive
| Started.

Definition channel_busy (key : Z * Z) (reg : Registry) : bool :=
  match reg !! key with
  | Some ar => active (Arena.duel ar)
  | None => false
  end.

Definition duel_start (P : Providers) (key : Z * Z) (msg_id : Z) (me opponent : Member.t)
    (reg : Registry) : M (StartReply * Registry) :=
  if Member.id opponent =? Member.id me then mret (SelfDuel, reg) else
  if channel_busy key reg then mret (AlreadyActive, reg) else
  let ca := Combatant_init (Member.id me) (Member.display_name me) in
  let cb := Combatant_init (Member.id opponent) (Member.display_name opponent) in
  ar ← DuelState_new key.1 key.2 ca cb;
  let ar := Arena.set_duel (_seed_combat_log (LOG_VISIBLE - 1) "◐" (Arena.duel ar)) ar in
  ar ← _decide_initiative P ar;
  ar ← _init_battlefield ar;
  let ar := _post_public_banner P msg_id ar in
  mret (Started, <[key := ar]> reg).

(** The id given to the scripted opponent of user [me_id]. *)
Definition ai_user_id (me_id : Z) : Z := 10000000000 + me_id mod 1000000000.

Definition duel_ai (P : Providers) (key : Z * Z) (msg_id : Z) (me : Member.t)
    (reg : Registry) : M (StartReply * Registry) :=
  if channel_busy key reg then mret (AlreadyActive, reg) else
  let ca := Combatant_init (Member.id me) (Member.display_name me) in
  let cb := {| user_id := ai_user_id (Member.id me); name := "AI Defender"; hp := 100;
               is_ai := true |} in
  ar ← DuelState_new key.1 key.2 ca cb;
  let ar := Arena.set_duel (_seed_combat_log (LOG_VISIBLE - 1) "◐" (Arena.duel ar)) ar in
  ar ← _decide_initiative P ar;
  ar ← _init_battlefield ar;
  let ar := _post_public_banner P msg_id ar in
  let s := Arena.duel ar in
  s ← (if active s && is_ai (fighter s (current s)) then _maybe_ai_take_turn P s
       else mret s);
  mret (Started, <[key := Arena.set_duel s ar]> reg).

(** [duel_reset]: [None] when the channel has no duel. *)
Definition duel_reset (key : Z * Z) (reg : Registry) : M (option Arena.t * Registry) :=
  match reg !! key with
  | None => mret (None, reg)
  | Some ar =>
      let s := Arena.duel ar in
      let s := set_finisher None s in
      let s := set_active false s in
      s ← push "⛔ Duel reset." s;
      let ar := Arena.set_duel s ar in
      mret (Some ar, delete (guild_id s, Arena.channel_id ar) reg)
  end.

(** ** Auxiliary notions for the inventory *)

(** The slot that [equip_item] resolves for an item: the one asked for,
    else the item's own, else "primary". *)
Definition resolved_slot (slot : option string) (item : Inventory.Item) : string :=
  match slot with
  | Some sl => sl
  | None => default "primary" (Inventory.truthy (Inventory.item_slot item))
  end.

(** What the content [v] of one slot contributes to modifier [k]: the
    entry of the item that the id names, nothing for an empty slot or an
    id without item. *)
Definition slot_mod (inv : list Inventory.Item) (k : string) (v : option string) : Z :=
  match Inventory.truthy v ≫= Inventory.find_inst inv with
  | Some item => default 0 (default ∅ (Inventory.mods item) !! k)
  | None => 0
  end.

(** The sum of the contributions of all slots. *)
Definition mods_total (st : Inventory.Player) (k : string) : Z :=
  foldr (λ '(_, v) acc, slot_mod (Inventory.inventory st) k v + acc) 0
    (Inventory.equipment st).

(** No slot names an item that the inventory does not hold. *)
Definition well_equipped (st : Inventory.Player) : Prop :=
  ∀ slot iid, (slot, Some iid) ∈ Inventory.equipment st → iid ≠ "" →
    is_Some (Inventory.find_inst (Inventory.inventory st) iid).

(** The equipment is a dictionary: no slot occurs twice. *)
Definition slots_unique (st : Inventory.Player) : Prop :=
  NoDup (Inventory.equipment st).*1.

(** The weapon classes that can be picked at a gate. *)
Definition classes_at (rg : RangeGate) : list string :=
  match rg with
  | HANDS | CLOSE => ["melee"; "pistol"; "smg"; "shotgun"]
  | MID => ["pistol"; "rifle"]
  | FAR | VERYFAR => ["rifle"]
  end.

(** Providers whose combat kit is built from stored players. *)
Definition with_store (P : Providers) (load_player : Z → Z → Inventory.Player) : Providers :=
  {| _GET_STATS := _GET_STATS P;
     get_equipped_mods := get_equipped_mods P;
     get_equipped_ids := get_equipped_ids P;
     get_combatkit := Loadout.get_combatkit load_player;
     add_item_to_inventory := add_item_to_inventory P |}.

(** ** Auxiliary notions for the set-up of a duel *)

(** Every duel of the registry sits at the key made of its own guild and
    channel. *)
Definition registry_ok (reg : Registry) : Prop :=
  ∀ key ar, reg !! key = Some ar → (guild_id (Arena.duel ar), Arena.channel_id ar) = key.

(** The number of cells of a layout that hold a token. *)
Definition cover_count (cover : list (option string)) : nat :=
  length (filter is_Some cover).

(** A layout of [segs] cells whose tokens are cover tokens, no two of
    them on neighbouring cells, eight at most. *)
Definition battlefield_ok (segs : Z) (cover : list (option string)) : Prop :=
  Z.of_nat (length cover) = segs
  ∧ (∀ i tok, cover !! i = Some (Some tok) → tok ∈ COVER_SET)
  ∧ (∀ i, is_Some (mjoin (cover !! i)) → mjoin (cover !! S i) = None)
  ∧ (cover_count cover <= 8)%nat.


(** What a duel looks like when [/duel start] or [/duel ai] hands it
    over: the two fighters, the channel, a running duel at the MID gate
    outside grapple, choke and finisher, on a line of 26 cells, five filler lines and the
    initiative line in both logs, and a battlefield. *)
Definition fresh_duel (key : Z * Z) (ca cb : Combatant) (ar : Arena.t) : Prop :=
  let s := Arena.duel ar in
  a s = ca ∧ b s = cb ∧ guild_id s = key.1 ∧ Arena.channel_id ar = key.2
  ∧ active s = true ∧ round_no s = 1 ∧ turn_tick s = 0 ∧ rngate s = MID
  ∧ grappling s = false ∧ choking s = None ∧ finisher s = None
  ∧ unconscious s = ∅ ∧ grenades_pending s = ∅
  ∧ length (log_lines s) = 6%nat ∧ full_log_lines s = log_lines s
  ∧ take 5 (log_lines s) = replicate 5 "◐"
  ∧ pos s = <[user_id cb := 18]> (<[user_id ca := 6]> ∅)
  ∧ positioning s = <[user_id cb := 50]> (<[user_id ca := 50]> ∅)
  ∧ vis_segments s = 26 ∧ battlefield_ok 26 (cover_line s)
  ∧ is_Some (Arena.map_time ar).

(** What the loop of [_init_battlefield] keeps: the tokens sit on placed
    cells only. *)
Definition sprinkled (segs : Z) (k : nat) (cover : list (option string)) (placed : gset Z)
    : Prop :=
  Z.of_nat (length cover) = segs
  ∧ (∀ i tok, cover !! i = Some (Some tok) → tok ∈ COVER_SET ∧ Z.of_nat i ∈ placed)
  ∧ (∀ i, is_Some (mjoin (cover !! i)) → mjoin (cover !! S i) = None)
  ∧ (cover_count cover <= k)%nat.


(** ** The writes of the action layer

    Every handler of [src/duel_legacy.py] changes the duel through a
    short list of writes: damage floored at 0, a detonation, a log line,
    a meter set to a clamped value, a move on the line, and so on.
    [write P s s'] lists them; [writes P] is a sequence of writes.  An
    invariant of the duel is checked once against each write. *)
Inductive write (P : Providers) : DuelState → DuelState → Prop :=
| w_damage w d s :
    1 <= d → write P s (set_fighter_hp w (Z.max 0 (hp (fighter s w) - d)) s)
| w_detonate acted pend s :
    grenades_pending s !! user_id (fighter s acted) = Some pend →
    write P s (detonated P acted pend s)
| w_log line s : write P s (add_raw line s)
| w_last_hit target h s : write P s (set_last_hit (<[target := h]> (last_hit s)) s)
| w_arm target thrower dmg s :
    30 <= dmg <= 40 →
    write P s (set_grenades_pending
                 (<[target := {[ "from" := thrower; "damage" := dmg ]}]> (grenades_pending s))
                 s)
| w_disarm uid s :
    write P s (set_grenades_pending (delete uid (grenades_pending s)) s)
| w_micro_move actor steps s : write P s (micro_move actor steps s)
| w_begin_grapple starter s : write P s (begin_grapple starter s)
| w_flip s : write P s (flip_turn s)
| w_breath target v s :
    0 <= v <= 100 → write P s (set_breath (<[target := v]> (breath s)) s)
| w_breath_keep target s :
    write P s (set_breath (<[target := default 50 (breath s !! target)]> (breath s)) s)
| w_bloodflow target v s :
    0 <= v <= 100 → write P s (set_bloodflow (<[target := v]> (bloodflow s)) s)
| w_bloodflow_keep target s :
    write P s (set_bloodflow (<[target := default 50 (bloodflow s !! target)]> (bloodflow s))
                 s)
| w_faint target s : write P s (set_unconscious ({[target]} ∪ unconscious s) s)
| w_positioning uid v s :
    0 <= v <= 100 → write P s (set_positioning (<[uid := v]> (positioning s)) s)
| w_release s : write P s (set_grappling false s)
| w_end s : write P s (set_active false s)
| w_choking v s : write P s (set_choking v s)
| w_finisher v s : write P s (set_finisher v s)
| w_trails v s : write P s (set_trails v s)
| w_in_cover v s : write P s (set_in_cover v s)
| w_cover_pct v s : write P s (set_cover_pct v s)
| w_grapple_flip v s : write P s (set_grapple_flip v s)
| w_skip_turn_for v s : write P s (set_skip_turn_for v s)
| w_clearing_stacks v s : write P s (set_clearing_stacks v s)
| w_clearing_expiries v s : write P s (set_clearing_expiries v s).

Definition writes (P : Providers) : relation DuelState := rtc (write P).

(** *** Invariants of a running duel *)

(** Every pending grenade carries a damage that is not negative. *)
Definition sane_grenades (s : DuelState) : Prop :=
  ∀ uid pend, grenades_pending s !! uid = Some pend → 0 <= default 0 (pend !! "damage").

(** Hit points are not negative (and the grenades are sane, without
    which a detonation could add hit points). *)
Definition hp_sound (s : DuelState) : Prop :=
  0 <= hp (a s) ∧ 0 <= hp (b s) ∧ sane_grenades s.

(** Nobody has more hit points in [s'] than in [s]. *)
Definition hp_le (s s' : DuelState) : Prop :=
  hp (a s') <= hp (a s) ∧ hp (b s') <= hp (b s).

(** The three meter dictionaries hold values of 0..100 only. *)
Definition meters_sound (s : DuelState) : Prop :=
  (∀ uid v, positioning s !! uid = Some v → 0 <= v <= 100)
  ∧ (∀ uid v, breath s !! uid = Some v → 0 <= v <= 100)
  ∧ (∀ uid v, bloodflow s !! uid = Some v → 0 <= v <= 100).

(** The window of the HUD is the tail of the full log, six lines at
    most. *)
Definition log_sound (s : DuelState) : Prop :=
  log_lines s `suffix_of` full_log_lines s ∧ (length (log_lines s) <= 6)%nat.

(** The full log of [s'] continues that of [s]. *)
Definition log_grows (s s' : DuelState) : Prop :=
  full_log_lines s `prefix_of` full_log_lines s'.

(** The cast and the stage of [s'] are those of [s]. *)
Definition same_cast (s s' : DuelState) : Prop :=
  (∀ w, user_id (fighter s' w) = user_id (fighter s w)
        ∧ name (fighter s' w) = name (fighter s w)
        ∧ is_ai (fighter s' w) = is_ai (fighter s w))
  ∧ guild_id s' = guild_id s ∧ vis_segments s' = vis_segments s
  ∧ cover_line s' = cover_line s ∧ hidden s' = hidden s.

(** What only moves one way: nobody wakes up, an ended duel stays ended,
    the tick and the round count do not go back. *)
Definition only_forward (s s' : DuelState) : Prop :=
  unconscious s ⊆ unconscious s'
  ∧ (active s = false → active s' = false)
  ∧ turn_tick s <= turn_tick s'
  ∧ round_no s <= round_no s'.

(** The owner of the turn is fighter 0 or fighter 1. *)
Definition turn_ok (s : DuelState) : Prop := turn_id s = 0 ∨ turn_id s = 1.

(** Both fighters stand on the line, [a] to the left of [b]. *)
Definition lined_up (s : DuelState) : Prop :=
  ∃ pa pb, on_line s pa pb ∧ pa < pb.

(** The button [act] pressed by [u] is turned down by its guard. *)
Definition turned_down (act : Action) (u : Z) (s : DuelState) : Prop :=
  active s = false
  ∨ match act with
    | Mercy v _ | Beat v _ | Kidnap v _ => u ≠ v
    | Advance | Disengage | Attack | ThrowGrenade =>
        u ≠ user_id (fighter s (current s))
    | BeginGrapple =>
        u ≠ user_id (fighter s (current s)) ∨ can_grapple s = false
    | Wrestle | Punch | BreakFree | Choke =>
        u ≠ user_id (fighter s (current s)) ∨ grappling s = false ∨ is_Some (choking s)
    | Squeeze | LetGo =>
        u ≠ user_id (fighter s (current s))
        ∨ ∀ choker target, choking s = Some (choker, target) → choker ≠ u
    end.

(** The line that [_check_grapple_transition] logs when it releases a
    choke. *)
Definition RELEASE_MSG : string := "🫁 Choke is released as distance opens.".

(** Where [begin_grapple] places the two fighters: two cells apart around
    the middle of the line. *)
Definition grapple_pos (s : DuelState) : gmap Z Z :=
  let left := Z.max 0 ((vis_segments s - 2) / 2 - 1) in
  <[user_id (b s) := Z.min (vis_segments s - 1) (left + 2)]>
    (<[user_id (a s) := left]> (pos s)).

(** ** Sample data for the inventory and the registry *)

Module Stock.

Definition knife : Inventory.Item :=
  Inventory.mkItem "i1" "Knife" "weapon" "melee.knife" (Some 1%Q) (Some "secondary")
    (Some ["primary"; "secondary"]) (Some ["melee"]) (Some {[ "melee_dmg" := 2 ]}).

Definition rifle : Inventory.Item :=
  Inventory.mkItem "i2" "Rifle" "weapon" "gun.rifle" (Some 4%Q) (Some "primary")
    None (Some ["rifle"]) (Some {[ "ranged_dmg" := 3 ]}).

Definition medkit : Inventory.Item :=
  Inventory.mkItem "i3" "Medkit" "consumable" "med.kit" (Some (1 # 2)%Q) None None None None.

(** The rifle in the primary slot, the knife and the medkit stored. *)
Definition player : Inventory.Player :=
  Inventory.mkPlayer [knife; rifle; medkit]
    [("primary", Some "i2"); ("secondary", None); ("armor", None); ("accessory", None)]
    None None.

Definition rifle_profile : WeaponProfile :=
  {| CombatLoadout.name := "Rifle"; wclass := "rifle"; ranges := ["Near"; "Mid"; "Far"];
     base_damage := 7; base_accuracy := 75 |}.

(** The sample duel of guild 7 in channel 9, before its set-up. *)
Definition arena : Arena.t := Arena.mk Sample.duel 9 "☀️" None "" "" None.

Definition registry : Registry := {[ (7, 9) := arena ]}.

(** A stats provider that knows a fitness of 14.5 for user 1 and nothing
    else; no equipment. *)
Definition fit : Providers :=
  {| _GET_STATS := Some (λ uid, if uid =? 1 then {[ "fitness" := (145 # 10)%Q ]} else ∅);
     get_equipped_mods := λ _, ∅; get_equipped_ids := λ _, ∅;
     get_combatkit := get_combatkit Sample.bare;
     add_item_to_inventory := false |}.

(** Ann at 74 hit points, Bob at 42. *)
Definition ann74 : Combatant := set_hp 74 Sample.ann.
Definition bob42 : Combatant := set_hp 42 Sample.bob.

End Stock.

(** * Properties *)

(** Unfolds the field updates so that projections compute. *)
Ltac setters :=
  unfold set_a, set_b, set_range_idx, set_pos, set_last_mover, set_turn_id, set_log_lines,
    set_full_log_lines, set_active, set_round_no, set_grappling, set_positioning,
    set_choking, set_breath, set_bloodflow, set_unconscious, set_clearing_stacks,
    set_clearing_expiries, set_turn_tick, set_in_cover, set_cover_pct,
    set_grenades_pending, set_skip_turn_for, set_last_hit, set_grapple_just_started,
    set_grapple_starter_id, set_grapple_flip, set_finisher, set_trails, set_hp in *.

(** ** Clamping *)

Lemma iclamp_bounds (v lo hi : Z) : lo <= hi → lo <= iclamp v lo hi <= hi.
Proof. unfold iclamp. lia. Qed.




(** ** Armor mitigation *)

Section Armor.
Variables (state : DuelState) (defender_id : Z).

Lemma armor_factor_default (kind : string) :
  kind ∉ ["melee"; "small_ranged"; "large_ranged"; "ranged"; "grenade"; "none"] →
  _ARMOR_FACTORS !! kind = None.
Proof. intros Hk. unfold _ARMOR_FACTORS. by apply not_elem_of_list_to_map_1. Qed.

(** C5. [apply_armor_reduction] takes the factor of the damage kind from
    the table (melee 0.60, small_ranged 0.80, large_ranged 0.80, grenade
    0.50) and 0.70 for a kind the table does not know, rounds the float
    product [float(armor) * factor] (the factor being the binary64 number
    that the literal denotes), clamps the result between 0 and [damage - 1],
    and returns [(damage - mitigation, mitigation)].  Mitigation is never
    negative, and a hit of at least 1 still applies at least 1. *)
Theorem apply_armor_reduction_spec (dfn : Stats) (dmg : Z) (kind : string) :
  (_ARMOR_FACTORS !! "melee" = Some (60 # 100)%Q
   ∧ _ARMOR_FACTORS !! "small_ranged" = Some (80 # 100)%Q
   ∧ _ARMOR_FACTORS !! "large_ranged" = Some (80 # 100)%Q
   ∧ _ARMOR_FACTORS !! "grenade" = Some (50 # 100)%Q)
  ∧ (kind ∉ ["melee"; "small_ranged"; "large_ranged"; "ranged"; "grenade"; "none"] →
     default (70 # 100)%Q (_ARMOR_FACTORS !! kind) = (70 # 100)%Q)
  ∧ (let factor := b64 (default (70 # 100)%Q (_ARMOR_FACTORS !! kind)) in
     let mit := iclamp (py_round (b64 (b64 (armor dfn) * factor))) 0 (Z.max 0 (dmg - 1)) in
     apply_armor_reduction state defender_id dfn dmg kind = (dmg - mit, mit)
     ∧ 0 <= mit
     ∧ (1 <= dmg → 0 <= mit <= dmg - 1 ∧ 1 <= dmg - mit)).
Proof.
  split; [by vm_compute|]. split.
  - intros Hk. by rewrite armor_factor_default.
  - cbn zeta. split; [reflexivity|]. unfold iclamp. lia.
Qed.
End Armor.

(** ** Outcome *)

(** C10. [winner] looks at hit points first: a fighter at 0 hit points
    facing one above 0 loses, whatever the unconscious set holds;
    unconsciousness decides only when neither hit-point case applies.
    [is_draw] holds exactly when each fighter is at 0 hit points or
    unconscious. *)
Theorem winner_hp_before_unconscious (s : DuelState) :
  (hp (a s) <= 0 → 0 < hp (b s) → winner s = Some SideB)
  ∧ (hp (b s) <= 0 → 0 < hp (a s) → winner s = Some SideA)
  ∧ (¬ (hp (a s) <= 0 ∧ 0 < hp (b s)) → ¬ (hp (b s) <= 0 ∧ 0 < hp (a s)) →
     (user_id (a s) ∈ unconscious s → user_id (b s) ∉ unconscious s →
      winner s = Some SideB)
     ∧ (user_id (a s) ∈ unconscious s ↔ user_id (b s) ∈ unconscious s →
        winner s = None)
     ∧ (user_id (b s) ∈ unconscious s → user_id (a s) ∉ unconscious s →
        winner s = Some SideA))
  ∧ (is_draw s = true ↔
     (hp (a s) <= 0 ∨ user_id (a s) ∈ unconscious s)
     ∧ (hp (b s) <= 0 ∨ user_id (b s) ∈ unconscious s)).
Proof.
  split_and!.
  1-3: unfold winner; intros;
    repeat match goal with
    | |- _ ∧ _ => split; intros
    | |- context [bool_decide ?Q] => destruct (bool_decide_reflect Q)
    | |- context [?x <=? ?y] => destruct (Z.leb_spec x y)
    | |- context [?x <? ?y] => destruct (Z.ltb_spec x y)
    end; simpl in *; try done; try lia; try tauto.
  unfold is_draw.
  rewrite andb_true_iff, !orb_true_iff, !bool_decide_eq_true, !Z.leb_le. done.
Qed.

(** ** Clearing-stack expiry *)

Section Expiry.

Lemma filter_all {A} (Q : A → Prop) `{∀ x, Decision (Q x)} (l : list A) :
  Forall Q l → filter Q l = l.
Proof.
  induction 1 as [|x l Hx _ IH]; [done|].
  by rewrite filter_cons_True, IH.
Qed.

Lemma Forall_filter_self {A} (Q : A → Prop) `{∀ x, Decision (Q x)} (l : list A) :
  Forall Q (filter Q l).
Proof. apply Forall_forall. intros x Hx. by apply list_elem_of_filter in Hx as [? _]. Qed.

Lemma expire_uid_tick s uid : turn_tick (expire_uid s uid) = turn_tick s.
Proof.
  unfold expire_uid. repeat case_match; reflexivity.
Qed.

Lemma expire_uid_fighters s uid :
  a (expire_uid s uid) = a s ∧ b (expire_uid s uid) = b s.
Proof. unfold expire_uid. repeat case_match; by split. Qed.

(** A pass over an already settled fighter changes nothing. *)
Lemma expire_uid_settled s uid : settled s uid → expire_uid s uid = s.
Proof.
  unfold settled, expiries_of, expire_uid. intros Hs.
  destruct (clearing_expiries s !! uid) as [[|t l]|] eqn:E; simpl in *; try done.
  rewrite (filter_all _ _ Hs), Z.sub_diag. simpl.
  destruct s; setters; simpl in *. f_equal. by apply insert_id.
Qed.

Lemma expire_uid_expiries_eq s uid :
  expiries_of (expire_uid s uid) uid = filter (λ t, turn_tick s < t) (expiries_of s uid).
Proof.
  unfold expiries_of, expire_uid.
  destruct (clearing_expiries s !! uid) as [[|t l]|] eqn:E; simpl; try by rewrite E.
  destruct (filter _ (t :: l)) as [|k kept] eqn:F.
  - case_match; case_match; simpl; by rewrite lookup_delete_eq.
  - case_match; simpl; by rewrite lookup_insert_eq.
Qed.

Lemma expire_uid_expiries_ne s uid u :
  u ≠ uid → expiries_of (expire_uid s uid) u = expiries_of s u.
Proof.
  intros Hne. unfold expiries_of, expire_uid.
  destruct (default [] (clearing_expiries s !! uid)) as [|t l]; [done|].
  destruct (filter _ (t :: l)) as [|k kept].
  - case_match; case_match; simpl; by rewrite lookup_delete_ne.
  - case_match; simpl; by rewrite lookup_insert_ne.
Qed.

Lemma expire_uid_stacks_ne s uid u :
  u ≠ uid → stacks_of (expire_uid s uid) u = stacks_of s u.
Proof.
  intros Hne. unfold stacks_of, expire_uid.
  destruct (default [] (clearing_expiries s !! uid)) as [|t l]; [done|].
  repeat case_match; setters; simpl;
    rewrite ?lookup_delete_ne, ?lookup_insert_ne by done; done.
Qed.

Lemma expire_uid_makes_settled s uid : settled (expire_uid s uid) uid.
Proof.
  unfold settled. rewrite expire_uid_tick, expire_uid_expiries_eq.
  apply Forall_filter_self.
Qed.

Lemma expire_uid_keeps_settled s uid u : settled s u → settled (expire_uid s uid) u.
Proof.
  intros Hs. destruct (decide (u = uid)) as [->|Hne].
  - apply expire_uid_makes_settled.
  - unfold settled. by rewrite expire_uid_tick, expire_uid_expiries_ne.
Qed.

Lemma length_filter_due (tick : Z) (l : list Z) :
  (length (filter (λ t, (tick < t)%Z) l) + length (filter (λ t, (t <= tick)%Z) l) = length l)%nat.
Proof.
  induction l as [|x l IH]; [done|].
  rewrite !filter_cons. repeat case_decide; simpl; lia.
Qed.

(** What one iteration does to the stack count of its fighter: it goes
    down by the number of entries that are due, not below 0. *)
Lemma expire_uid_stacks s uid :
  let removed := Z.of_nat (length (filter (λ t, t <= turn_tick s) (expiries_of s uid))) in
  stacks_of (expire_uid s uid) uid =
  if 0 <? removed then Z.max 0 (stacks_of s uid - removed) else stacks_of s uid.
Proof.
  cbn zeta. unfold stacks_of, expiries_of, expire_uid.
  set (exps := default [] (clearing_expiries s !! uid)).
  pose proof (length_filter_due (turn_tick s) exps) as Hlen.
  destruct exps as [|t l] eqn:E; [done|]. rewrite <- E in *. clear E.
  set (kept := filter (λ t, turn_tick s < t) exps) in *.
  set (gone := filter (λ t, t <= turn_tick s) exps) in *.
  replace (Z.of_nat (length exps) - Z.of_nat (length kept)) with (Z.of_nat (length gone))
    by (rewrite <- Hlen; lia).
  destruct (0 <? Z.of_nat (length gone)) eqn:Hg; destruct kept as [|k kept']; setters; simpl;
    rewrite ?lookup_insert_eq; simpl; try done.
  - destruct (Z.max 0 _ =? 0) eqn:Hz; simpl.
    + rewrite lookup_delete_eq. simpl. lia.
    + by rewrite lookup_insert_eq.
  - destruct (default 0 (clearing_stacks s !! uid) =? 0) eqn:Hz; simpl; [|done].
    rewrite lookup_delete_eq. simpl. lia.
Qed.

Lemma expire_uid_once s uid : expired_once s (expire_uid s uid) uid.
Proof. split; [apply expire_uid_expiries_eq|apply expire_uid_stacks]. Qed.

Lemma expire_clearing_once_a s : expired_once s (_expire_clearing s) (user_id (a s)).
Proof.
  unfold _expire_clearing. simpl.
  destruct (decide (user_id (b s) = user_id (a s))) as [->|Hne].
  - rewrite expire_uid_settled by apply expire_uid_makes_settled. apply expire_uid_once.
  - destruct (expire_uid_once s (user_id (a s))) as [He Hs]. split.
    + rewrite expire_uid_expiries_ne by done. exact He.
    + rewrite expire_uid_stacks_ne by done. exact Hs.
Qed.

Lemma expire_clearing_once_b s : expired_once s (_expire_clearing s) (user_id (b s)).
Proof.
  unfold _expire_clearing. simpl.
  destruct (decide (user_id (b s) = user_id (a s))) as [->|Hne].
  - rewrite expire_uid_settled by apply expire_uid_makes_settled. apply expire_uid_once.
  - destruct (expire_uid_once (expire_uid s (user_id (a s))) (user_id (b s))) as [He Hs].
    unfold expired_once, due in *. rewrite expire_uid_tick in He, Hs.
    rewrite (expire_uid_expiries_ne s (user_id (a s)) (user_id (b s))) in He, Hs by done.
    rewrite (expire_uid_stacks_ne s (user_id (a s)) (user_id (b s))) in Hs by done.
    by split.
Qed.

(** C9. A second expiry pass at the same tick changes nothing: the
    entries that the first pass removed are gone from the lists, what is
    left is not yet due, so two passes in a row equal one, and each
    fighter's stack count has gone down exactly once by the number of due
    entries.  Expiry compares each recorded tick with the current tick and
    does not count calls. *)
Theorem expire_clearing_idempotent (s : DuelState) :
  _expire_clearing (_expire_clearing s) = _expire_clearing s
  ∧ turn_tick (_expire_clearing s) = turn_tick s
  ∧ settled (_expire_clearing s) (user_id (a s))
  ∧ settled (_expire_clearing s) (user_id (b s))
  ∧ expired_once s (_expire_clearing s) (user_id (a s))
  ∧ expired_once s (_expire_clearing s) (user_id (b s))
  ∧ expired_once s (_expire_clearing (_expire_clearing s)) (user_id (a s))
  ∧ expired_once s (_expire_clearing (_expire_clearing s)) (user_id (b s)).
Proof.
  assert (Hfa : a (_expire_clearing s) = a s ∧ b (_expire_clearing s) = b s).
  { unfold _expire_clearing. simpl.
    destruct (expire_uid_fighters s (user_id (a s))) as [Ha Hb].
    destruct (expire_uid_fighters (expire_uid s (user_id (a s))) (user_id (b s)))
      as [Ha' Hb']. split; congruence. }
  assert (Hsa : settled (_expire_clearing s) (user_id (a s))).
  { unfold _expire_clearing. simpl.
    apply expire_uid_keeps_settled, expire_uid_makes_settled. }
  assert (Hsb : settled (_expire_clearing s) (user_id (b s))).
  { unfold _expire_clearing. simpl. apply expire_uid_makes_settled. }
  assert (Hid : _expire_clearing (_expire_clearing s) = _expire_clearing s).
  { unfold _expire_clearing at 1. simpl. destruct Hfa as [-> ->].
    by rewrite (expire_uid_settled _ _ Hsa), (expire_uid_settled _ _ Hsb). }
  rewrite Hid. split_and!; try done.
  - unfold _expire_clearing. simpl. by rewrite !expire_uid_tick.
  - apply expire_clearing_once_a.
  - apply expire_clearing_once_b.
  - apply expire_clearing_once_a.
  - apply expire_clearing_once_b.
Qed.

End Expiry.

(** ** Random draws *)

(** Unfolds the monad so that a computation becomes a plain function of
    the globals. *)
Ltac run := unfold mbind, M_bind, mret, M_ret in *.

Lemma next_raw_pop g : ∃ n, next_raw g = (n, pop g).
Proof.
  unfold next_raw, pop. destruct g as [i [|n r]]; simpl; eauto.
Qed.

Lemma randint_spec lo hi g :
  lo <= hi → ∃ d, lo <= d <= hi ∧ randint lo hi g = (d, pop g).
Proof.
  intros Hle. unfold randint. run. destruct (next_raw_pop g) as [n ->].
  exists (lo + Z.of_N n mod (hi - lo + 1)). split; [|done].
  pose proof (Z.mod_pos_bound (Z.of_N n) (hi - lo + 1)). lia.
Qed.

Lemma random_random_spec g :
  ∃ r, (0 <= r)%Q ∧ (r < 1)%Q ∧ random_random g = (r, pop g).
Proof.
  unfold random_random. run. destruct (next_raw_pop g) as [n ->].
  eexists. split_and!; [| |done].
  - unfold Qle. simpl. pose proof (Z.mod_pos_bound (Z.of_N n) (2 ^ 53)). lia.
  - unfold Qlt. simpl. pose proof (Z.mod_pos_bound (Z.of_N n) (2 ^ 53)). lia.
Qed.

Lemma push_spec line s g :
  ∃ fx, push line s g = (add_raw (fx +:+ " " +:+ line) s,
                         mkGlobals ((_SPIN_IDX g + 1) mod 4) (rng g)).
Proof. unfold push, next_fx_frame. run. simpl. eauto. Qed.

(** ** The end of a turn *)

Section EndTurn.

Lemma lxor_1_1 (t : Z) : Z.lxor (Z.lxor t 1) 1 = t.
Proof. by rewrite Z.lxor_assoc, Z.lxor_nilpotent, Z.lxor_0_r. Qed.

Lemma expire_uid_same_schedule s uid : same_schedule s (expire_uid s uid).
Proof. unfold same_schedule, expire_uid. repeat case_match; done. Qed.

Lemma same_schedule_trans s1 s2 s3 :
  same_schedule s1 s2 → same_schedule s2 s3 → same_schedule s1 s3.
Proof. unfold same_schedule. intros. destruct_and!. split_and!; congruence. Qed.

Lemma expire_clearing_same_schedule s : same_schedule s (_expire_clearing s).
Proof.
  unfold _expire_clearing. simpl.
  eapply same_schedule_trans; apply expire_uid_same_schedule.
Qed.

Lemma apply_choke_tick_same_schedule s g :
  same_schedule s (_apply_choke_tick s g).1.
Proof.
  unfold _apply_choke_tick, same_schedule.
  destruct (choking s) as [[choker target]|] eqn:E; [|done].
  run. destruct (randint_spec 6 10 g) as (d1 & _ & ->); [lia|].
  destruct (randint_spec 3 7 (pop g)) as (d2 & _ & ->); [lia|].
  case_match; split_and!; done.
Qed.


Lemma flip_turn_fields s :
  turn_id (flip_turn s) = Z.lxor (turn_id s) 1
  ∧ round_no (flip_turn s) = round_no s + (if Z.lxor (turn_id s) 1 =? 0 then 1 else 0)
  ∧ turn_tick (flip_turn s) = turn_tick s + 1.
Proof. unfold flip_turn. simpl. case_match; split_and!; simpl; lia. Qed.

Lemma turn_advance_phase s :
  range_idx (turn_advance s) = range_idx s ∧ grappling (turn_advance s) = grappling s
  ∧ choking (turn_advance s) = choking s.
Proof. unfold turn_advance, flip_turn. cbn zeta. repeat case_match; done. Qed.

Lemma end_turn_unfold s g :
  end_turn s g =
  (let '(s2, g2) := _apply_choke_tick (turn_advance s) g in (_expire_clearing s2, g2)).
Proof. reflexivity. Qed.

Lemma turn_advance_fields s :
  let t1 := Z.lxor (turn_id s) 1 in
  let cur := if t1 =? 0 then a s else b s in
  let skip := staggered s in
  let s1 := turn_advance s in
  turn_id s1 = (if skip then turn_id s else t1)
  ∧ round_no s1 = round_no s + (if t1 =? 0 then 1 else 0)
                  + (if skip && (turn_id s =? 0) then 1 else 0)
  ∧ turn_tick s1 = turn_tick s + (if skip then 2 else 1)
  ∧ grapple_flip s1 = (if grappling s then Z.lxor (grapple_flip s) 1 else grapple_flip s)
  ∧ skip_turn_for s1 = (if skip then skip_turn_for s ∖ {[user_id cur]}
                        else skip_turn_for s)
  ∧ full_log_lines s1 =
      (if skip then full_log_lines s
                    ++ ["😵 " +:+ name cur +:+ " is staggered and loses a turn."]
       else full_log_lines s)
  ∧ choking s1 = choking s ∧ breath s1 = breath s ∧ bloodflow s1 = bloodflow s
  ∧ clearing_stacks s1 = clearing_stacks s
  ∧ clearing_expiries s1 = clearing_expiries s
  ∧ hp (a s1) = hp (a s) ∧ hp (b s1) = hp (b s).
Proof.
  intros t1 cur skip. unfold turn_advance. cbn zeta.
  set (s0 := flip_turn s).
  set (s1 := if grappling s0 then _ else s0).
  destruct (flip_turn_fields s) as (Ht & Hr & Hk).
  assert (Hs1 : turn_id s1 = t1 ∧ round_no s1 = round_no s0 ∧ turn_tick s1 = turn_tick s0
                ∧ a s1 = a s ∧ b s1 = b s ∧ skip_turn_for s1 = skip_turn_for s
                ∧ grapple_flip s1 =
                    (if grappling s then Z.lxor (grapple_flip s) 1 else grapple_flip s)
                ∧ full_log_lines s1 = full_log_lines s ∧ choking s1 = choking s
                ∧ breath s1 = breath s ∧ bloodflow s1 = bloodflow s
                ∧ clearing_stacks s1 = clearing_stacks s
                ∧ clearing_expiries s1 = clearing_expiries s).
  { subst s1 s0. unfold flip_turn. simpl.
    repeat case_match; split_and!; try done. all: simpl in *; congruence. }
  destruct Hs1 as (H1 & H2 & H3 & H4 & H5 & H6 & H7 & H8 & H9 & H10 & H11 & H12 & H13).
  assert (Hcur : fighter s1 (current s1) = cur).
  { unfold fighter, current, cur. rewrite H1, H4, H5. by destruct (t1 =? 0). }
  assert (Hskip : bool_decide (user_id (fighter s1 (current s1)) ∈ skip_turn_for s1) = skip).
  { by rewrite Hcur, H6. }
  rewrite Hskip, Hcur. subst t1. destruct skip.
  - unfold flip_turn, add_raw; simpl. rewrite H1, lxor_1_1.
    destruct (turn_id s =? 0) eqn:E0; simpl.
    all: split_and!; try done; try lia.
    all: rewrite ?H2, ?H3, ?H4, ?H5, ?H7, ?H8; try lia; try done.
    all: subst s0; rewrite ?H6, ?Hr, ?Hk; try lia; try done.
  - rewrite andb_false_l.
    split_and!; rewrite ?H2, ?H3, ?H4, ?H5; subst s0; rewrite ?Hr, ?Hk; try done; try lia.
Qed.

Lemma end_turn_ticks_same_schedule s g :
  same_schedule (turn_advance s) (end_turn s g).1.
Proof.
  rewrite end_turn_unfold.
  destruct (_apply_choke_tick (turn_advance s) g) as [s2 g2] eqn:E. simpl.
  eapply same_schedule_trans; [|apply expire_clearing_same_schedule].
  replace s2 with (_apply_choke_tick (turn_advance s) g).1 by (by rewrite E).
  apply apply_choke_tick_same_schedule.
Qed.

(** Hit points are not a matter of [end_turn]. *)
Lemma end_turn_hp s g :
  hp (a (end_turn s g).1) = hp (a s) ∧ hp (b (end_turn s g).1) = hp (b s).
Proof.
  destruct (end_turn_ticks_same_schedule s g) as (_ & _ & _ & _ & _ & Ha & Hb & _).
  pose proof (turn_advance_fields s) as Hf. cbn zeta in Hf.
  destruct Hf as (_ & _ & _ & _ & _ & _ & _ & _ & _ & _ & _ & Hpa & Hpb).
  rewrite Ha, Hb. by split.
Qed.

End EndTurn.

(** ** Choke decay *)

Section Choke.

Lemma apply_choke_tick_outcome s g choker target :
  choking s = Some (choker, target) →
  ∃ d1 d2, 6 <= d1 <= 10 ∧ 3 <= d2 <= 7
           ∧ choke_outcome s choker target d1 d2 (_apply_choke_tick s g).1.
Proof.
  intros Hc. unfold _apply_choke_tick. rewrite Hc. run.
  destruct (randint_spec 6 10 g) as (d1 & Hd1 & ->); [lia|].
  destruct (randint_spec 3 7 (pop g)) as (d2 & Hd2 & ->); [lia|].
  exists d1, d2. split; [done|]. split; [done|].
  unfold choke_outcome. cbn zeta.
  change (breath (set_bloodflow ?m ?s)) with (breath s).
  change (breath (set_breath ?m ?s)) with m.
  change (bloodflow (set_bloodflow ?m ?s)) with m.
  change (bloodflow (set_breath ?m ?s)) with (bloodflow s).
  rewrite !lookup_insert_eq. simpl.
  case_match; simpl;
    split_and!; rewrite ?lookup_insert_eq; try done; apply iclamp_bounds; lia.
Qed.

Lemma squeeze_outcome s g choker target line :
  ∃ d1 d2, 8 <= d1 <= 12 ∧ 4 <= d2 <= 8
           ∧ choke_outcome s choker target d1 d2 (squeeze choker target line s g).1.
Proof.
  unfold squeeze. run.
  destruct (randint_spec 8 12 g) as (d1 & Hd1 & ->); [lia|].
  destruct (randint_spec 4 8 (pop g)) as (d2 & Hd2 & ->); [lia|].
  exists d1, d2. split; [done|]. split; [done|].
  match goal with |- context [push ?l ?x ?y] => destruct (push_spec l x y) as (fx & ->) end.
  unfold choke_outcome. cbn zeta.
  change (breath (add_raw ?l ?s)) with (breath s).
  change (bloodflow (add_raw ?l ?s)) with (bloodflow s).
  change (breath (set_bloodflow ?m ?s)) with (breath s).
  change (breath (set_breath ?m ?s)) with m.
  change (bloodflow (set_bloodflow ?m ?s)) with m.
  change (bloodflow (set_breath ?m ?s)) with (bloodflow s).
  rewrite !lookup_insert_eq. simpl.
  case_match; simpl; repeat case_match; simpl; unfold record_hit; simpl;
    split_and!; rewrite ?lookup_insert_eq; try done; apply iclamp_bounds; lia.
Qed.

(** C6. An active squeeze lowers the target's breath by a draw of 8..12
    and the bloodflow by a draw of 4..8; the ambient tick of [end_turn]
    uses 6..10 and 3..7.  Both meters stay within 0..100.  When a meter
    reaches 0 the target joins the unconscious set and the hit is
    recorded as "strangled"; hit points do not change, neither by the
    decay nor by the [end_turn] that follows the button.  With breath 5
    and bloodflow 50 an active squeeze always knocks the target out. *)
Theorem choke_tick_spec (s : DuelState) (g : Globals) (choker target : Z) (line : string) :
  choking s = Some (choker, target) →
  (∀ P u, choke_is_my_turn u s = true →
     btn_squeeze P u s g =
       (s1 ← squeeze choker target
               ("🫀 " +:+ name (fighter s (current s)) +:+ " **tightens the choke**.") s;
        s2 ← end_turn s1;
        s3 ← _maybe_ai_take_turn P s2;
        _end_and_update s3) g)
  ∧ (∃ d1 d2, 8 <= d1 <= 12 ∧ 4 <= d2 <= 8
              ∧ choke_outcome s choker target d1 d2 (squeeze choker target line s g).1)
  ∧ (∃ d1 d2, 6 <= d1 <= 10 ∧ 3 <= d2 <= 7
              ∧ choke_outcome s choker target d1 d2 (_apply_choke_tick s g).1)
  ∧ (∀ s1 g1, hp (a (end_turn s1 g1).1) = hp (a s1) ∧ hp (b (end_turn s1 g1).1) = hp (b s1))
  ∧ (breath s !! target = Some 5 → bloodflow s !! target = Some 50 →
     let s' := (squeeze choker target line s g).1 in
     target ∈ unconscious s' ∧ hp (a s') = hp (a s) ∧ hp (b s') = hp (b s)
     ∧ last_hit s' !! target = Some (mkHit choker "strangled" "")).
Proof.
  intros Hc. split.
  { intros P u Hturn. unfold btn_squeeze. by rewrite Hturn, Hc. }
  split; [apply squeeze_outcome|]. split; [by apply apply_choke_tick_outcome|].
  split; [apply end_turn_hp|].
  intros Hbr Hbl s'.
  destruct (squeeze_outcome s g choker target line) as (d1 & d2 & Hd1 & Hd2 & Ho).
  fold s' in Ho. unfold choke_outcome in Ho. cbn zeta in Ho.
  rewrite Hbr, Hbl in Ho. simpl in Ho.
  destruct Ho as (_ & _ & _ & _ & Ha & Hb & Hu).
  assert (Hz : iclamp (5 - d1) 0 100 = 0) by (unfold iclamp; lia).
  rewrite Hz in Hu.
  simpl in Hu. destruct Hu as [Hu Hl]. rewrite Hu.
  split; [apply elem_of_union_l, elem_of_singleton; reflexivity|]. by split_and!.
Qed.
End Choke.

(** ** Fine movement *)

Section MicroMove.

Lemma check_grapple_transition_frame prev now actor s :
  let s' := _check_grapple_transition prev now actor s in
  pos s' = pos s ∧ range_idx s' = range_idx s ∧ a s' = a s ∧ b s' = b s
  ∧ vis_segments s' = vis_segments s.
Proof. unfold _check_grapple_transition. cbn zeta. repeat case_match; done. Qed.


Lemma micro_move_fighters actor steps s :
  a (micro_move actor steps s) = a s ∧ b (micro_move actor steps s) = b s
  ∧ vis_segments (micro_move actor steps s) = vis_segments s.
Proof.
  unfold micro_move. cbn zeta. repeat case_match; try done.
  all: match goal with
       | |- context [_check_grapple_transition ?p ?n ?x ?y] =>
           destruct (check_grapple_transition_frame p n x y) as (_ & _ & -> & -> & ->)
       end; done.
Qed.


End MicroMove.

(** ** Grapple and choke release on a range change *)

Section Release.

Lemma check_grapple_transition_released prev now actor s0 s :
  (is_Some (choking s0) → is_Some (choking s)) →
  now ≠ HANDS → released s0 (_check_grapple_transition prev now actor s).
Proof.
  intros Hc Hnow. unfold _check_grapple_transition, released. cbn zeta.
  rewrite (bool_decide_eq_false_2 _ Hnow). simpl negb. rewrite andb_true_r.
  destruct (grappling s) eqn:Hg; cbn; rewrite ?Hg; cbn;
    destruct (choking s) as [[c t]|] eqn:Hch; cbn;
    (split; [done|]; try done; intros H; apply Hc in H; by destruct H).
Qed.

Lemma check_grapple_transition_range prev now actor s :
  range_idx (_check_grapple_transition prev now actor s) = range_idx s.
Proof. by destruct (check_grapple_transition_frame prev now actor s) as (_ & -> & _). Qed.

Lemma rngate_range_idx s s' : range_idx s' = range_idx s → rngate s' = rngate s.
Proof. unfold rngate. by intros ->. Qed.

Lemma sync_visual_positions_phase mover s :
  let s' := _sync_visual_positions mover s in
  range_idx s' = range_idx s ∧ grappling s' = grappling s ∧ choking s' = choking s.
Proof. unfold _sync_visual_positions. cbn zeta. repeat case_match; done. Qed.

Lemma step_range_released delta actor s :
  rngate (step_range delta actor s) ≠ HANDS → released s (step_range delta actor s).
Proof.
  unfold step_range. cbn zeta. intros Hr.
  rewrite (rngate_range_idx _ _ (check_grapple_transition_range _ _ _ _)) in Hr.
  apply check_grapple_transition_released; [|done].
  by destruct (sync_visual_positions_phase actor
                 (set_last_mover actor
                    (set_range_idx (iclamp (range_idx s + delta) 0 LAST_GATE) s)))
    as (_ & _ & ->).
Qed.

Lemma micro_move_released actor steps s :
  coherent s →
  rngate (micro_move actor steps s) ≠ HANDS → released s (micro_move actor steps s).
Proof.
  intros (_ & Hg & Hc). unfold micro_move. cbn zeta.
  destruct (grappling s) eqn:Eg.
  - intros Hr. by destruct Hr; auto.
  - destruct (negb (bool_decide _)) eqn:Ep.
    + intros _. split; [done|]. intros H. apply Hc in H. congruence.
    + intros Hr.
      rewrite (rngate_range_idx _ _ (check_grapple_transition_range _ _ _ _)) in Hr.
      by apply check_grapple_transition_released.
Qed.

(** The release property on a coherent state; [step_range] needs no
    assumption at all. *)
Lemma range_change_releases_coherent (s : DuelState) :
  (∀ delta actor,
     rngate (step_range delta actor s) ≠ HANDS → released s (step_range delta actor s))
  ∧ (coherent s →
     ∀ actor steps,
       rngate (micro_move actor steps s) ≠ HANDS → released s (micro_move actor steps s)).
Proof.
  split.
  - intros delta actor. apply step_range_released.
  - intros Hco actor steps. by apply micro_move_released.
Qed.
End Release.

(** ** The phase invariant *)

Section Invariant.

Lemma ensures_ret {A} (x : A) (Q : A → Prop) : Q x → ensures (mret x) Q.
Proof. by intros H g. Qed.

Lemma ensures_bind {A B} (m : M A) (k : A → M B) (R : A → Prop) (Q : B → Prop) :
  ensures m R → (∀ x, R x → ensures (k x) Q) → ensures (m ≫= k) Q.
Proof.
  intros Hm Hk g. unfold mbind, M_bind. specialize (Hm g).
  destruct (m g) as [x g']. by apply Hk.
Qed.

Lemma ensures_weaken {A} (m : M A) (R Q : A → Prop) :
  ensures m R → (∀ x, R x → Q x) → ensures m Q.
Proof. intros Hm HQ g. apply HQ, Hm. Qed.

Lemma ensures_randint lo hi : lo <= hi → ensures (randint lo hi) (λ d, lo <= d <= hi).
Proof. intros H g. by destruct (randint_spec lo hi g H) as (d & Hd & ->). Qed.

Lemma ensures_any {A} (m : M A) : ensures m (λ _, True).
Proof. by intros g. Qed.

Lemma ensures_push line s :
  ensures (push line s) (λ s', ∃ fx, s' = add_raw (fx +:+ " " +:+ line) s).
Proof. intros g. destruct (push_spec line s g) as (fx & ->). eauto. Qed.

Lemma same_phase_refl s : same_phase s s.
Proof. done. Qed.

Lemma same_phase_trans s1 s2 s3 : same_phase s1 s2 → same_phase s2 s3 → same_phase s1 s3.
Proof. unfold same_phase. intros. destruct_and!. split_and!; congruence. Qed.

Lemma coherent_same_phase s s' : same_phase s s' → coherent s → coherent s'.
Proof.
  unfold same_phase, coherent, valid_gate, rngate. intros (Hr & Hg & Hc) (Hv & H1 & H2).
  rewrite Hr, Hg, Hc. done.
Qed.

Lemma coherent_init guild ca cb : coherent (DuelState_init guild ca cb).
Proof. split_and!; try done. by intros [? ?]. Qed.

(** The transition check alone establishes the phase part of the
    invariant when it is given the gate of the state it runs on. *)
Lemma coherent_check_grapple_transition prev actor s :
  valid_gate s → coherent (_check_grapple_transition prev (rngate s) actor s).
Proof.
  intros Hv. unfold coherent, valid_gate.
  rewrite (rngate_range_idx _ _ (check_grapple_transition_range _ _ _ _)).
  rewrite check_grapple_transition_range. split; [exact Hv|].
  unfold _check_grapple_transition. cbn zeta.
  destruct (grappling s) eqn:Hg; destruct (decide (rngate s = HANDS)) as [Hh|Hh];
    rewrite ?(bool_decide_eq_true_2 _ Hh), ?(bool_decide_eq_false_2 _ Hh); cbn; rewrite ?Hg; cbn;
    destruct (choking s) as [[c t]|] eqn:Hch; cbn; rewrite ?Hg, ?Hch;
    (split; [done|]); try done; by intros [? ?].
Qed.

Lemma coherent_step_range delta actor s : coherent (step_range delta actor s).
Proof.
  unfold step_range. cbn zeta.
  apply coherent_check_grapple_transition. unfold valid_gate.
  destruct (sync_visual_positions_phase actor
              (set_last_mover actor
                 (set_range_idx (iclamp (range_idx s + delta) 0 LAST_GATE) s))) as (-> & _).
  apply iclamp_bounds. done.
Qed.

Lemma coherent_micro_move actor steps s : coherent s → coherent (micro_move actor steps s).
Proof.
  intros Hco. unfold micro_move. cbn zeta.
  destruct (grappling s); [done|]. destruct (negb _); [done|].
  apply coherent_check_grapple_transition. apply iclamp_bounds. done.
Qed.

Lemma coherent_begin_grapple starter s : coherent s → coherent (begin_grapple starter s).
Proof.
  intros Hco. pose proof Hco as (Hv & H1 & H2). unfold begin_grapple, can_grapple.
  destruct (grappling s) eqn:Hg; simpl; [done|].
  case_bool_decide as Hh; simpl; [|done].
  split; [exact Hv|]. split; [intros _; exact Hh|done].
Qed.

Lemma end_turn_same_phase s : ensures (end_turn s) (same_phase s).
Proof.
  intros g. pose proof (end_turn_ticks_same_schedule s g) as Hs.
  destruct (turn_advance_phase s) as (Hr & Hg & Hc).
  unfold same_schedule in Hs. unfold same_phase. destruct_and!.
  split_and!; congruence.
Qed.
End Invariant.

(** ** Pending grenades *)

Section Grenade.
Context (P : Providers).

Lemma same_stage_refl s : same_stage s s.
Proof. unfold same_stage. split_and!; done. Qed.

Lemma set_fighter_hp_stage w v s : same_stage s (set_fighter_hp w v s).
Proof. unfold same_stage. destruct w; split_and!; try done; intros []; done. Qed.

Lemma add_raw_stage l s : same_stage s (add_raw l s).
Proof. unfold same_stage. split_and!; done. Qed.

(** No pending entry for the actor: nothing happens, no log line. *)
Lemma resolve_pending_grenade_none acted s g :
  grenades_pending s !! user_id (fighter s acted) = None →
  _resolve_pending_grenade P acted s g = (s, g).
Proof. unfold _resolve_pending_grenade. by intros ->. Qed.

(** A pending entry: the grenade goes off on the actor. *)
Lemma resolve_pending_grenade_some acted s g pend :
  grenades_pending s !! user_id (fighter s acted) = Some pend → pend ≠ ∅ →
  ∃ line,
    _resolve_pending_grenade P acted s g =
    (let s1 := add_raw line (detonated P acted pend s) in
     set_grenades_pending (delete (user_id (fighter s acted)) (grenades_pending s1)) s1,
     mkGlobals ((_SPIN_IDX g + 1) mod 4) (rng g)).
Proof.
  intros Hp Hne. unfold _resolve_pending_grenade, detonated. rewrite Hp.
  rewrite bool_decide_eq_false_2 by done. cbn zeta.
  destruct (apply_armor_reduction _ _ _ _ _) as [final mit]. run.
  match goal with |- context [push ?l ?x ?y] => destruct (push_spec l x y) as (fx & ->) end.
  eexists. reflexivity.
Qed.

Lemma resolve_pending_grenade_stage acted s :
  ensures (_resolve_pending_grenade P acted s) (same_stage s).
Proof.
  intros g. unfold _resolve_pending_grenade.
  destruct (grenades_pending s !! _) as [pend|]; [|apply same_stage_refl].
  case_bool_decide; [apply same_stage_refl|]. cbn zeta.
  destruct (apply_armor_reduction _ _ _ _ _) as [final mit]. run.
  match goal with |- context [push ?l ?x ?y] => destruct (push_spec l x y) as (fx & ->) end.
  simpl. unfold same_stage. destruct acted; split_and!; try done; intros []; done.
Qed.
End Grenade.

(** ** Unarmed attacks *)

Section Unarmed.
Context (P : Providers).



End Unarmed.

(** ** No usable weapon: the player's turn and the scripted opponent's *)

Section NoWeapon.
Context (P : Providers).













End NoWeapon.

(** ** Every state of a running duel is coherent *)

Section Reach.
Context (P : Providers).

(** [s'] is [s] up to fields that the invariant does not read. *)
Ltac coh_pure :=
  match goal with
  | H : coherent ?s |- coherent ?s' =>
      apply (coherent_same_phase s s'); [unfold same_phase; split_and!; reflexivity|exact H]
  end.

Lemma coherent_set_fighter_hp w v s : coherent s → coherent (set_fighter_hp w v s).
Proof. intros H. destruct w; coh_pure. Qed.

Lemma coherent_push line s : coherent s → ensures (push line s) coherent.
Proof. intros H g. destruct (push_spec line s g) as (fx & ->). simpl. coh_pure. Qed.

Lemma coherent_resolve_pending_grenade w s :
  coherent s → ensures (_resolve_pending_grenade P w s) coherent.
Proof.
  intros H g. pose proof (resolve_pending_grenade_stage P w s g) as Hst.
  apply (coherent_same_phase s); [|done].
  destruct Hst as (_ & Hri & _ & _ & _ & _ & Hgr & Hch & _). by split_and!.
Qed.

Lemma coherent_end_turn s : coherent s → ensures (end_turn s) coherent.
Proof. intros H g. eapply coherent_same_phase; [apply end_turn_same_phase|done]. Qed.

Lemma coherent_update_cover_flags s : coherent s → coherent (_update_cover_flags s).
Proof.
  intros H. apply (coherent_same_phase s); [|done].
  unfold _update_cover_flags, update_cover_flag, same_phase. simpl.
  repeat case_match; split_and!; reflexivity.
Qed.

Lemma coherent_mark_trail uid s : coherent s → coherent (_mark_trail uid s).
Proof. intros H. unfold _mark_trail. coh_pure. Qed.

Lemma coherent_free s :
  valid_gate s → grappling s = false → choking s = None → coherent s.
Proof. intros Hv Hg Hc. split; [exact Hv|]. split; [congruence|]. rewrite Hc. by intros [? ?]. Qed.

Lemma coherent_let_go s : coherent s → coherent (set_choking None s).
Proof. intros (Hv & H1 & H2). split; [exact Hv|]. split; [exact H1|]. by intros [? ?]. Qed.

Lemma coherent_broken s : coherent s → coherent (set_choking None (set_grappling false s)).
Proof. intros (Hv & _). by apply coherent_free. Qed.

(** Runs through a monadic body, keeping [coherent] along the way. *)
Ltac coh_side :=
  lazymatch goal with
  | H : coherent ?s |- coherent ?s => exact H
  | |- coherent (set_fighter_hp _ _ _) => apply coherent_set_fighter_hp; coh_side
  | |- coherent (_update_cover_flags _) => apply coherent_update_cover_flags; coh_side
  | |- coherent (_mark_trail _ _) => apply coherent_mark_trail; coh_side
  | |- coherent (micro_move _ _ _) => apply coherent_micro_move; coh_side
  | |- coherent (set_choking None (set_grappling false _)) =>
      apply coherent_broken; coh_side
  | |- coherent (set_choking None _) => apply coherent_let_go; coh_side
  | |- coherent (record_hit _ _ _ _ ?s) =>
      apply (coherent_same_phase s); [done|coh_side]
  | |- coherent (add_raw _ ?s) => apply (coherent_same_phase s); [done|coh_side]
  | |- coherent (?f _ ?s) => apply (coherent_same_phase s); [done|coh_side]
  end.

Ltac coh_step :=
  match goal with
  | |- ensures (mret _) _ => apply ensures_ret; coh_side
  | |- ensures (mbind _ (push _ _)) _ =>
      eapply ensures_bind; [apply coherent_push; coh_side|intros ? ?]
  | |- ensures (mbind _ (end_turn _)) _ =>
      eapply ensures_bind; [apply coherent_end_turn; coh_side|intros ? ?]
  | |- ensures (mbind _ (_resolve_pending_grenade _ _ _)) _ =>
      eapply ensures_bind; [apply coherent_resolve_pending_grenade; coh_side|intros ? ?]
  | |- ensures (mbind _ (randint _ _)) _ =>
      eapply ensures_bind; [apply ensures_any|intros ? _]
  | |- ensures (mbind _ random_random) _ =>
      eapply ensures_bind; [apply ensures_any|intros ? _]
  | |- ensures (mbind _ (random_choice3 _ _ _)) _ =>
      eapply ensures_bind; [apply ensures_any|intros ? _]
  | |- ensures (push _ _) _ => apply coherent_push; coh_side
  | |- ensures (end_turn _) _ => apply coherent_end_turn; coh_side
  | |- ensures (if ?c then _ else _) _ => destruct c eqn:?
  | |- ensures (match ?x with _ => _ end) _ => destruct x eqn:?
  | |- ensures (let '(_, _) := ?x in _) _ => destruct x eqn:?
  | |- ensures (mbind _ _) _ => eapply (ensures_bind _ _ coherent); [|intros ? ?]
  end.

Lemma coherent_attack_once att def s :
  coherent s → ensures (_attack_once P att def s) coherent.
Proof. intros H. unfold _attack_once. cbn zeta. repeat coh_step. Qed.

Lemma coherent_squeeze choker target line s :
  coherent s → ensures (squeeze choker target line s) coherent.
Proof. intros H. unfold squeeze. cbn zeta. repeat coh_step. Qed.

Lemma coherent_wrestle me foe bot s : coherent s → ensures (wrestle me foe bot s) coherent.
Proof.
  intros H. unfold wrestle. cbn zeta. do 2 coh_step.
  match goal with |- context [Qle_bool ?x ?y] => destruct (Qle_bool x y) end;
    repeat coh_step.
Qed.

Lemma coherent_punch me foe bot s : coherent s → ensures (punch me foe bot s) coherent.
Proof. intros H. unfold punch. cbn zeta. repeat coh_step. Qed.

Lemma coherent_break_free me foe bot s :
  coherent s → ensures (break_free me foe bot s) coherent.
Proof. intros H. unfold break_free. cbn zeta. repeat coh_step. Qed.

Lemma coherent_ai_advance ai s : coherent s → ensures (ai_advance ai s) coherent.
Proof. intros H. unfold ai_advance. cbn zeta. repeat coh_step. Qed.

Lemma coherent_ai_fire ai foe weapon accuracy damage s :
  coherent s → ensures (ai_fire P ai foe weapon accuracy damage s) coherent.
Proof. intros H. unfold ai_fire. cbn zeta. repeat coh_step. Qed.

Lemma coherent_maybe_offer_finisher s : coherent s → coherent (_maybe_offer_finisher s).2.
Proof.
  intros H. unfold _maybe_offer_finisher. repeat case_match; simpl; coh_pure.
Qed.

Lemma coherent_end_if_finished_or_offer s :
  coherent s → ensures (_end_if_finished_or_offer s) coherent.
Proof.
  intros H. unfold _end_if_finished_or_offer.
  pose proof (coherent_maybe_offer_finisher s H) as H'.
  destruct (_maybe_offer_finisher s) as [offered s']. simpl in H'.
  repeat coh_step.
Qed.

Lemma coherent_end_and_update s : coherent s → ensures (_end_and_update s) coherent.
Proof. apply coherent_end_if_finished_or_offer. Qed.

Lemma coherent_maybe_ai_take_turn s :
  coherent s → ensures (_maybe_ai_take_turn P s) coherent.
Proof.
  intros H. unfold _maybe_ai_take_turn.
  destruct (negb (active s) || negb (is_ai (fighter s (current s)))); [by apply ensures_ret|].
  pose proof (coherent_maybe_offer_finisher s H) as H'.
  destruct (_maybe_offer_finisher s) as [offered s']. simpl in H'.
  destruct offered; [by apply ensures_ret|].
  coh_step. cbn zeta.
  destruct (choking x) as [[choker target]|].
  - destruct (_ =? choker).
    + eapply ensures_bind; [by apply coherent_squeeze|]. intros ? ?. repeat coh_step.
    + repeat coh_step.
  - destruct (grappling x).
    + coh_step.
      eapply (ensures_bind _ _ coherent); [|intros ? ?; repeat coh_step].
      repeat case_match;
        [by apply coherent_wrestle|by apply coherent_punch|by apply coherent_break_free].
    + eapply (ensures_bind _ _ coherent); [|intros ? ?; repeat coh_step].
      repeat case_match; by (apply coherent_ai_advance || apply coherent_ai_fire).
Qed.

Ltac coh_flow :=
  match goal with
  | |- ensures (mbind _ (_maybe_ai_take_turn _ _)) _ =>
      eapply ensures_bind; [apply coherent_maybe_ai_take_turn; coh_side|intros ? ?]
  | |- ensures (mbind _ (_attack_once _ _ _ _)) _ =>
      eapply ensures_bind; [apply coherent_attack_once; coh_side|intros ? ?]
  | |- ensures (mbind _ (wrestle _ _ _ _)) _ =>
      eapply ensures_bind; [apply coherent_wrestle; coh_side|intros ? ?]
  | |- ensures (mbind _ (punch _ _ _ _)) _ =>
      eapply ensures_bind; [apply coherent_punch; coh_side|intros ? ?]
  | |- ensures (mbind _ (break_free _ _ _ _)) _ =>
      eapply ensures_bind; [apply coherent_break_free; coh_side|intros ? ?]
  | |- ensures (mbind _ (squeeze _ _ _ _)) _ =>
      eapply ensures_bind; [apply coherent_squeeze; coh_side|intros ? ?]
  | |- ensures (_end_and_update _) _ => apply coherent_end_and_update; coh_side
  | _ => coh_step
  end.

Lemma coherent_btn_advance u s : coherent s → ensures (btn_advance P u s) coherent.
Proof. intros H. unfold btn_advance. cbn zeta. repeat coh_flow. Qed.

Lemma coherent_btn_disengage u s : coherent s → ensures (btn_disengage P u s) coherent.
Proof. intros H. unfold btn_disengage. cbn zeta. repeat coh_flow. Qed.

Lemma coherent_btn_attack u s : coherent s → ensures (btn_attack P u s) coherent.
Proof. intros H. unfold btn_attack. cbn zeta. repeat coh_flow. Qed.

Lemma coherent_btn_grenade u s : coherent s → ensures (btn_grenade P u s) coherent.
Proof. intros H. unfold btn_grenade. cbn zeta. repeat coh_flow. Qed.

Lemma coherent_btn_grapple u s : coherent s → ensures (btn_grapple u s) coherent.
Proof.
  intros H. unfold btn_grapple. repeat case_match; apply ensures_ret; try done.
  by apply coherent_begin_grapple.
Qed.

Lemma coherent_btn_wrestle u s : coherent s → ensures (btn_wrestle P u s) coherent.
Proof. intros H. unfold btn_wrestle. cbn zeta. repeat coh_flow. Qed.

Lemma coherent_btn_punch u s : coherent s → ensures (btn_punch P u s) coherent.
Proof. intros H. unfold btn_punch. cbn zeta. repeat coh_flow. Qed.

Lemma coherent_btn_breakfree u s : coherent s → ensures (btn_breakfree P u s) coherent.
Proof. intros H. unfold btn_breakfree. cbn zeta. repeat coh_flow. Qed.

(** A choke is secured only from inside a grapple. *)
Lemma coherent_btn_choke u s : coherent s → ensures (btn_choke P u s) coherent.
Proof.
  intros H. unfold btn_choke, grapple_is_my_turn.
  destruct (grappling s) eqn:Hg; cbn [negb andb orb];
    rewrite ?andb_false_r; cbn [negb]; [|by apply ensures_ret].
  destruct (negb _); [by apply ensures_ret|]. cbn zeta.
  coh_step. eapply (ensures_bind _ _ coherent); [|intros ? ?; repeat coh_flow].
  destruct (Qle_bool _ _); [|repeat coh_step].
  apply coherent_push. destruct H as (Hv & H1 & H2).
  split; [exact Hv|]. split; [exact H1|]. intros _. exact Hg.
Qed.

Lemma coherent_btn_squeeze u s : coherent s → ensures (btn_squeeze P u s) coherent.
Proof. intros H. unfold btn_squeeze. cbn zeta. repeat coh_flow. Qed.

Lemma coherent_btn_letgo u s : coherent s → ensures (btn_letgo P u s) coherent.
Proof. intros H. unfold btn_letgo. cbn zeta. repeat coh_flow. Qed.

Lemma coherent_btn_mercy u v t s : coherent s → ensures (btn_mercy u v t s) coherent.
Proof. intros H. unfold btn_mercy. cbn zeta. repeat coh_flow. Qed.

Lemma coherent_btn_beat u v t s : coherent s → ensures (btn_beat u v t s) coherent.
Proof. intros H. unfold btn_beat. cbn zeta. repeat coh_flow. Qed.

Lemma coherent_btn_kidnap u v t s : coherent s → ensures (btn_kidnap P u v t s) coherent.
Proof. intros H. unfold btn_kidnap. cbn zeta. repeat coh_flow. Qed.

Lemma coherent_press act u s : coherent s → ensures (press P act u s) coherent.
Proof.
  intros H. destruct act; cbv beta iota delta [press].
  - by apply coherent_btn_advance.
  - by apply coherent_btn_disengage.
  - by apply coherent_btn_attack.
  - by apply coherent_btn_grenade.
  - by apply coherent_btn_grapple.
  - by apply coherent_btn_wrestle.
  - by apply coherent_btn_punch.
  - by apply coherent_btn_breakfree.
  - by apply coherent_btn_choke.
  - by apply coherent_btn_squeeze.
  - by apply coherent_btn_letgo.
  - by apply coherent_btn_mercy.
  - by apply coherent_btn_beat.
  - by apply coherent_btn_kidnap.
Qed.

(** The invariant holds along every run of the duel. *)
Lemma reachable_coherent s : reachable P s → coherent s.
Proof.
  induction 1 as [s Hv Hg Hc|s act u g _ IH|s delta actor _ IH|s actor steps _ IH
                 |s starter _ IH|s g _ IH].
  - by apply coherent_free.
  - by apply coherent_press.
  - apply coherent_step_range.
  - by apply coherent_micro_move.
  - by apply coherent_begin_grapple.
  - by apply coherent_end_turn.
Qed.

(** C3. In a running duel, after [step_range] or [micro_move], if the
    gate is not HANDS then the duel is not grappling, and a choke that
    was active before the call is cleared by it ([choking] is [None],
    both meter maps are empty), whoever the actor is. *)
Theorem range_change_releases (s : DuelState) :
  reachable P s →
  (∀ delta actor,
     rngate (step_range delta actor s) ≠ HANDS → released s (step_range delta actor s))
  ∧ (∀ actor steps,
       rngate (micro_move actor steps s) ≠ HANDS → released s (micro_move actor steps s)).
Proof.
  intros Hr. apply reachable_coherent in Hr.
  destruct (range_change_releases_coherent s) as [H1 H2]. split; [exact H1|by apply H2].
Qed.
End Reach.

(** * Concrete runs *)

Section Runs.
Import Sample.

(** C1 (the code falls short of the claim).  Ann has a grenade pending
    (damage 35, armor 10).  When she attacks, advances or disengages it
    goes off first: 30 damage, entry removed.  When she throws a grenade
    of her own, or grabs, wrestles, punches, breaks free, chokes,
    squeezes or lets go, her hit points stay at 100 and the entry stays
    pending after the action. *)
Theorem pending_grenade_left_pending :
  let resolved (r : DuelState * Globals) :=
    hp (a r.1) = 70 ∧ pending_damage r.1 1 = None in
  let skipped (r : DuelState * Globals) :=
    hp (a r.1) = 100 ∧ pending_damage r.1 1 = Some 35 in
  (pending_damage duel_grenade 1 = Some 35
   ∧ armor (load_player_stats armored 1) = 10%Q
   ∧ main_is_my_turn 1 duel_grenade = true
   ∧ grapple_is_my_turn 1 grapple_grenade = true
   ∧ choke_is_my_turn 1 choke_grenade = true)
  ∧ (resolved (btn_attack armored 1 duel_grenade g_lucky)
     ∧ resolved (btn_advance armored 1 duel_grenade g_lucky)
     ∧ resolved (btn_disengage armored 1 duel_grenade g_lucky))
  ∧ (skipped (btn_grenade armored 1 duel_grenade g_lucky)
     ∧ skipped (btn_grapple 1 (set_range_idx 0 duel_grenade) g_lucky)
     ∧ skipped (btn_wrestle armored 1 grapple_grenade g_lucky)
     ∧ skipped (btn_punch armored 1 grapple_grenade g_lucky)
     ∧ skipped (btn_breakfree armored 1 grapple_grenade g_lucky)
     ∧ skipped (btn_choke armored 1 grapple_grenade g_lucky)
     ∧ skipped (btn_squeeze armored 1 choke_grenade g_lucky)
     ∧ skipped (btn_letgo armored 1 choke_grenade g_lucky)).
Proof. vm_compute. repeat split. Qed.



(** C3 at work: a choke reached by two button presses is released by a
    coarse step off HANDS; a fine step at MID leaves the duel ungrappled. *)
Lemma range_change_releases_witness :
  reachable bare choke_reached
  ∧ is_Some (choking choke_reached)
  ∧ rngate (step_range 1 None choke_reached) ≠ HANDS
  ∧ released choke_reached (step_range 1 None choke_reached)
  ∧ rngate (micro_move 1 (-1) duel) ≠ HANDS
  ∧ released duel (micro_move 1 (-1) duel).
Proof.
  assert (Hr : reachable bare choke_reached).
  { unfold choke_reached. do 2 apply reach_press. by apply reach_start. }
  assert (Hd : reachable bare duel) by (by apply reach_start).
  assert (H1 : rngate (step_range 1 None choke_reached) ≠ HANDS) by (vm_compute; discriminate).
  assert (H2 : rngate (micro_move 1 (-1) duel) ≠ HANDS) by (vm_compute; discriminate).
  split; [exact Hr|]. split; [by vm_compute; eexists|]. split; [exact H1|].
  split; [exact (proj1 (range_change_releases bare choke_reached Hr) 1 None H1)|].
  split; [exact H2|].
  exact (proj2 (range_change_releases bare duel Hd) 1 (-1) H2).
Defined.


(** C5 at work: a grenade of 35 against armor 10 applies 30; an unknown
    kind gets the factor 0.70.  Armor 45 against a hit of 100 of an
    unknown kind mitigates 31, not 32: the float product of 45 and 0.70 is
    31.499999999999996, just below the exact 31.5 that would round to the
    even 32; likewise armor 85 gives 59 where the exact 59.5 would round
    to 60. *)
Lemma apply_armor_reduction_spec_witness :
  1 <= 35
  ∧ apply_armor_reduction duel 1 stats10 35 "grenade" = (30, 5)
  ∧ (let mit := (apply_armor_reduction duel 1 stats10 35 "grenade").2 in
     0 <= mit <= 35 - 1 ∧ 1 <= 35 - mit)
  ∧ ("laser" ∉ ["melee"; "small_ranged"; "large_ranged"; "ranged"; "grenade"; "none"])
  ∧ default (70 # 100)%Q (_ARMOR_FACTORS !! "laser") = (70 # 100)%Q
  ∧ apply_armor_reduction duel 1 stats45 100 "laser" = (69, 31)
  ∧ py_round (b64 (b64 45 * b64 (70 # 100))) = 31
  ∧ py_round (45 * (70 # 100)) = 32
  ∧ py_round (b64 (b64 85 * b64 (70 # 100))) = 59
  ∧ py_round (85 * (70 # 100)) = 60.
Proof.
  assert (Hk : "laser" ∉ ["melee"; "small_ranged"; "large_ranged"; "ranged"; "grenade";
                           "none"]) by (intros H; apply (bool_decide_pack _) in H; exact H).
  assert (H35 : 1 <= 35) by lia.
  destruct (apply_armor_reduction_spec duel 1 stats10 35 "grenade") as (_ & _ & He & _ & Hd).
  destruct (apply_armor_reduction_spec duel 1 stats10 35 "laser") as (_ & Hf & _).
  destruct (apply_armor_reduction_spec duel 1 stats45 100 "laser") as (_ & _ & He' & _).
  split; [exact H35|]. split; [exact He|]. split; [exact (Hd H35)|].
  split; [exact Hk|]. split; [exact (Hf Hk)|].
  split; [exact He'|]. repeat split; vm_compute; reflexivity.
Defined.

(** C6 at work: breath 5, bloodflow 50, one squeeze. *)
Lemma choke_tick_spec_witness :
  choking duel_choke = Some (1, 2)
  ∧ choke_is_my_turn 1 duel_choke = true
  ∧ btn_squeeze bare 1 duel_choke g_lucky =
      (s1 ← squeeze 1 2 "🫀 Ann **tightens the choke**." duel_choke;
       s2 ← end_turn s1;
       s3 ← _maybe_ai_take_turn bare s2;
       _end_and_update s3) g_lucky
  ∧ breath duel_choke !! 2 = Some 5 ∧ bloodflow duel_choke !! 2 = Some 50
  ∧ (let s' := (squeeze 1 2 "🫀 Ann **tightens the choke**." duel_choke g_lucky).1 in
     2 ∈ unconscious s' ∧ hp (a s') = hp (a duel_choke) ∧ hp (b s') = hp (b duel_choke)
     ∧ last_hit s' !! 2 = Some (mkHit 1 "strangled" "")).
Proof.
  pose proof (choke_tick_spec duel_choke g_lucky 1 2 "🫀 Ann **tightens the choke**." eq_refl)
    as (Hbtn & _ & _ & _ & Hko).
  split; [reflexivity|]. split; [reflexivity|].
  split; [exact (Hbtn bare 1 eq_refl)|].
  split; [reflexivity|]. split; [reflexivity|].
  exact (Hko eq_refl eq_refl).
Defined.

(** C10 at work: hit points decide against an unconscious survivor;
    unconsciousness decides when both have hit points left. *)
Lemma winner_hp_before_unconscious_witness :
  (hp (a duel_down) <= 0 ∧ 0 < hp (b duel_down)
   ∧ user_id (b duel_down) ∈ unconscious duel_down
   ∧ winner duel_down = Some SideB)
  ∧ (hp (b duel_down_b) <= 0 ∧ 0 < hp (a duel_down_b)
     ∧ user_id (a duel_down_b) ∈ unconscious duel_down_b
     ∧ winner duel_down_b = Some SideA)
  ∧ (0 < hp (a duel_ko) ∧ 0 < hp (b duel_ko)
     ∧ user_id (b duel_ko) ∈ unconscious duel_ko
     ∧ (user_id (a duel_ko) ∉ unconscious duel_ko)
     ∧ winner duel_ko = Some SideA).
Proof.
  assert (H1 : hp (a duel_down) <= 0) by (vm_compute; discriminate).
  assert (H2 : 0 < hp (b duel_down)) by reflexivity.
  assert (H3 : hp (b duel_down_b) <= 0) by (vm_compute; discriminate).
  assert (H4 : 0 < hp (a duel_down_b)) by reflexivity.
  assert (H5 : 0 < hp (a duel_ko)) by reflexivity.
  assert (H6 : 0 < hp (b duel_ko)) by reflexivity.
  assert (H7 : user_id (b duel_ko) ∈ unconscious duel_ko)
    by (apply (bool_decide_unpack _); exact I).
  assert (H8 : user_id (a duel_ko) ∉ unconscious duel_ko)
    by (intros H; apply (bool_decide_pack _) in H; exact H).
  split; [|split].
  - split; [exact H1|]. split; [exact H2|].
    split; [apply (bool_decide_unpack _); exact I|].
    exact (proj1 (winner_hp_before_unconscious duel_down) H1 H2).
  - split; [exact H3|]. split; [exact H4|].
    split; [apply (bool_decide_unpack _); exact I|].
    exact (proj1 (proj2 (winner_hp_before_unconscious duel_down_b)) H3 H4).
  - split; [exact H5|]. split; [exact H6|]. split; [exact H7|]. split; [exact H8|].
    refine (proj2 (proj2 (proj1 (proj2 (proj2 (winner_hp_before_unconscious duel_ko)))
                            _ _)) H7 H8); lia.
Defined.

End Runs.

(** * Further properties *)

(** ** Rounding *)

Section Rounding.

(** [py_round q] is the integer nearest to [q], the even one at a tie. *)
Lemma py_round_nearest (q : Q) :
  let k := py_round q in
  let n := Qnum q in
  let d := Z.pos (Qden q) in
  d * (2 * k - 1) <= 2 * n <= d * (2 * k + 1)
  ∧ (2 * n = d * (2 * k - 1) → Z.even k = true)
  ∧ (2 * n = d * (2 * k + 1) → Z.even k = true).
Proof.
  cbv zeta. unfold py_round. cbv zeta.
  set (n := Qnum q). set (d := Z.pos (Qden q)).
  assert (Hd : 0 < d) by (unfold d; lia).
  pose proof (Z.div_mod n d ltac:(lia)) as Hdm.
  pose proof (Z.mod_pos_bound n d Hd) as Hr.
  destruct (Z.compare_spec (2 * (n mod d)) d) as [He|Hl|Hg].
  - destruct (Z.even (n / d)) eqn:Hev.
    + split; [nia|]. split; [intros; exact Hev|intros; exact Hev].
    + assert (Z.even (n / d + 1) = true)
        by (rewrite Z.even_add, Hev; reflexivity).
      split; [nia|]. split; intros; assumption.
  - split; [nia|]. split; intros; exfalso; nia.
  - split; [nia|]. split; intros; exfalso; nia.
Qed.

Lemma py_round_mono (q1 q2 : Q) : (q1 <= q2)%Q → py_round q1 <= py_round q2.
Proof.
  intros Hle. unfold Qle in Hle.
  destruct (py_round_nearest q1) as ((H1l & H1u) & H1a & H1b).
  destruct (py_round_nearest q2) as ((H2l & H2u) & H2a & H2b).
  cbv zeta in *.
  set (k1 := py_round q1) in *. set (k2 := py_round q2) in *.
  set (n1 := Qnum q1) in *. set (n2 := Qnum q2) in *.
  set (d1 := Z.pos (Qden q1)) in *. set (d2 := Z.pos (Qden q2)) in *.
  assert (Hd1 : 0 < d1) by (unfold d1; lia).
  assert (Hd2 : 0 < d2) by (unfold d2; lia).
  destruct (Z_le_gt_dec k1 k2) as [|Hgt]; [assumption|exfalso].
  assert (Hk : d1 * d2 * (2 * k1 - 1) <= d1 * d2 * (2 * k2 + 1)) by nia.
  assert (Hk' : k1 = k2 + 1) by nia.
  assert (E1 : 2 * n1 = d1 * (2 * k1 - 1)) by nia.
  assert (E2 : 2 * n2 = d2 * (2 * k2 + 1)) by nia.
  specialize (H1a E1). specialize (H2b E2).
  rewrite Hk', Z.even_add, H2b in H1a. discriminate.
Qed.

Lemma py_round_proper (q1 q2 : Q) : (q1 == q2)%Q → py_round q1 = py_round q2.
Proof.
  intros He. apply Z.le_antisymm; apply py_round_mono; rewrite He; apply Qle_refl.
Qed.





End Rounding.

(** ** Binary64 rounding *)

Section Binary64.
Local Open Scope Q_scope.




Lemma pow2_pos (e : Z) : 0 < pow2 e.
Proof. apply Qpower_0_lt. reflexivity. Qed.


Lemma pow2_le (a b : Z) : (a <= b)%Z → pow2 a <= pow2 b.
Proof. intros H. apply Qpower_le_compat_l; [exact H|discriminate]. Qed.

Lemma pow2_lt (a b : Z) : (a < b)%Z → pow2 a < pow2 b.
Proof. intros H. apply Qpower_lt_compat_l; [exact H|reflexivity]. Qed.

Lemma pow2_Z (e : Z) : (0 <= e)%Z → pow2 e == inject_Z (2 ^ e).
Proof. intros H. symmetry. exact (Zpower_Qpower 2 e H). Qed.


Lemma Qlog2_spec (q : Q) :
  ¬ q == 0 → pow2 (Qlog2 q) <= Qabs q ∧ Qabs q < pow2 (Qlog2 q + 1).
Proof.
  intros Hq. unfold Qlog2. cbv zeta.
  set (n := Z.abs (Qnum q)). set (d := Z.pos (Qden q)).
  assert (Hn : (0 < n)%Z).
  { unfold n. destruct q as [qn qd]. unfold Qeq in Hq. simpl in *. lia. }
  assert (Hd : (0 < d)%Z) by (unfold d; lia).
  pose proof (Z.log2_spec n Hn) as [Hn1 Hn2].
  pose proof (Z.log2_spec d Hd) as [Hd1 Hd2].
  pose proof (Z.log2_nonneg n) as Ha. pose proof (Z.log2_nonneg d) as Hb.
  set (a := Z.log2 n) in *. set (b := Z.log2 d) in *.
  assert (Habs : Qabs q == inject_Z n / inject_Z d).
  { destruct q as [qn qd]. unfold n, d. simpl. unfold Qeq, Qdiv, Qmult, Qinv. simpl. lia. }
  assert (Hd0 : 0 < inject_Z d) by (unfold Qlt; simpl; lia).
  assert (Hup : Qabs q < pow2 (a - b + 1)).
  { rewrite Habs. replace (a - b + 1)%Z with ((a + 1) - b)%Z by lia.
    unfold pow2. rewrite Qpower_minus by discriminate.
    fold (pow2 (a + 1)). fold (pow2 b). rewrite !pow2_Z by lia.
    assert (H2b : 0 < inject_Z (2 ^ b)) by (unfold Qlt; simpl; lia).
    apply Qlt_shift_div_l; [exact H2b|].
    assert (E : inject_Z n / inject_Z d * inject_Z (2 ^ b)
                == (inject_Z n * inject_Z (2 ^ b)) / inject_Z d) by (field; lra).
    rewrite E. apply Qlt_shift_div_r; [exact Hd0|].
    rewrite <- !inject_Z_mult, <- Zlt_Qlt.
    replace (Z.succ a) with (a + 1)%Z in Hn2 by lia. nia. }
  assert (Hlo : pow2 (a - b - 1) <= Qabs q).
  { rewrite Habs. replace (a - b - 1)%Z with (a - (b + 1))%Z by lia.
    unfold pow2. rewrite Qpower_minus by discriminate.
    fold (pow2 a). fold (pow2 (b + 1)). rewrite !pow2_Z by lia.
    assert (H2b : 0 < inject_Z (2 ^ (b + 1))) by (unfold Qlt; simpl; lia).
    apply Qle_shift_div_r; [exact H2b|].
    assert (E : inject_Z n / inject_Z d * inject_Z (2 ^ (b + 1))
                == (inject_Z n * inject_Z (2 ^ (b + 1))) / inject_Z d) by (field; lra).
    rewrite E. apply Qle_shift_div_l; [exact Hd0|].
    rewrite <- !inject_Z_mult, <- Zle_Qle.
    replace (Z.succ b) with (b + 1)%Z in Hd2 by lia. nia. }
  destruct (Qle_bool (pow2 (a - b)) (Qabs q)) eqn:E.
  - apply Qle_bool_iff in E. split; [exact E|exact Hup].
  - split; [exact Hlo|]. replace (a - b - 1 + 1)%Z with (a - b)%Z by lia.
    apply Qnot_le_lt. intros H. apply Qle_bool_iff in H. congruence.
Qed.

Lemma Qlog2_unique (q : Q) (k : Z) :
  pow2 k <= Qabs q → Qabs q < pow2 (k + 1) → Qlog2 q = k.
Proof.
  intros Hl Hu.
  assert (Hq : ¬ q == 0).
  { intros H. rewrite H in Hl. change (Qabs 0) with 0 in Hl.
    pose proof (pow2_pos k). lra. }
  destruct (Qlog2_spec q Hq) as [Hl' Hu'].
  destruct (Z.lt_trichotomy (Qlog2 q) k) as [Hlt|[He|Hgt]]; [exfalso|exact He|exfalso].
  - pose proof (pow2_le (Qlog2 q + 1) k ltac:(lia)). lra.
  - pose proof (pow2_le (k + 1) (Qlog2 q) ltac:(lia)). lra.
Qed.

Lemma Qlog2_proper (q q' : Q) : ¬ q == 0 → q == q' → Qlog2 q = Qlog2 q'.
Proof.
  intros Hq He. symmetry.
  destruct (Qlog2_spec q Hq) as [Hl Hu].
  apply Qlog2_unique; rewrite <- He; assumption.
Qed.


Lemma b64_zero (q : Q) : q == 0 → b64 q = 0.
Proof. intros H. unfold b64. apply Qeq_bool_iff in H. by rewrite H. Qed.

Lemma b64_nz (q : Q) :
  ¬ q == 0 →
  b64 q == inject_Z (py_round (q / pow2 (ulp_exp q))) * pow2 (ulp_exp q).
Proof.
  intros H. unfold b64. destruct (Qeq_bool q 0) eqn:E; [|apply Qred_correct].
  apply Qeq_bool_iff in E. contradiction.
Qed.

Lemma b64_proper : Proper (Qeq ==> Qeq) b64.
Proof.
  intros q q' He. destruct (Qeq_dec q 0) as [Hz|Hnz].
  - rewrite (b64_zero q Hz), (b64_zero q') by (by rewrite <- He). reflexivity.
  - assert (Hnz' : ¬ q' == 0) by (by rewrite <- He).
    rewrite (b64_nz q Hnz), (b64_nz q' Hnz'). unfold ulp_exp.
    rewrite <- (Qlog2_proper q q' Hnz He).
    set (E := Z.max (-1074) (Qlog2 q - 52)).
    assert (Hd : q / pow2 E == q' / pow2 E)
      by (apply Qmult_comp; [exact He|reflexivity]).
    rewrite (py_round_proper _ _ Hd). reflexivity.
Qed.

#[global] Existing Instance b64_proper.















End Binary64.

(** ** The bars of the HUD *)

Section Bars.















End Bars.

(** ** Odds, critical hits and attack numbers *)

Section Odds.
Context (P : Providers).

Lemma Qlt_bool_iff (x y : Q) : Qlt_bool x y = true ↔ (x < y)%Q.
Proof.
  unfold Qlt_bool. rewrite negb_true_iff. split.
  - intros H. apply Qnot_le_lt. intros Hle. apply Qle_bool_iff in Hle. congruence.
  - intros H. destruct (Qle_bool y x) eqn:E; [|done].
    apply Qle_bool_iff in E. exfalso. by apply (Qlt_not_le _ _ H).
Qed.

Lemma Qlt_bool_proper (x x' y : Q) : (x == x')%Q → Qlt_bool x y = Qlt_bool x' y.
Proof. intros He. unfold Qlt_bool. by rewrite He. Qed.

Lemma clamp_between (v lo hi : Q) : (lo <= hi)%Q → (lo <= clamp v lo hi <= hi)%Q.
Proof.
  intros H. unfold clamp. split; [apply Q.le_max_l|].
  apply Q.max_lub; [exact H|apply Q.le_min_l].
Qed.

Lemma clamp_mono (v w lo hi : Q) : (v <= w)%Q → (clamp v lo hi <= clamp w lo hi)%Q.
Proof.
  intros H. unfold clamp. apply Q.max_le_compat_l, Q.min_le_compat_l, H.
Qed.















(** X4. [crit_params] keeps the critical chance between 5% and 40% and
    the multiplier between 1.5 and 2.25 whatever the stats and bonuses;
    both grow with the combat skill; on the stats that
    [load_player_stats] gives without provider and bonuses they are 10%
    and 1.55. *)
Theorem crit_params_bounds (atk atk' : Sheet.t) :
  ((5 # 100) <= (crit_params atk).1 <= (40 # 100))%Q
  ∧ ((150 # 100) <= (crit_params atk).2 <= (225 # 100))%Q
  ∧ ((Sheet.combat atk <= Sheet.combat atk')%Q →
     (Sheet.crit_bonus atk == Sheet.crit_bonus atk')%Q →
     (Sheet.crit_mult_bonus atk == Sheet.crit_mult_bonus atk')%Q →
     ((crit_params atk).1 <= (crit_params atk').1)%Q
     ∧ ((crit_params atk).2 <= (crit_params atk').2)%Q)
  ∧ (∀ uid, _GET_STATS P = None → get_equipped_mods P uid = ∅ →
       let base := Sheet.load_player_stats P uid in
       ((crit_params base).1 == 10 # 100)%Q ∧ ((crit_params base).2 == 155 # 100)%Q).
Proof.
  split; [apply clamp_between; lra|]. split; [apply clamp_between; lra|]. split.
  - intros Hc Hb Hm. unfold crit_params. cbn [fst snd]. split; apply clamp_mono; lra.
  - intros uid Hg He. unfold Sheet.load_player_stats. rewrite Hg, He. by vm_compute.
Qed.

(** X5. Whatever the kit and the modifiers, a resolved attack has an
    accuracy between 5 and 95 and a damage of at least 1, its weapon is
    either usable at the range or the unarmed profile at "Close"; an
    attack is unresolved only away from "Close", with no weapon picked
    and the reason [no_weapon_too_far].  The chance to hit that the
    attack derives from the accuracy lies between 0 and 0.98. *)
Theorem attack_numbers_bounds (guild_id uid : Z) (range_state : string) (s : DuelState)
    (atk dfn : Stats) (defender_id : Z) :
  match compute_attack_numbers P guild_id uid range_state with
  | Ready slot wp acc dmg _ =>
      5 <= acc <= 95 ∧ 1 <= dmg
      ∧ (0 <= hit_probability s acc atk dfn defender_id <= 98 # 100)%Q
      ∧ (range_state ∈ ranges wp
         ∨ (wp = Fists ∧ slot = "unarmed" ∧ range_state = "Close"))
  | NotReady reason _ _ =>
      reason = "no_weapon_too_far" ∧ range_state ≠ "Close"
      ∧ pick_weapon_for_range range_state (get_combatkit P guild_id uid) = (None, None)
  end.
Proof.
  unfold compute_attack_numbers. cbv zeta.
  assert (Hfirst : ∀ cand, match first_in_range range_state
                                   (get_combatkit P guild_id uid) cand with
                           | (Some _, Some wp) => range_state ∈ ranges wp
                           | (None, None) => True
                           | _ => False
                           end).
  { induction cand as [|c cand IH]; simpl; [done|].
    destruct (kit_get _ c) as [wp|]; [|exact IH].
    case_bool_decide; [done|exact IH]. }
  unfold pick_weapon_for_range. cbv zeta.
  match goal with |- context [first_in_range ?r ?k ?c] =>
    specialize (Hfirst c); destruct (first_in_range r k c) as [[slot|] [wp|]] end;
    try done.
  - split; [lia|]. split; [lia|]. split; [apply clamp_between; lra|by left].
  - destruct (String.eqb range_state "Close") eqn:E; cbn [negb].
    + apply String.eqb_eq in E.
      split; [lia|]. split; [lia|]. split; [apply clamp_between; lra|by right].
    + apply String.eqb_neq in E. done.
Qed.

End Odds.

(** ** Weapon choice *)

Section Pick.

Lemma first_in_range_two (range_state : string) (kit : CombatKit) (s1 s2 : string) :
  let usable slot := ∃ wp, kit_get kit slot = Some wp ∧ range_state ∈ ranges wp in
  match first_in_range range_state kit [s1; s2] with
  | (Some slot, Some wp) =>
      kit_get kit slot = Some wp ∧ range_state ∈ ranges wp
      ∧ (slot = s1 ∨ (slot = s2 ∧ ¬ usable s1))
  | (None, None) => ¬ usable s1 ∧ ¬ usable s2
  | _ => False
  end.
Proof.
  cbv zeta. simpl.
  destruct (kit_get kit s1) as [w1|] eqn:E1.
  - case_bool_decide as H1; [by eauto|].
    destruct (kit_get kit s2) as [w2|] eqn:E2.
    + case_bool_decide as H2.
      * split_and!; [done|done|]. right. split; [done|]. intros (w & Hw & Hin). congruence.
      * split; intros (w & Hw & Hin); congruence.
    + split; intros (w & Hw & Hin); congruence.
  - destruct (kit_get kit s2) as [w2|] eqn:E2.
    + case_bool_decide as H2.
      * split_and!; [done|done|]. right. split; [done|]. intros (w & Hw & Hin). congruence.
      * split; intros (w & Hw & Hin); congruence.
    + split; intros (w & Hw & Hin); congruence.
Qed.

(** X6. [pick_weapon_for_range] tries the preferred slot and then the
    other weapon slot (always "secondary" unless "secondary" is the
    preferred one).  What it returns is the weapon of the returned slot
    and lists the range; the second slot is returned only when the
    preferred one holds no weapon for the range; nothing is returned
    exactly when neither does.  The three keys of the kit that hold no
    weapon are no preferred slot here: on them the source would read
    [.ranges] of another kind of value. *)
Theorem pick_weapon_for_range_spec (range_state : string) (kit : CombatKit) :
  preferred_slot kit ∉ ["armor"; "mods"; "preferred_slot"] →
  let pref := preferred_slot kit in
  let alt := if String.eqb pref "secondary" then "primary" else "secondary" in
  let usable slot := ∃ wp, kit_get kit slot = Some wp ∧ range_state ∈ ranges wp in
  match pick_weapon_for_range range_state kit with
  | (Some slot, Some wp) =>
      kit_get kit slot = Some wp ∧ range_state ∈ ranges wp
      ∧ (slot = pref ∨ (slot = alt ∧ ¬ usable pref))
  | (None, None) => ¬ usable pref ∧ ¬ usable alt
  | _ => False
  end.
Proof. intros _. apply first_in_range_two. Qed.

End Pick.

(** ** Inventory *)

Section InventoryFacts.
Import Inventory.

Implicit Types (st : Player) (inv : list Item) (eq : list (string * option string)).

Lemma find_inst_some inv i it : find_inst inv i = Some it → inst_id it = i ∧ it ∈ inv.
Proof.
  unfold find_inst. intros H. apply List.find_some in H as [Hin He].
  split; [by apply String.eqb_eq|by apply list_elem_of_In].
Qed.

Lemma find_inst_none inv i : find_inst inv i = None ↔ ∀ it, it ∈ inv → inst_id it ≠ i.
Proof.
  unfold find_inst. split.
  - intros H it Hin. apply list_elem_of_In in Hin.
    apply (List.find_none _ _ H) in Hin. by apply String.eqb_neq.
  - intros H. induction inv as [|x inv IH]; [done|]. simpl.
    destruct (String.eqb (inst_id x) i) eqn:E.
    + apply String.eqb_eq in E. exfalso. apply (H x); [left|done].
    + apply IH. intros it Hin. apply H. by right.
Qed.

Lemma find_inst_app inv1 inv2 i :
  find_inst (inv1 ++ inv2) i
  = match find_inst inv1 i with Some it => Some it | None => find_inst inv2 i end.
Proof.
  unfold find_inst. induction inv1 as [|x inv1 IH]; [done|]. simpl.
  by destruct (String.eqb (inst_id x) i).
Qed.

Lemma find_equipped_none inv eq i : find_inst inv i = None → find_equipped inv eq i = None.
Proof.
  intros Hn. induction eq as [|[slot v] eq IH]; [done|]. simpl.
  destruct (truthy v) as [iid|]; [|exact IH].
  destruct (find_inst inv iid) as [it|] eqn:E; [|exact IH].
  destruct (String.eqb (inst_id it) i) eqn:Ei; [|exact IH].
  apply find_inst_some in E as [E1 E2]. apply String.eqb_eq in Ei.
  rewrite find_inst_none in Hn. by destruct (Hn it E2).
Qed.

(** X7. The pass of [_find_item] over the equipment never finds
    anything: the result is the first inventory item with the id.  The
    item found carries the id and lies in the inventory; an id that no
    inventory item carries is not found, even when a slot still names
    it. *)
Theorem find_item_first_match st (inst : string) :
  _find_item st inst = find_inst (inventory st) inst
  ∧ (∀ it, _find_item st inst = Some it → inst_id it = inst ∧ it ∈ inventory st)
  ∧ (_find_item st inst = None ↔ ∀ it, it ∈ inventory st → inst_id it ≠ inst).
Proof.
  assert (He : _find_item st inst = find_inst (inventory st) inst).
  { unfold _find_item. destruct (find_inst (inventory st) inst) eqn:E; [done|].
    by apply find_equipped_none. }
  split; [exact He|]. rewrite He. split; [apply find_inst_some|apply find_inst_none].
Qed.

Lemma find_item_eq st inst : _find_item st inst = find_inst (inventory st) inst.
Proof.
  unfold _find_item. destruct (find_inst (inventory st) inst) eqn:E; [done|].
  by apply find_equipped_none.
Qed.

(** *** Dictionaries as association lists *)

Lemma dict_get_set_eq {V} (k : string) (v : V) d : dict_get k (dict_set k v d) = Some v.
Proof.
  induction d as [|[k' v'] d IH]; simpl; [by rewrite String.eqb_refl|].
  destruct (String.eqb k' k) eqn:E; simpl; rewrite E; [done|exact IH].
Qed.

Lemma dict_get_set_ne {V} (k k0 : string) (v : V) d :
  k0 ≠ k → dict_get k0 (dict_set k v d) = dict_get k0 d.
Proof.
  intros Hne. induction d as [|[k' v'] d IH]; simpl.
  - by rewrite (proj2 (String.eqb_neq k k0)).
  - destruct (String.eqb k' k) eqn:E; simpl.
    + apply String.eqb_eq in E. subst k'. by rewrite (proj2 (String.eqb_neq k k0)).
    + by rewrite IH.
Qed.

Lemma dict_get_none {V} (k : string) (d : list (string * V)) :
  dict_get k d = None ↔ k ∉ d.*1.
Proof.
  induction d as [|[k' v'] d IH]; simpl; [split; [intros _; apply not_elem_of_nil|done]|].
  destruct (String.eqb k' k) eqn:E.
  - apply String.eqb_eq in E. subst k'. split; [done|]. intros H. destruct H. by left.
  - apply String.eqb_neq in E. rewrite IH, not_elem_of_cons.
    split; [intros H; split; [congruence|exact H]|intros [_ H]; exact H].
Qed.

Lemma dict_get_app {V} (k : string) (d1 d2 : list (string * V)) :
  dict_get k (d1 ++ d2)
  = match dict_get k d1 with Some v => Some v | None => dict_get k d2 end.
Proof.
  induction d1 as [|[k' v'] d1 IH]; [done|]. simpl. by destruct (String.eqb k' k).
Qed.

Lemma dict_set_keys {V} (k : string) (v : V) d :
  k ∈ d.*1 → (dict_set k v d).*1 = d.*1.
Proof.
  induction d as [|[k' v'] d IH]; simpl; [by intros ?%elem_of_nil|].
  intros Hin. destruct (String.eqb k' k) eqn:E; simpl; [done|].
  apply String.eqb_neq in E. f_equal. apply IH.
  apply elem_of_cons in Hin as [->|]; done.
Qed.

Lemma dict_get_elem {V} (k : string) (v : V) d : dict_get k d = Some v → (k, v) ∈ d.
Proof.
  induction d as [|[k' v'] d IH]; simpl; [done|].
  destruct (String.eqb k' k) eqn:E.
  - apply String.eqb_eq in E. intros [= ->]. subst. by left.
  - intros H. right. by apply IH.
Qed.

Lemma dict_set_elem {V} (k k0 : string) (v v0 : V) d :
  (k0, v0) ∈ dict_set k v d → (k0, v0) = (k, v) ∨ (k0, v0) ∈ d.
Proof.
  induction d as [|[k' v'] d IH]; simpl.
  - intros ->%list_elem_of_singleton. by left.
  - destruct (String.eqb k' k) eqn:E.
    + apply String.eqb_eq in E. subst k'.
      intros [->|H]%elem_of_cons; [by left|right; by right].
    + intros [->|H]%elem_of_cons; [right; by left|].
      destruct (IH H) as [?|?]; [by left|right; by right].
Qed.

(** *** Removing *)

Lemma pop_inst_none (i : string) inv : pop_inst i inv = None ↔ find_inst inv i = None.
Proof.
  unfold find_inst. induction inv as [|x inv IH]; simpl; [done|].
  destruct (String.eqb (inst_id x) i); [done|].
  rewrite <- IH. destruct (pop_inst i inv); simpl; split; intros; congruence.
Qed.

Lemma pop_inst_some (i : string) inv inv' :
  pop_inst i inv = Some inv' →
  ∃ l1 it l2, inv = l1 ++ it :: l2 ∧ inv' = l1 ++ l2 ∧ find_inst l1 i = None
              ∧ find_inst inv i = Some it.
Proof.
  unfold find_inst. revert inv'. induction inv as [|x inv IH]; simpl; [done|].
  intros inv'. destruct (String.eqb (inst_id x) i) eqn:E.
  - intros [= <-]. exists [], x, inv. done.
  - destruct (pop_inst i inv) as [r|]; simpl; [|done]. intros [= <-].
    destruct (IH r eq_refl) as (l1 & it & l2 & -> & -> & Hn & Hf).
    exists (x :: l1), it, l2. simpl. rewrite E. done.
Qed.

Lemma find_inst_pop_ne (i j : string) inv inv' :
  pop_inst i inv = Some inv' → j ≠ i → find_inst inv' j = find_inst inv j.
Proof.
  intros Hp Hne. destruct (pop_inst_some _ _ _ Hp) as (l1 & it & l2 & -> & -> & Hn & Hf).
  rewrite !find_inst_app. destruct (find_inst l1 j); [done|].
  rewrite find_inst_app in Hf. rewrite Hn in Hf. unfold find_inst in *. simpl in *.
  destruct (String.eqb (inst_id it) i) eqn:E;
    [|apply List.find_some in Hf as [_ Hf]; congruence].
  apply String.eqb_eq in E. subst i.
  by rewrite (proj2 (String.eqb_neq (inst_id it) j)).
Qed.

Lemma clear_slots_get (i k : string) eq :
  dict_get k (clear_slots i eq)
  = (λ v, if bool_decide (v = Some i) then None else v) <$> dict_get k eq.
Proof.
  induction eq as [|[k' v'] eq IH]; [done|]. simpl.
  destruct (String.eqb k' k); [done|exact IH].
Qed.

Lemma clear_slots_keys (i : string) eq : (clear_slots i eq).*1 = eq.*1.
Proof.
  unfold clear_slots. induction eq as [|[k' v'] eq IH]; [done|]. simpl. f_equal. exact IH.
Qed.

Lemma clear_slots_values (i : string) eq : Some i ∉ (clear_slots i eq).*2.
Proof.
  induction eq as [|[k' v'] eq IH]; simpl; [apply not_elem_of_nil|].
  apply not_elem_of_cons. split; [|exact IH]. by case_bool_decide.
Qed.

(** Removing an item that the inventory holds succeeds and takes out the
    first item with the id. *)
Lemma remove_item_found st (inst : string) it :
  find_inst (inventory st) inst = Some it →
  (remove_item inst st).1 = true
  ∧ ∃ l1 l2, inventory st = l1 ++ it :: l2 ∧ find_inst l1 inst = None
             ∧ inventory (remove_item inst st).2 = l1 ++ l2.
Proof.
  intros Hf. unfold remove_item.
  destruct (pop_inst inst (inventory st)) as [inv'|] eqn:Hp;
    [|apply pop_inst_none in Hp; congruence].
  destruct (pop_inst_some _ _ _ Hp) as (l1 & it' & l2 & H1 & H2 & H3 & H4).
  assert (it' = it) by congruence. subst it'. cbn [fst snd]. split; [done|].
  by exists l1, l2.
Qed.

(** A successful [equip_item] writes the id into the resolved slot and
    nothing else. *)
Lemma equip_item_success st (inst : string) (slot : option string) item :
  find_inst (inventory st) inst = Some item →
  (equip_item inst slot st).1.1 = true →
  (equip_item inst slot st).2
  = set_equipment (dict_set (resolved_slot slot item) (Some inst) (equipment st)) st.
Proof.
  intros Hf. unfold equip_item. rewrite find_item_eq, Hf.
  fold (resolved_slot slot item).
  destruct (String.eqb _ _); [done|].
  destruct (negb _); [done|]. destruct (negb _); [done|]. done.
Qed.

(** X8. [remove_item] answers [False] and changes nothing when no
    inventory item carries the id.  Otherwise it answers [True], takes
    out the first item with the id and only that one, and sets every
    slot that held the id to [None]: no slot names the id afterwards,
    the other slots keep their content and no slot appears or
    disappears. *)
Theorem remove_item_spec st (inst : string) :
  match find_inst (inventory st) inst with
  | None => remove_item inst st = (false, st)
  | Some it =>
      let st' := (remove_item inst st).2 in
      (remove_item inst st).1 = true
      ∧ (∃ l1 l2, inventory st = l1 ++ it :: l2 ∧ find_inst l1 inst = None
                  ∧ inventory st' = l1 ++ l2)
      ∧ (Some inst ∉ (equipment st').*2)
      ∧ (equipment st').*1 = (equipment st).*1
      ∧ (∀ k, dict_get k (equipment st')
              = (λ v, if bool_decide (v = Some inst) then None else v)
                  <$> dict_get k (equipment st))
  end.
Proof.
  unfold remove_item. destruct (find_inst (inventory st) inst) as [it|] eqn:Hf.
  - destruct (pop_inst inst (inventory st)) as [inv'|] eqn:Hp;
      [|apply pop_inst_none in Hp; congruence].
    destruct (pop_inst_some _ _ _ Hp) as (l1 & it' & l2 & H1 & H2 & H3 & H4).
    assert (it' = it) by congruence. subst it'. cbn [fst snd]. split; [done|].
    split; [by exists l1, l2|]. simpl.
    split; [apply clear_slots_values|]. split; [apply clear_slots_keys|].
    intros k. apply clear_slots_get.
  - apply pop_inst_none in Hf. by rewrite Hf.
Qed.

(** *** Equipping *)

(** X9. [equip_item] succeeds exactly when the id names an inventory
    item that is no consumable and the resolved slot is one of the four
    valid slots and fits the item; otherwise the state is unchanged.  On
    success the slot holds the id, every other slot and the inventory are
    untouched, and [unequip_slot] of that slot then succeeds and leaves
    the slot empty; a second [unequip_slot] is refused. *)
Theorem equip_unequip_round_trip st (inst : string) (slot : option string) :
  let '((ok, msg), st') := equip_item inst slot st in
  inventory st' = inventory st
  ∧ (ok = false → st' = st)
  ∧ (ok = true ↔
     ∃ item, find_inst (inventory st) inst = Some item
             ∧ type_ item ≠ "consumable"
             ∧ resolved_slot slot item ∈ VALID_SLOTS
             ∧ resolved_slot slot item ∈ default [resolved_slot slot item] (fit_slots item))
  ∧ (ok = true →
     ∀ item, find_inst (inventory st) inst = Some item →
       let sl := resolved_slot slot item in
       dict_get sl (equipment st') = Some (Some inst)
       ∧ (∀ k, k ≠ sl → dict_get k (equipment st') = dict_get k (equipment st))
       ∧ let '((ok1, _), st1) := unequip_slot sl st' in
         ok1 = true ∧ dict_get sl (equipment st1) = Some None
         ∧ inventory st1 = inventory st
         ∧ (∀ k, k ≠ sl → dict_get k (equipment st1) = dict_get k (equipment st))
         ∧ (unequip_slot sl st1).1.1 = false ∧ (unequip_slot sl st1).2 = st1).
Proof.
  unfold equip_item. rewrite find_item_eq.
  destruct (find_inst (inventory st) inst) as [item|] eqn:Hf.
  2: { split; [done|]. split; [done|]. split; [|done]. split; [done|].
       by intros (? & ? & _). }
  fold (resolved_slot slot item).
  destruct (String.eqb (type_ item) "consumable") eqn:Hty.
  { apply String.eqb_eq in Hty. split; [done|]. split; [done|]. split; [|done].
    split; [done|]. intros (i2 & [= <-] & Hc & _). done. }
  apply String.eqb_neq in Hty.
  case_bool_decide as Hv; cbn [negb].
  2: { split; [done|]. split; [done|]. split; [|done]. split; [done|].
       intros (i2 & [= <-] & _ & Hc & _). done. }
  case_bool_decide as Hfit; cbn [negb].
  2: { split; [done|]. split; [done|]. split; [|done]. split; [done|].
       intros (i2 & [= <-] & _ & _ & Hc). done. }
  split; [done|]. split; [done|]. split; [split; [|done]; intros _; by exists item|].
  intros _ i2 [= <-]. cbv zeta. simpl.
  split; [apply dict_get_set_eq|]. split; [intros k Hk; by apply dict_get_set_ne|].
  unfold unequip_slot.
  match goal with
  | |- context [@bool_decide ?p ?d] => rewrite (@bool_decide_eq_true_2 p d Hv)
  end.
  cbn [negb]. simpl.
  rewrite dict_get_set_eq.
  split; [done|]. simpl. split; [apply dict_get_set_eq|]. split; [done|].
  split; [intros k Hk; by rewrite !dict_get_set_ne|].
  by rewrite dict_get_set_eq.
Qed.

(** *** Using and handing over *)

(** X10. [use_consumable] succeeds exactly when the id names an
    inventory item of type "consumable"; it then removes that item (the
    first with the id) and clears the slots that named it, and otherwise
    leaves the state alone.  It never answers "Failed to consume item.":
    an item that was found can always be removed. *)
Theorem use_consumable_spec st (inst : string) :
  let '((ok, msg), st') := use_consumable inst st in
  msg ≠ "Failed to consume item."
  ∧ (ok = false → st' = st)
  ∧ (ok = true ↔ ∃ it, find_inst (inventory st) inst = Some it ∧ type_ it = "consumable")
  ∧ (ok = true → st' = (remove_item inst st).2 ∧ (remove_item inst st).1 = true
                 ∧ length (inventory st) = S (length (inventory st'))).
Proof.
  unfold use_consumable. rewrite find_item_eq.
  destruct (find_inst (inventory st) inst) as [it|] eqn:Hf.
  2: { split; [done|]. split; [done|]. split; [|done]. split; [done|]. by intros (? & ? & _). }
  destruct (String.eqb (type_ it) "consumable") eqn:Hty; cbn [negb].
  2: { apply String.eqb_neq in Hty. split; [done|]. split; [done|]. split; [|done].
       split; [done|]. intros (i2 & [= <-] & Hc). done. }
  apply String.eqb_eq in Hty.
  destruct (remove_item_found st inst it Hf) as (Hok & l1 & l2 & Hi & _ & Hi').
  destruct (remove_item inst st) as [removed st'] eqn:Hrm. cbn [fst snd] in *. subst removed.
  cbn [negb]. split.
  { intros H. apply (f_equal (String.get 0)) in H. cbv in H. discriminate. }
  split; [done|]. split; [split; [|done]; intros _; by exists it|].
  intros _. split; [done|]. split; [done|]. rewrite Hi, Hi', !length_app. simpl. lia.
Qed.

(** X11. [transfer_item] succeeds exactly when the id names an
    inventory item of the sender that no slot of the sender holds.  It
    then moves that one item to the end of the recipient's inventory:
    taken together the two inventories hold the same items as before.  A
    refused transfer changes neither state, and the answer "Failed to
    remove from sender." never comes. *)
Theorem transfer_item_conserves (from_state to_state : Player) (inst : string) :
  let '((ok, msg), (from', to')) := transfer_item inst from_state to_state in
  msg ≠ "Failed to remove from sender."
  ∧ inventory from' ++ inventory to' ≡ₚ inventory from_state ++ inventory to_state
  ∧ (ok = false → from' = from_state ∧ to' = to_state)
  ∧ (ok = true ↔ ∃ it, find_inst (inventory from_state) inst = Some it
                       ∧ (Some inst ∉ (equipment from_state).*2))
  ∧ (ok = true →
     ∃ it, find_inst (inventory from_state) inst = Some it
           ∧ from' = (remove_item inst from_state).2
           ∧ inventory to' = inventory to_state ++ [it]
           ∧ equipment to' = equipment to_state).
Proof.
  unfold transfer_item. rewrite find_item_eq.
  destruct (find_inst (inventory from_state) inst) as [it|] eqn:Hf.
  2: { split; [done|]. split; [done|]. split; [done|]. split; [|done]. split; [done|].
       by intros (? & ? & _). }
  case_bool_decide as Heq.
  { split; [done|]. split; [done|]. split; [done|]. split; [|done]. split; [done|].
    intros (i2 & _ & Hc). done. }
  destruct (remove_item_found from_state inst it Hf) as (Hok & l1 & l2 & Hi & _ & Hi').
  destruct (remove_item inst from_state) as [removed st'] eqn:Hrm.
  cbn [fst snd] in *. subst removed. cbn [negb].
  split.
  { intros H. apply (f_equal (String.get 0)) in H. cbv in H. discriminate. }
  split.
  { simpl. rewrite Hi, Hi'.
    rewrite (assoc (++) (l1 ++ l2)), <- Permutation_cons_append.
    rewrite <- (assoc (++) l1 (it :: l2)). simpl.
    by rewrite <- Permutation_middle, <- (assoc (++) l1). }
  split; [done|]. split; [split; [|done]; intros _; by exists it|].
  intros _. exists it. done.
Qed.

End InventoryFacts.

(** ** From the inventory to the combat kit *)

Section LoadoutFacts.
Import Inventory.

Implicit Types (st : Player) (inv : list Item) (eq : list (string * option string)).

Lemma add_mods_lookup (acc m : gmap string Z) (k : string) :
  add_mods acc m !! k
  = match acc !! k, m !! k with
    | Some x, Some y => Some (x + y)
    | Some x, None => Some x
    | None, Some y => Some y
    | None, None => None
    end.
Proof.
  unfold add_mods.
  apply (map_fold_weak_ind
           (λ r m, r !! k = match acc !! k, m !! k with
                            | Some x, Some y => Some (x + y)
                            | Some x, None => Some x
                            | None, Some y => Some y
                            | None, None => None
                            end)).
  - rewrite lookup_empty. by destruct (acc !! k).
  - intros i x m' r Hi IH. destruct (decide (i = k)) as [->|Hne].
    + rewrite !lookup_insert_eq. rewrite IH, Hi. by destruct (acc !! k).
    + by rewrite !lookup_insert_ne.
Qed.

Lemma add_mods_default (acc m : gmap string Z) (k : string) :
  default 0 (add_mods acc m !! k) = default 0 (acc !! k) + default 0 (m !! k).
Proof.
  rewrite add_mods_lookup. destruct (acc !! k), (m !! k); simpl; lia.
Qed.

Lemma derived_fold inv eq (acc : gmap string Z) (k : string) :
  default 0
    (foldl (λ acc '(_, v),
              match truthy v with
              | None => acc
              | Some iid =>
                  match find_inst inv iid with
                  | Some item => add_mods acc (default ∅ (mods item))
                  | None => acc
                  end
              end) acc eq !! k)
  = default 0 (acc !! k) + foldr (λ '(_, v) acc, slot_mod inv k v + acc) 0 eq.
Proof.
  revert acc. induction eq as [|[slot v] eq IH]; intros acc; simpl; [lia|].
  rewrite IH. unfold slot_mod. destruct (truthy v) as [iid|]; simpl; [|lia].
  destruct (find_inst inv iid) as [item|]; [|lia].
  rewrite add_mods_default. lia.
Qed.

(** X12. For every modifier key, [derived_equipped_mods] holds the sum,
    over the slots, of the entry of the item in the slot; an empty slot,
    an empty id and an id that names no inventory item add nothing.
    With no equipment the result is the empty dictionary, and an item
    that sits in two slots is counted twice.  [get_equipped_mods] is the
    same function. *)
Theorem derived_mods_total st (k : string) :
  default 0 (derived_equipped_mods st !! k) = mods_total st k
  ∧ get_equipped_mods st = derived_equipped_mods st
  ∧ (equipment st = [] → derived_equipped_mods st = ∅)
  ∧ (∀ s1 s2 iid item,
       equipment st = [(s1, Some iid); (s2, Some iid)] → iid ≠ "" →
       find_inst (inventory st) iid = Some item →
       default 0 (derived_equipped_mods st !! k)
       = 2 * default 0 (default ∅ (mods item) !! k)).
Proof.
  assert (Ht : default 0 (derived_equipped_mods st !! k) = mods_total st k).
  { unfold derived_equipped_mods, mods_total. rewrite derived_fold.
    by rewrite lookup_empty. }
  split; [exact Ht|]. split; [done|]. split.
  - intros He. unfold derived_equipped_mods. by rewrite He.
  - intros s1 s2 iid item He Hne Hf. rewrite Ht. unfold mods_total. rewrite He. simpl.
    unfold slot_mod, truthy. rewrite (proj2 (String.eqb_neq iid "") Hne). simpl.
    rewrite Hf. lia.
Qed.

Lemma clear_slots_elem (i slot iid : string) eq :
  (slot, Some iid) ∈ clear_slots i eq → (slot, Some iid) ∈ eq ∧ iid ≠ i.
Proof.
  unfold clear_slots. induction eq as [|[k' v'] eq IH]; simpl; [by intros ?%elem_of_nil|].
  intros [He|Hin]%elem_of_cons.
  - case_bool_decide as Hd; [done|]. injection He as -> <-. split; [by left|].
    intros ->. done.
  - destruct (IH Hin) as [? ?]. split; [by right|done].
Qed.

Lemma well_equipped_remove st (inst : string) :
  well_equipped st → well_equipped (remove_item inst st).2.
Proof.
  intros Hw. unfold remove_item.
  destruct (pop_inst inst (inventory st)) as [inv'|] eqn:Hp; [|exact Hw].
  intros slot iid Hin Hne. simpl in *.
  apply clear_slots_elem in Hin as [Hin Hi].
  rewrite (find_inst_pop_ne _ _ _ _ Hp Hi). by apply (Hw slot).
Qed.

(** X13. No operation of the inventory leaves a slot that names a
    missing item: if every non-empty id in a slot names an inventory item
    before [grant_item], [remove_item], [equip_item], [unequip_slot],
    [use_consumable] or [transfer_item], the same holds afterwards (for
    both players of a transfer). *)
Theorem inventory_keeps_references st :
  well_equipped st →
  (∀ item, well_equipped (grant_item item st))
  ∧ (∀ inst, well_equipped (remove_item inst st).2)
  ∧ (∀ inst slot, well_equipped (equip_item inst slot st).2)
  ∧ (∀ slot, well_equipped (unequip_slot slot st).2)
  ∧ (∀ inst, well_equipped (use_consumable inst st).2)
  ∧ (∀ inst to_state, well_equipped to_state →
       well_equipped (transfer_item inst st to_state).2.1
       ∧ well_equipped (transfer_item inst st to_state).2.2).
Proof.
  intros Hw. split_and!.
  - intros item slot iid Hin Hne. simpl in *.
    rewrite find_inst_app. destruct (Hw slot iid Hin Hne) as [it ->]. by eexists.
  - intros inst. by apply well_equipped_remove.
  - intros inst slot. unfold equip_item. rewrite find_item_eq.
    destruct (find_inst (inventory st) inst) as [item|] eqn:Hf; [|exact Hw].
    destruct (String.eqb (type_ item) "consumable"); [exact Hw|].
    destruct (negb _); [exact Hw|]. destruct (negb _); [exact Hw|].
    intros sl iid Hin Hne. simpl in *.
    apply dict_set_elem in Hin as [[= -> ->]|Hin]; [by eexists|by apply (Hw sl)].
  - intros slot. unfold unequip_slot. destruct (negb _); [exact Hw|].
    destruct (dict_get slot (equipment st)) as [[i|]|]; [|exact Hw|exact Hw].
    intros sl iid Hin Hne. simpl in *.
    apply dict_set_elem in Hin as [[=]|Hin]. by apply (Hw sl).
  - intros inst. unfold use_consumable. destruct (_find_item st inst) as [it|]; [|exact Hw].
    destruct (negb (String.eqb _ _)); [exact Hw|].
    pose proof (well_equipped_remove st inst Hw) as Hr.
    destruct (remove_item inst st) as [removed st']. by destruct removed.
  - intros inst to_state Hto. unfold transfer_item.
    destruct (_find_item st inst) as [it|]; [|done].
    case_bool_decide; [done|].
    pose proof (well_equipped_remove st inst Hw) as Hr.
    destruct (remove_item inst st) as [removed st']. destruct removed; simpl; [|done].
    split; [exact Hr|]. intros slot iid Hin Hne. simpl in *.
    rewrite find_inst_app. destruct (Hto slot iid Hin Hne) as [x ->]. by eexists.
Qed.

(** *** The kit *)

Lemma profile_from_item_class (slot : string) (it : option Item) (wp : WeaponProfile) :
  Loadout._profile_from_item slot it = Some wp →
  Loadout._CLASS (wclass wp) = Some (ranges wp, base_damage wp, base_accuracy wp)
  ∧ (∃ item, it = Some item ∧ CombatLoadout.name wp = name item
             ∧ Loadout._class_from_item it = Some (wclass wp)).
Proof.
  unfold Loadout._profile_from_item. destruct it as [item|]; [|done].
  destruct (Loadout._class_from_item (Some item)) as [wcls|] eqn:Hc; [|done].
  destruct (Loadout._CLASS wcls) as [[[r d] acc]|] eqn:Ht; [|done].
  intros [= <-]. simpl. split; [exact Ht|]. by exists item.
Qed.

Lemma class_ranges (wcls : string) (r : list string) (d acc : Z) (rg : RangeGate) :
  Loadout._CLASS wcls = Some (r, d, acc) → rg_to_loadout_range rg ∈ r →
  wcls ∈ classes_at rg.
Proof.
  assert (Hdec : ∀ (c : string) (l : list string),
            rg_to_loadout_range rg ∈ l →
            bool_decide (rg_to_loadout_range rg ∈ l → c ∈ classes_at rg) = true →
            c ∈ classes_at rg).
  { intros c l Hin Hb. apply bool_decide_eq_true_1 in Hb. by apply Hb. }
  unfold Loadout._CLASS.
  destruct (String.eqb wcls "melee") eqn:E1.
  { apply String.eqb_eq in E1. subst wcls. intros [= <- <- <-] Hin.
    apply (Hdec _ _ Hin). by destruct rg. }
  destruct (String.eqb wcls "pistol") eqn:E2.
  { apply String.eqb_eq in E2. subst wcls. intros [= <- <- <-] Hin.
    apply (Hdec _ _ Hin). by destruct rg. }
  destruct (String.eqb wcls "smg") eqn:E3.
  { apply String.eqb_eq in E3. subst wcls. intros [= <- <- <-] Hin.
    apply (Hdec _ _ Hin). by destruct rg. }
  destruct (String.eqb wcls "shotgun") eqn:E4.
  { apply String.eqb_eq in E4. subst wcls. intros [= <- <- <-] Hin.
    apply (Hdec _ _ Hin). by destruct rg. }
  destruct (String.eqb wcls "rifle") eqn:E5; [|done].
  apply String.eqb_eq in E5. subst wcls. intros [= <- <- <-] Hin.
  apply (Hdec _ _ Hin). by destruct rg.
Qed.

(** X14. Whatever a player has stored, the weapon that the duel picks
    from the player's kit at a gate belongs to a class that reaches the
    gate: melee, pistol, smg or shotgun at Hands On and Close, pistol or
    rifle at Mid, a rifle and nothing else at Far and Very Far.  Its
    numbers are those of its class. *)
Theorem weapon_classes_by_gate (load_player : Z → Z → Player) (guild_id user_id : Z)
    (rg : RangeGate) (slot : string) (wp : WeaponProfile) :
  pick_weapon_for_range (rg_to_loadout_range rg)
    (Loadout.get_combatkit load_player guild_id user_id) = (Some slot, Some wp) →
  wclass wp ∈ classes_at rg
  ∧ Loadout._CLASS (wclass wp) = Some (ranges wp, base_damage wp, base_accuracy wp)
  ∧ slot ∈ ["primary"; "secondary"].
Proof.
  intros Hp.
  pose proof (first_in_range_two (rg_to_loadout_range rg)
                (Loadout.get_combatkit load_player guild_id user_id)
                (preferred_slot (Loadout.get_combatkit load_player guild_id user_id))
                (if String.eqb
                      (preferred_slot (Loadout.get_combatkit load_player guild_id user_id))
                      "secondary" then "primary" else "secondary")) as Hs.
  cbv zeta in Hs. unfold pick_weapon_for_range in Hp. cbv zeta in Hp.
  rewrite Hp in Hs. destruct Hs as (Hk & Hr & _).
  unfold kit_get in Hk.
  destruct (String.eqb slot "primary") eqn:E1.
  - apply String.eqb_eq in E1. subst slot. simpl in Hk.
    apply profile_from_item_class in Hk as [Hc _].
    split; [by eapply class_ranges|]. split; [exact Hc|]. by left.
  - destruct (String.eqb slot "secondary") eqn:E2; [|done].
    apply String.eqb_eq in E2. subst slot. simpl in Hk.
    apply profile_from_item_class in Hk as [Hc _].
    split; [by eapply class_ranges|]. split; [exact Hc|]. right. by left.
Qed.

Lemma get_equipped_items_fold inv eq (out : list (string * option Item)) (k : string) :
  NoDup eq.*1 → (∀ k', k' ∈ eq.*1 → k' ∉ out.*1) →
  dict_get k
    (foldl (λ out '(slot, v),
              match truthy v with
              | None => dict_set slot None out
              | Some iid => dict_set slot (find_inst inv iid) out
              end) out eq)
  = match dict_get k out with
    | Some x => Some x
    | None => (λ v, truthy v ≫= find_inst inv) <$> dict_get k eq
    end.
Proof.
  revert out. induction eq as [|[slot v] eq IH]; intros out Hnd Hfresh; simpl.
  { by destruct (dict_get k out). }
  apply NoDup_cons in Hnd as [Hslot Hnd].
  set (x := truthy v ≫= find_inst inv).
  assert (Hstep : (match truthy v with
                   | None => dict_set slot None out
                   | Some iid => dict_set slot (find_inst inv iid) out
                   end) = dict_set slot x out).
  { unfold x. by destruct (truthy v). }
  rewrite Hstep. rewrite IH; [|exact Hnd|].
  - destruct (String.eqb slot k) eqn:E.
    + apply String.eqb_eq in E. subst k. rewrite dict_get_set_eq.
      assert (Hn : dict_get slot out = None).
      { apply dict_get_none. apply Hfresh. by left. }
      by rewrite Hn.
    + apply String.eqb_neq in E. rewrite dict_get_set_ne by done. done.
  - intros k' Hk' Hin. apply list_elem_of_fmap in Hin as ([k2 v2] & -> & Hin).
    apply dict_set_elem in Hin as [[= -> ->]|Hin]; [done|].
    apply (Hfresh k2); [by right|]. apply list_elem_of_fmap. by exists (k2, v2).
Qed.

Lemma get_equipped_items_get st (k : string) :
  slots_unique st →
  dict_get k (get_equipped_items st)
  = (λ v, truthy v ≫= find_inst (inventory st)) <$> dict_get k (equipment st).
Proof.
  intros Hnd. unfold get_equipped_items. rewrite get_equipped_items_fold; [done|exact Hnd|].
  intros ? _. apply not_elem_of_nil.
Qed.

(** X15. What a player equips is what the player fights with.  After
    a successful [equip_item] into "primary" or "secondary", the kit
    built from the new state has in that slot the profile of the equipped
    item (none when the item is of no weapon class), the other weapon
    slot is as before, and the preferred slot is unchanged. *)
Theorem equipped_weapon_in_kit st (inst : string) (slot : option string) (item : Item)
    (guild_id user_id : Z) :
  slots_unique st → inst ≠ "" →
  find_inst (inventory st) inst = Some item →
  (equip_item inst slot st).1.1 = true →
  let sl := resolved_slot slot item in
  let st' := (equip_item inst slot st).2 in
  let kit := Loadout.get_combatkit (λ _ _, st) guild_id user_id in
  let kit' := Loadout.get_combatkit (λ _ _, st') guild_id user_id in
  slots_unique st'
  ∧ preferred_slot kit' = preferred_slot kit
  ∧ (sl = "primary" →
     primary kit' = Loadout._profile_from_item "primary" (Some item)
     ∧ secondary kit' = secondary kit)
  ∧ (sl = "secondary" →
     secondary kit' = Loadout._profile_from_item "secondary" (Some item)
     ∧ primary kit' = primary kit)
  ∧ (sl ≠ "primary" → sl ≠ "secondary" →
     primary kit' = primary kit ∧ secondary kit' = secondary kit).
Proof.
  intros Hnd Hne Hf Hok. cbv zeta.
  rewrite (equip_item_success st inst slot item Hf Hok).
  set (sl := resolved_slot slot item).
  set (st' := set_equipment (dict_set sl (Some inst) (equipment st)) st).
  assert (Hinv : inventory st' = inventory st) by reflexivity.
  assert (Hget : dict_get sl (equipment st') = Some (Some inst))
    by apply dict_get_set_eq.
  assert (Hother : ∀ k, k ≠ sl → dict_get k (equipment st') = dict_get k (equipment st))
    by (intros k Hk; by apply dict_get_set_ne).
  assert (Hnd' : slots_unique st').
  { unfold slots_unique in *. subst st'. simpl.
    clear -Hnd. generalize sl as k. intros k.
    induction (equipment st) as [|[k' v'] l IH]; simpl.
    - apply NoDup_singleton.
    - apply NoDup_cons in Hnd as [Hk Hnd]. destruct (String.eqb k' k) eqn:E; simpl.
      + by apply NoDup_cons.
      + apply NoDup_cons. split; [|by apply IH].
        intros Hin. apply list_elem_of_fmap in Hin as ([k2 v2] & -> & Hin).
        apply dict_set_elem in Hin as [[= -> ->]|Hin].
        * by rewrite String.eqb_refl in E.
        * apply Hk. apply list_elem_of_fmap. by exists (k2, v2). }
  assert (Hpref : preferred_weapon_slot st' = preferred_weapon_slot st) by reflexivity.
  clearbody st' sl.
  assert (Hitem : truthy (Some inst) ≫= find_inst (inventory st') = Some item).
  { unfold truthy. rewrite (proj2 (String.eqb_neq inst "") Hne). simpl. by rewrite Hinv. }
  unfold Loadout.get_combatkit. cbn [primary secondary preferred_slot].
  rewrite !get_equipped_items_get by done. rewrite Hinv.
  split; [exact Hnd'|]. split; [by rewrite Hpref|]. split; [|split].
  - intros Hsl. rewrite Hsl in *. rewrite Hget. simpl.
    unfold truthy. rewrite (proj2 (String.eqb_neq inst "") Hne). simpl. rewrite Hf.
    split; [done|]. by rewrite (Hother "secondary").
  - intros Hsl. rewrite Hsl in *. rewrite Hget. simpl.
    unfold truthy. rewrite (proj2 (String.eqb_neq inst "") Hne). simpl. rewrite Hf.
    split; [done|]. by rewrite (Hother "primary").
  - intros H1 H2. rewrite (Hother "primary"), (Hother "secondary") by congruence. done.
Qed.

End LoadoutFacts.

(** ** Every handler is a sequence of writes *)

Section Writes.
Context (P : Providers).

Lemma writes_step s0 s s' : writes P s0 s → write P s s' → writes P s0 s'.
Proof. intros H1 H2. by eapply rtc_r. Qed.

Lemma writes_trans s0 s1 s2 : writes P s0 s1 → writes P s1 s2 → writes P s0 s2.
Proof. intros H1 H2. by etrans. Qed.

Lemma writes_update_cover_flag s0 s c :
  writes P s0 s → writes P s0 (update_cover_flag s c).
Proof.
  intros H. unfold update_cover_flag. cbn zeta.
  destruct (cover_token s _) as [tok|]; [destruct (bool_decide (tok ∈ COVER_SET))|];
    (eapply writes_step; [eapply writes_step; [exact H|apply w_in_cover]|apply w_cover_pct]).
Qed.

Lemma writes_update_cover_flags s0 s : writes P s0 s → writes P s0 (_update_cover_flags s).
Proof. intros H. unfold _update_cover_flags. simpl. by do 2 apply writes_update_cover_flag. Qed.

Lemma writes_expire_uid s0 s uid : writes P s0 s → writes P s0 (expire_uid s uid).
Proof.
  intros H. unfold expire_uid. cbn zeta.
  destruct (default [] (clearing_expiries s !! uid)) as [|t exps]; [exact H|].
  set (kept := filter _ _). set (removed := _ - _).
  assert (H1 : writes P s0
                 (if 0 <? removed
                  then set_clearing_stacks
                         (<[uid := Z.max 0 (default 0 (clearing_stacks s !! uid) - removed)]>
                            (clearing_stacks s)) s
                  else s)).
  { destruct (0 <? removed); [|exact H]. eapply writes_step; [exact H|apply w_clearing_stacks]. }
  revert H1. generalize (if 0 <? removed
                         then set_clearing_stacks
                                (<[uid := Z.max 0 (default 0 (clearing_stacks s !! uid)
                                                   - removed)]> (clearing_stacks s)) s
                         else s).
  intros s1 H1. destruct kept as [|k kept].
  - destruct (_ =? 0).
    + eapply writes_step; [eapply writes_step; [exact H1|apply w_clearing_expiries]|].
      apply w_clearing_stacks.
    + eapply writes_step; [exact H1|apply w_clearing_expiries].
  - eapply writes_step; [exact H1|apply w_clearing_expiries].
Qed.

Lemma writes_expire_clearing s0 s : writes P s0 s → writes P s0 (_expire_clearing s).
Proof. intros H. unfold _expire_clearing. simpl. by do 2 apply writes_expire_uid. Qed.

Lemma writes_turn_advance s0 s : writes P s0 s → writes P s0 (turn_advance s).
Proof.
  intros H. unfold turn_advance. cbn zeta.
  assert (H1 : writes P s0 (flip_turn s)) by (eapply writes_step; [exact H|apply w_flip]).
  revert H1. generalize (flip_turn s). intros s1 H1.
  assert (H2 : writes P s0 (if grappling s1
                            then set_grapple_flip (Z.lxor (grapple_flip s1) 1) s1 else s1)).
  { destruct (grappling s1); [|exact H1]. eapply writes_step; [exact H1|apply w_grapple_flip]. }
  revert H2. generalize (if grappling s1
                         then set_grapple_flip (Z.lxor (grapple_flip s1) 1) s1 else s1).
  intros s2 H2. destruct (bool_decide _); [|exact H2].
  eapply writes_step; [|apply w_flip].
  eapply writes_step; [|apply w_log].
  eapply writes_step; [exact H2|apply w_skip_turn_for].
Qed.

(** Peels the pure writes off the state of the goal. *)
Ltac wr_side := first [lia | apply iclamp_bounds; lia].

Ltac wr_pure :=
  lazymatch goal with
  | H : writes _ ?s0 ?x |- writes _ ?s0 ?x => exact H
  | |- writes _ ?s ?s => apply rtc_refl
  | |- writes _ _ (set_fighter_hp _ _ ?x) =>
      apply (writes_step _ x); [wr_pure|apply w_damage; wr_side]
  | |- writes _ _ (add_raw _ ?x) => apply (writes_step _ x); [wr_pure|apply w_log]
  | |- writes _ _ (record_hit _ _ _ _ ?x) =>
      apply (writes_step _ x); [wr_pure|apply w_last_hit]
  | |- writes _ _ (set_last_hit _ ?x) => apply (writes_step _ x); [wr_pure|apply w_last_hit]
  | |- writes _ _ (set_grenades_pending (delete _ _) ?x) =>
      apply (writes_step _ x); [wr_pure|apply w_disarm]
  | |- writes _ _ (set_grenades_pending _ ?x) =>
      apply (writes_step _ x); [wr_pure|apply w_arm; wr_side]
  | |- writes _ _ (micro_move _ _ ?x) => apply (writes_step _ x); [wr_pure|apply w_micro_move]
  | |- writes _ _ (begin_grapple _ ?x) =>
      apply (writes_step _ x); [wr_pure|apply w_begin_grapple]
  | |- writes _ _ (_mark_trail _ ?x) => apply (writes_step _ x); [wr_pure|apply w_trails]
  | |- writes _ _ (_update_cover_flags ?x) => apply writes_update_cover_flags; wr_pure
  | |- writes _ _ (_expire_clearing ?x) => apply writes_expire_clearing; wr_pure
  | |- writes _ _ (turn_advance ?x) => apply writes_turn_advance; wr_pure
  | |- writes _ _ (set_breath (<[?t := default 50 _]> _) ?x) =>
      apply (writes_step _ x); [wr_pure|apply w_breath_keep]
  | |- writes _ _ (set_breath _ ?x) =>
      apply (writes_step _ x); [wr_pure|apply w_breath; wr_side]
  | |- writes _ _ (set_bloodflow (<[?t := default 50 _]> _) ?x) =>
      apply (writes_step _ x); [wr_pure|apply w_bloodflow_keep]
  | |- writes _ _ (set_bloodflow _ ?x) =>
      apply (writes_step _ x); [wr_pure|apply w_bloodflow; wr_side]
  | |- writes _ _ (set_unconscious _ ?x) => apply (writes_step _ x); [wr_pure|apply w_faint]
  | |- writes _ _ (set_positioning _ ?x) =>
      apply (writes_step _ x); [wr_pure|apply w_positioning; wr_side]
  | |- writes _ _ (set_grappling false ?x) =>
      apply (writes_step _ x); [wr_pure|apply w_release]
  | |- writes _ _ (set_active false ?x) => apply (writes_step _ x); [wr_pure|apply w_end]
  | |- writes _ _ (set_choking _ ?x) => apply (writes_step _ x); [wr_pure|apply w_choking]
  | |- writes _ _ (set_finisher _ ?x) => apply (writes_step _ x); [wr_pure|apply w_finisher]
  end.

Lemma flow_push s0 line s : writes P s0 s → ensures (push line s) (writes P s0).
Proof. intros H g. destruct (push_spec line s g) as (fx & ->). simpl. wr_pure. Qed.

Ltac wr_step :=
  lazymatch goal with
  | |- ensures (mret _) _ => apply ensures_ret; wr_pure
  | |- ensures (mbind _ (push _ _)) (writes ?Q ?s0) =>
      apply (ensures_bind _ _ (writes Q s0)); [apply flow_push; wr_pure|intros ? ?]
  | |- ensures (push _ _) _ => apply flow_push; wr_pure
  | |- ensures (mbind _ (randint ?lo ?hi)) _ =>
      eapply ensures_bind;
      [apply (ensures_randint lo hi); lia|let H := fresh "Hd" in intros ? H; cbv beta in H]
  | |- ensures (mbind _ random_random) _ =>
      eapply ensures_bind; [apply ensures_any|intros ? _]
  | |- ensures (mbind _ (random_choice3 _ _ _)) _ =>
      eapply ensures_bind; [apply ensures_any|intros ? _]
  | |- ensures (if ?c then _ else _) _ => destruct c eqn:?
  | |- ensures (match ?x with _ => _ end) _ => destruct x eqn:?
  end.

Lemma flow_apply_choke_tick s0 s :
  writes P s0 s → ensures (_apply_choke_tick s) (writes P s0).
Proof. intros H. unfold _apply_choke_tick. cbn zeta. repeat wr_step. Qed.

Lemma flow_end_turn s0 s : writes P s0 s → ensures (end_turn s) (writes P s0).
Proof.
  intros H g. rewrite end_turn_unfold.
  pose proof (flow_apply_choke_tick s0 (turn_advance s) ltac:(wr_pure) g) as Ht.
  destruct (_apply_choke_tick (turn_advance s) g) as [s2 g2]. simpl in *. wr_pure.
Qed.

Lemma flow_resolve_pending_grenade s0 acted s :
  writes P s0 s → ensures (_resolve_pending_grenade P acted s) (writes P s0).
Proof.
  intros H g.
  destruct (grenades_pending s !! user_id (fighter s acted)) as [pend|] eqn:Hp.
  - destruct (decide (pend = ∅)) as [He|Hne].
    + unfold _resolve_pending_grenade. rewrite Hp, bool_decide_eq_true_2 by done. exact H.
    + destruct (resolve_pending_grenade_some P acted s g pend Hp Hne) as (line & ->).
      cbv zeta. cbn [fst].
      eapply writes_step; [|apply w_disarm].
      eapply writes_step; [|apply w_log].
      eapply writes_step; [exact H|by apply w_detonate].
  - by rewrite resolve_pending_grenade_none.
Qed.

Lemma ready_damage_pos (guild_id uid : Z) (range_state slot : string) (wp : WeaponProfile)
    (acc dmg : Z) (mods : gmap string Z) :
  compute_attack_numbers P guild_id uid range_state = Ready slot wp acc dmg mods → 1 <= dmg.
Proof.
  unfold compute_attack_numbers. cbv zeta.
  destruct (pick_weapon_for_range _ _) as [sl [w|]].
  - intros [= _ _ _ <- _]. lia.
  - destruct (negb _); [done|]. intros [= _ _ _ <- _]. lia.
Qed.

Lemma armor_final_pos (s : DuelState) (uid : Z) (dfn : Stats) (dmg : Z) (kind : string)
    (final mit : Z) :
  apply_armor_reduction s uid dfn dmg kind = (final, mit) → 1 <= dmg → 1 <= final.
Proof. unfold apply_armor_reduction. cbv zeta. intros [= <- <-] Hd. unfold iclamp. lia. Qed.

Lemma flow_attack_once s0 att def s :
  writes P s0 s → ensures (_attack_once P att def s) (writes P s0).
Proof.
  intros H. unfold _attack_once. cbn zeta.
  destruct (compute_attack_numbers _ _ _ _) as [r m md|sl wp acc dmg md] eqn:Hc;
    [wr_step|].
  apply ready_damage_pos in Hc.
  destruct (_ && _); [wr_step|]. wr_step.
  destruct (Qle_bool _ _); [|repeat wr_step].
  destruct (apply_armor_reduction _ _ _ _ _) as [final mit] eqn:Ha.
  apply armor_final_pos in Ha; [|exact Hc].
  eapply (ensures_bind _ _ (writes P s0)); [|intros ? ?; wr_step].
  destruct (String.eqb _ _); wr_step.
Qed.

Lemma flow_ai_fire s0 ai foe weapon accuracy damage s :
  1 <= damage → writes P s0 s →
  ensures (ai_fire P ai foe weapon accuracy damage s) (writes P s0).
Proof.
  intros Hd H. unfold ai_fire. cbn zeta. wr_step.
  destruct (Qle_bool _ _); [|repeat wr_step].
  destruct (apply_armor_reduction _ _ _ _ _) as [final mit] eqn:Ha.
  apply armor_final_pos in Ha; [|exact Hd].
  eapply (ensures_bind _ _ (writes P s0)); [|intros ? ?; wr_step].
  destruct (String.eqb _ _); wr_step.
Qed.

Lemma flow_squeeze s0 choker target line s :
  writes P s0 s → ensures (squeeze choker target line s) (writes P s0).
Proof. intros H. unfold squeeze. cbn zeta. repeat wr_step. Qed.

Lemma flow_wrestle s0 me foe bot s :
  writes P s0 s → ensures (wrestle me foe bot s) (writes P s0).
Proof.
  intros H. unfold wrestle. cbn zeta. do 2 wr_step.
  destruct (Qle_bool _ _); repeat wr_step.
Qed.

Lemma flow_punch s0 me foe bot s :
  writes P s0 s → ensures (punch me foe bot s) (writes P s0).
Proof. intros H. unfold punch. cbn zeta. repeat wr_step. Qed.

Lemma flow_break_free s0 me foe bot s :
  writes P s0 s → ensures (break_free me foe bot s) (writes P s0).
Proof. intros H. unfold break_free. cbn zeta. repeat wr_step. Qed.

Lemma flow_ai_advance s0 ai s :
  writes P s0 s → ensures (ai_advance ai s) (writes P s0).
Proof. intros H. unfold ai_advance. cbn zeta. repeat wr_step. Qed.

Lemma writes_maybe_offer_finisher s0 s :
  writes P s0 s → writes P s0 (_maybe_offer_finisher s).2.
Proof.
  intros H. unfold _maybe_offer_finisher.
  destruct (winner s) as [w|]; [|exact H].
  destruct (_ && _); [|exact H]. cbn [snd].
  destruct (finisher s); destruct (bool_decide _); wr_pure.
Qed.

Lemma flow_end_if_finished_or_offer s0 s :
  writes P s0 s → ensures (_end_if_finished_or_offer s) (writes P s0).
Proof.
  intros H. unfold _end_if_finished_or_offer.
  pose proof (writes_maybe_offer_finisher s0 s H) as H'.
  destruct (_maybe_offer_finisher s) as [offered s']. simpl in H'.
  repeat wr_step.
Qed.

Ltac wr_flow :=
  lazymatch goal with
  | |- ensures (mbind _ (end_turn _)) (writes ?Q ?s0) =>
      apply (ensures_bind _ _ (writes Q s0)); [apply flow_end_turn; wr_pure|intros ? ?]
  | |- ensures (end_turn _) _ => apply flow_end_turn; wr_pure
  | |- ensures (mbind _ (_resolve_pending_grenade _ _ _)) (writes ?Q ?s0) =>
      apply (ensures_bind _ _ (writes Q s0)); [apply flow_resolve_pending_grenade; wr_pure|intros ? ?]
  | |- ensures (mbind _ (_attack_once _ _ _ _)) (writes ?Q ?s0) =>
      apply (ensures_bind _ _ (writes Q s0)); [apply flow_attack_once; wr_pure|intros ? ?]
  | |- ensures (mbind _ (wrestle _ _ _ _)) (writes ?Q ?s0) =>
      apply (ensures_bind _ _ (writes Q s0)); [apply flow_wrestle; wr_pure|intros ? ?]
  | |- ensures (mbind _ (punch _ _ _ _)) (writes ?Q ?s0) =>
      apply (ensures_bind _ _ (writes Q s0)); [apply flow_punch; wr_pure|intros ? ?]
  | |- ensures (mbind _ (break_free _ _ _ _)) (writes ?Q ?s0) =>
      apply (ensures_bind _ _ (writes Q s0)); [apply flow_break_free; wr_pure|intros ? ?]
  | |- ensures (mbind _ (squeeze _ _ _ _)) (writes ?Q ?s0) =>
      apply (ensures_bind _ _ (writes Q s0)); [apply flow_squeeze; wr_pure|intros ? ?]
  | |- ensures (_end_and_update _) _ => apply flow_end_if_finished_or_offer; wr_pure
  | _ => wr_step
  end.

Lemma flow_maybe_ai_take_turn s0 s :
  writes P s0 s → ensures (_maybe_ai_take_turn P s) (writes P s0).
Proof.
  intros H. unfold _maybe_ai_take_turn.
  destruct (negb (active s) || negb (is_ai (fighter s (current s)))); [by apply ensures_ret|].
  pose proof (writes_maybe_offer_finisher s0 s H) as H'.
  destruct (_maybe_offer_finisher s) as [offered s']. simpl in H'.
  destruct offered; [by apply ensures_ret|].
  wr_flow. cbn zeta.
  destruct (choking x) as [[choker target]|].
  - destruct (_ =? choker); repeat wr_flow.
  - destruct (grappling x).
    + wr_step.
      eapply (ensures_bind _ _ (writes P s0)); [|intros ? ?; repeat wr_flow].
      destruct (String.eqb _ _); [by apply flow_wrestle|].
      destruct (String.eqb _ _); [by apply flow_punch|by apply flow_break_free].
    + eapply (ensures_bind _ _ (writes P s0)); [|intros ? ?; repeat wr_flow].
      destruct (compute_attack_numbers _ _ _ _) as [r m md|sl wp acc dmg md] eqn:Hc;
        [by apply flow_ai_advance|].
      apply ready_damage_pos in Hc.
      destruct (_ && _); [by apply flow_ai_advance|by apply flow_ai_fire].
Qed.

Ltac wr_all :=
  lazymatch goal with
  | |- ensures (mbind _ (_maybe_ai_take_turn _ _)) (writes ?Q ?s0) =>
      apply (ensures_bind _ _ (writes Q s0)); [apply flow_maybe_ai_take_turn; wr_pure|intros ? ?]
  | _ => wr_flow
  end.

Lemma flow_btn_advance u s : ensures (btn_advance P u s) (writes P s).
Proof. unfold btn_advance. cbn zeta. repeat wr_all. Qed.

Lemma flow_btn_disengage u s : ensures (btn_disengage P u s) (writes P s).
Proof. unfold btn_disengage. cbn zeta. repeat wr_all. Qed.

Lemma flow_btn_attack u s : ensures (btn_attack P u s) (writes P s).
Proof. unfold btn_attack. cbn zeta. repeat wr_all. Qed.

Lemma flow_btn_grenade u s : ensures (btn_grenade P u s) (writes P s).
Proof.
  unfold btn_grenade. cbn zeta. wr_step; [wr_step|].
  eapply (ensures_bind _ _ (writes P s)); [|intros ? ?; repeat wr_all].
  repeat wr_step.
Qed.

Lemma flow_btn_grapple u s : ensures (btn_grapple u s) (writes P s).
Proof. unfold btn_grapple. repeat wr_step. Qed.

Lemma flow_btn_choke u s : ensures (btn_choke P u s) (writes P s).
Proof.
  unfold btn_choke. cbn zeta. do 2 wr_step.
  eapply (ensures_bind _ _ (writes P s)); [|intros ? ?; repeat wr_all].
  repeat wr_step.
Qed.

Lemma flow_btn_wrestle u s : ensures (btn_wrestle P u s) (writes P s).
Proof. unfold btn_wrestle. cbn zeta. repeat wr_all. Qed.

Lemma flow_btn_punch u s : ensures (btn_punch P u s) (writes P s).
Proof. unfold btn_punch. cbn zeta. repeat wr_all. Qed.

Lemma flow_btn_breakfree u s : ensures (btn_breakfree P u s) (writes P s).
Proof. unfold btn_breakfree. cbn zeta. repeat wr_all. Qed.

Lemma flow_btn_squeeze u s : ensures (btn_squeeze P u s) (writes P s).
Proof. unfold btn_squeeze. cbn zeta. repeat wr_all. Qed.

Lemma flow_btn_letgo u s : ensures (btn_letgo P u s) (writes P s).
Proof. unfold btn_letgo. cbn zeta. repeat wr_all. Qed.

Lemma flow_btn_mercy u v t s : ensures (btn_mercy u v t s) (writes P s).
Proof. unfold btn_mercy. cbn zeta. repeat wr_all. Qed.

Lemma flow_btn_beat u v t s : ensures (btn_beat u v t s) (writes P s).
Proof. unfold btn_beat. cbn zeta. repeat wr_all. Qed.

Lemma flow_btn_kidnap u v t s : ensures (btn_kidnap P u v t s) (writes P s).
Proof. unfold btn_kidnap. cbn zeta. repeat wr_all. Qed.

(** A button press is a sequence of writes. *)
Lemma press_writes act u s : ensures (press P act u s) (writes P s).
Proof.
  destruct act; cbv beta iota delta [press].
  - apply flow_btn_advance.
  - apply flow_btn_disengage.
  - apply flow_btn_attack.
  - apply flow_btn_grenade.
  - apply flow_btn_grapple.
  - apply flow_btn_wrestle.
  - apply flow_btn_punch.
  - apply flow_btn_breakfree.
  - apply flow_btn_choke.
  - apply flow_btn_squeeze.
  - apply flow_btn_letgo.
  - apply flow_btn_mercy.
  - apply flow_btn_beat.
  - apply flow_btn_kidnap.
Qed.

End Writes.

(** ** Invariants of a running duel *)

Section Invariants.
Context (P : Providers).

(** An invariant and a relation that every write respects hold along
    every sequence of writes. *)
Lemma writes_invariant (I : DuelState → Prop) (R : relation DuelState) :
  (∀ s, R s s) → (∀ s1 s2 s3, R s1 s2 → R s2 s3 → R s1 s3) →
  (∀ s s', I s → write P s s' → I s' ∧ R s s') →
  ∀ s s', I s → writes P s s' → I s' ∧ R s s'.
Proof.
  intros Hrefl Htrans Hstep s s' HI Hw.
  induction Hw as [s|s1 s2 s3 H12 H23 IH]; [done|].
  destruct (Hstep _ _ HI H12) as [HI2 HR]. destruct (IH HI2) as [HI3 HR'].
  split; [done|]. by eapply Htrans.
Qed.

(** Outside a grapple the transition check can only release a choke. *)
Lemma writes_keeps (I : DuelState → Prop) :
  (∀ s s', I s → write P s s' → I s') → ∀ s s', I s → writes P s s' → I s'.
Proof.
  intros Hstep s s' HI Hw.
  induction Hw as [s|s1 s2 s3 H12 H23 IH]; [done|]. apply IH. by apply (Hstep s1).
Qed.

Lemma check_grapple_transition_idle prev now actor x :
  grappling x = false →
  _check_grapple_transition prev now actor x
  = if bool_decide (is_Some (choking x))
    then set_bloodflow ∅ (set_breath ∅ (set_choking None (add_raw RELEASE_MSG x)))
    else x.
Proof.
  intros Hg. unfold _check_grapple_transition. cbn zeta. rewrite Hg.
  cbn [andb negb]. rewrite Hg. reflexivity.
Qed.

(** [micro_move] does nothing, or moves a fighter, derives the gate and
    releases a choke that no grapple holds. *)
Lemma micro_move_cases actor steps s :
  micro_move actor steps s = s
  ∨ ∃ m i, micro_move actor steps s
           = (let x := set_range_idx i (set_pos m s) in
              if bool_decide (is_Some (choking x))
              then set_bloodflow ∅ (set_breath ∅ (set_choking None (add_raw RELEASE_MSG x)))
              else x).
Proof.
  unfold micro_move. destruct (grappling s) eqn:Hg; [by left|]. cbn zeta.
  destruct (negb _); [by left|]. right.
  eexists _, _. apply check_grapple_transition_idle. exact Hg.
Qed.

(** [begin_grapple] does nothing, or places the two fighters, hands the
    turn to the starter and logs one line. *)
Lemma begin_grapple_cases starter s :
  begin_grapple starter s = s
  ∨ begin_grapple starter s
    = add_raw "🤼 Grappling engaged!"
        (set_turn_id (if starter =? user_id (a s) then 0 else 1)
           (set_pos (grapple_pos s)
              (set_pos (<[user_id (a s) := Z.max 0 ((vis_segments s - 2) / 2 - 1)]> (pos s))
                 (set_grapple_flip 0
                    (set_grapple_starter_id (Some starter)
                       (set_grapple_just_started true (set_grappling true s))))))).
Proof.
  unfold begin_grapple. destruct (negb (can_grapple s)); [by left|]. right.
  cbv zeta. unfold grapple_pos. cbv zeta. do 3 f_equal.
Qed.

Lemma trim_log_suffix (l : list string) : trim_log l `suffix_of` l.
Proof. unfold trim_log. destruct (6 <? length l)%nat; [apply suffix_drop|done]. Qed.

Lemma trim_log_length (l : list string) : (length (trim_log l) <= 6)%nat.
Proof.
  unfold trim_log. destruct (Nat.ltb_spec 6 (length l)); [|lia].
  rewrite length_drop. lia.
Qed.

Lemma add_raw_log line s :
  log_sound s → log_sound (add_raw line s) ∧ log_grows s (add_raw line s).
Proof.
  intros [Hs Hl]. unfold log_sound, log_grows, add_raw. simpl.
  split; [split|].
  - etrans; [apply trim_log_suffix|]. by apply suffix_snoc.
  - apply trim_log_length.
  - by apply prefix_app_r.
Qed.

Lemma log_grows_refl s : log_grows s s.
Proof. unfold log_grows. done. Qed.

Lemma log_grows_trans s1 s2 s3 : log_grows s1 s2 → log_grows s2 s3 → log_grows s1 s3.
Proof. unfold log_grows. intros. by etrans. Qed.

(** A write that leaves both logs alone. *)
Lemma log_same s s' :
  log_lines s' = log_lines s → full_log_lines s' = full_log_lines s →
  log_sound s → log_sound s' ∧ log_grows s s'.
Proof. unfold log_sound, log_grows. intros -> -> H. done. Qed.

Lemma log_step s s' : log_sound s → write P s s' → log_sound s' ∧ log_grows s s'.
Proof.
  intros HI Hw. destruct Hw; try (solve [apply log_same; [reflexivity|reflexivity|exact HI]]).
  - destruct w; (apply log_same; [reflexivity|reflexivity|exact HI]).
  - unfold detonated. destruct (apply_armor_reduction _ _ _ _ _) as [final mit].
    destruct acted; (apply log_same; [reflexivity|reflexivity|exact HI]).
  - by apply add_raw_log.
  - destruct (micro_move_cases actor steps s) as [->|(m & i & ->)]; [(apply log_same; [reflexivity|reflexivity|exact HI])|].
    cbv zeta. destruct (bool_decide _); [|(apply log_same; [reflexivity|reflexivity|exact HI])].
    destruct (add_raw_log RELEASE_MSG (set_range_idx i (set_pos m s)) HI) as [H1 H2].
    split; [exact H1|exact H2].
  - destruct (begin_grapple_cases starter s) as [->| ->]; [(apply log_same; [reflexivity|reflexivity|exact HI])|].
    match goal with |- context [add_raw ?l ?x] => destruct (add_raw_log l x HI) as [H1 H2] end.
    split; [exact H1|exact H2].
  - unfold flip_turn. cbn zeta. simpl. destruct (_ =? 0); (apply log_same; [reflexivity|reflexivity|exact HI]).
Qed.

(** *** Hit points *)

Lemma hp_le_refl s : hp_le s s.
Proof. unfold hp_le. lia. Qed.

Lemma hp_le_trans s1 s2 s3 : hp_le s1 s2 → hp_le s2 s3 → hp_le s1 s3.
Proof. unfold hp_le. lia. Qed.

(** A write that leaves the fighters and the grenades alone. *)
Lemma hp_same s s' :
  a s' = a s → b s' = b s → grenades_pending s' = grenades_pending s →
  hp_sound s → hp_sound s' ∧ hp_le s s'.
Proof.
  unfold hp_sound, hp_le, sane_grenades. intros -> -> -> H. split; [exact H|lia].
Qed.

Lemma hp_hit w v s :
  0 <= v <= hp (fighter s w) → hp_sound s →
  hp_sound (set_fighter_hp w v s) ∧ hp_le s (set_fighter_hp w v s).
Proof.
  unfold hp_sound, hp_le, sane_grenades. intros Hv (Ha & Hb & Hg).
  destruct w; simpl in *; (split; [split; [lia|split; [lia|exact Hg]]|lia]).
Qed.

Lemma hp_step s s' : hp_sound s → write P s s' → hp_sound s' ∧ hp_le s s'.
Proof.
  intros HI Hw. destruct Hw; try (solve [apply hp_same; [reflexivity|reflexivity|reflexivity|exact HI]]).
  - apply hp_hit; [|exact HI]. destruct HI as (Ha & Hb & _). destruct w; simpl; lia.
  - unfold detonated.
    destruct (apply_armor_reduction _ _ _ _ _) as [final mit] eqn:Har.
    assert (Hf : 0 <= final).
    { destruct HI as (_ & _ & Hg). specialize (Hg _ _ H). revert Har.
      unfold apply_armor_reduction. cbv zeta. intros [= <- <-]. unfold iclamp. lia. }
    match goal with
    | |- context [set_fighter_hp ?w ?v s] =>
        destruct (hp_hit w v s) as [H1 H2];
        [destruct HI as (Ha & Hb & _); destruct w; simpl; lia|exact HI|]
    end.
    split; [exact H1|exact H2].
  - destruct HI as (Ha & Hb & Hg). split; [|unfold hp_le; simpl; lia].
    split; [exact Ha|]. split; [exact Hb|]. intros uid pend. simpl.
    destruct (decide (uid = target)) as [->|Hne].
    + rewrite lookup_insert_eq. intros [= <-].
      rewrite lookup_insert_ne by done. rewrite lookup_singleton_eq. simpl. lia.
    + rewrite lookup_insert_ne by done. apply Hg.
  - destruct HI as (Ha & Hb & Hg). split; [|unfold hp_le; simpl; lia].
    split; [exact Ha|]. split; [exact Hb|]. intros u pend. simpl.
    intros [_ Hl]%lookup_delete_Some. by apply (Hg u).
  - destruct (micro_move_cases actor steps s) as [->|(m & i & ->)]; [(apply hp_same; [reflexivity|reflexivity|reflexivity|exact HI])|].
    cbv zeta. destruct (bool_decide _); (apply hp_same; [reflexivity|reflexivity|reflexivity|exact HI]).
  - destruct (begin_grapple_cases starter s) as [->| ->]; (apply hp_same; [reflexivity|reflexivity|reflexivity|exact HI]).
  - unfold flip_turn. cbn zeta. simpl. destruct (_ =? 0); (apply hp_same; [reflexivity|reflexivity|reflexivity|exact HI]).
Qed.

(** *** Meters *)

Lemma meters_same s s' :
  positioning s' = positioning s → breath s' = breath s → bloodflow s' = bloodflow s →
  meters_sound s → meters_sound s'.
Proof. unfold meters_sound. by intros -> -> ->. Qed.

Lemma insert_in_range (m : gmap Z Z) (k v : Z) :
  0 <= v <= 100 → (∀ uid x, m !! uid = Some x → 0 <= x <= 100) →
  ∀ uid x, <[k := v]> m !! uid = Some x → 0 <= x <= 100.
Proof.
  intros Hv Hm uid x. destruct (decide (uid = k)) as [->|Hne].
  - rewrite lookup_insert_eq. by intros [= <-].
  - rewrite lookup_insert_ne by done. apply Hm.
Qed.

Lemma default_in_range (m : gmap Z Z) (k : Z) :
  (∀ uid x, m !! uid = Some x → 0 <= x <= 100) → 0 <= default 50 (m !! k) <= 100.
Proof. intros Hm. destruct (m !! k) as [x|] eqn:E; simpl; [by apply (Hm k)|lia]. Qed.

Lemma meters_step s s' : meters_sound s → write P s s' → meters_sound s'.
Proof.
  intros HI Hw. destruct Hw; try (solve [apply (meters_same s); [reflexivity|reflexivity|reflexivity|exact HI]]).
  - destruct w; (apply (meters_same s); [reflexivity|reflexivity|reflexivity|exact HI]).
  - unfold detonated. destruct (apply_armor_reduction _ _ _ _ _) as [final mit].
    destruct acted; (apply (meters_same s); [reflexivity|reflexivity|reflexivity|exact HI]).
  - destruct (micro_move_cases actor steps s) as [->|(m & i & ->)]; [exact HI|].
    cbv zeta. destruct (bool_decide _); [|(apply (meters_same s); [reflexivity|reflexivity|reflexivity|exact HI])].
    destruct HI as (Hp & _ & _). split; [exact Hp|]. split; intros uid v; simpl;
      by rewrite lookup_empty.
  - destruct (begin_grapple_cases starter s) as [->| ->];
      (apply (meters_same s); [reflexivity|reflexivity|reflexivity|exact HI]).
  - unfold flip_turn. cbn zeta. simpl. destruct (_ =? 0); (apply (meters_same s); [reflexivity|reflexivity|reflexivity|exact HI]).
  - destruct HI as (Hp & Hb & Hf). split; [exact Hp|]. split; [|exact Hf].
    simpl. by apply insert_in_range.
  - destruct HI as (Hp & Hb & Hf). split; [exact Hp|]. split; [|exact Hf].
    simpl. apply insert_in_range; [|exact Hb]. by apply default_in_range.
  - destruct HI as (Hp & Hb & Hf). split; [exact Hp|]. split; [exact Hb|].
    simpl. by apply insert_in_range.
  - destruct HI as (Hp & Hb & Hf). split; [exact Hp|]. split; [exact Hb|].
    simpl. apply insert_in_range; [|exact Hf]. by apply default_in_range.
  - destruct HI as (Hp & Hb & Hf). split; [|split; [exact Hb|exact Hf]].
    simpl. by apply insert_in_range.
Qed.

(** *** The cast, and what only moves forward *)

Lemma cast_refl s : same_cast s s ∧ only_forward s s.
Proof. unfold same_cast, only_forward. split_and!; try done; lia. Qed.

Lemma cast_trans s1 s2 s3 :
  same_cast s1 s2 ∧ only_forward s1 s2 → same_cast s2 s3 ∧ only_forward s2 s3 →
  same_cast s1 s3 ∧ only_forward s1 s3.
Proof.
  unfold same_cast, only_forward.
  intros ((Hw1 & Hg1 & Hv1 & Hc1 & Hh1) & Hu1 & Ha1 & Ht1 & Hr1)
         ((Hw2 & Hg2 & Hv2 & Hc2 & Hh2) & Hu2 & Ha2 & Ht2 & Hr2).
  split; [split; [|split_and!; congruence]|].
  - intros w. destruct (Hw1 w) as (? & ? & ?), (Hw2 w) as (? & ? & ?).
    split_and!; congruence.
  - split; [by etrans|]. split; [by auto|]. split; lia.
Qed.

(** A write that leaves the cast, the set of the unconscious, the flag,
    the tick and the round alone. *)
Lemma cast_same s s' :
  a s' = a s → b s' = b s → guild_id s' = guild_id s → vis_segments s' = vis_segments s →
  cover_line s' = cover_line s → hidden s' = hidden s → unconscious s' = unconscious s →
  active s' = active s → turn_tick s' = turn_tick s → round_no s' = round_no s →
  same_cast s s' ∧ only_forward s s'.
Proof.
  unfold same_cast, only_forward. intros Ha Hb -> -> -> -> -> -> -> ->.
  split; [split; [|done]|split_and!; try done; lia].
  intros []; simpl; by rewrite ?Ha, ?Hb.
Qed.

Lemma cast_step s s' : write P s s' → same_cast s s' ∧ only_forward s s'.
Proof.
  intros Hw. destruct Hw; try (solve [apply cast_same; reflexivity]).
  - destruct w; unfold same_cast, only_forward; simpl;
      (split; [split; [intros []; done|done]|split_and!; try done; lia]).
  - unfold detonated. destruct (apply_armor_reduction _ _ _ _ _) as [final mit].
    destruct acted; unfold same_cast, only_forward; simpl;
      (split; [split; [intros []; done|done]|split_and!; try done; lia]).
  - destruct (micro_move_cases actor steps s) as [->|(m & i & ->)]; [apply cast_refl|].
    cbv zeta. destruct (bool_decide _); (apply cast_same; reflexivity).
  - destruct (begin_grapple_cases starter s) as [->| ->];
      [apply cast_refl|(apply cast_same; reflexivity)].
  - unfold flip_turn. cbn zeta. unfold same_cast, only_forward.
    destruct (turn_id (set_turn_id _ s) =? 0); simpl;
      (split; [split; [intros []; done|done]|split_and!; try done; lia]).
  - unfold same_cast, only_forward. simpl.
    split; [split; [intros []; done|done]|split_and!; try done; try lia].
    apply union_subseteq_r.
  - unfold same_cast, only_forward. simpl.
    split; [split; [intros []; done|done]|split_and!; try done; lia].
Qed.

(** *** The owner of the turn *)

Lemma turn_same s s' : turn_id s' = turn_id s → turn_ok s → turn_ok s'.
Proof. unfold turn_ok. by intros ->. Qed.

Lemma turn_step s s' : turn_ok s → write P s s' → turn_ok s'.
Proof.
  intros HI Hw. destruct Hw; try (solve [apply (turn_same s); [reflexivity|exact HI]]).
  - destruct w; (apply (turn_same s); [reflexivity|exact HI]).
  - unfold detonated. destruct (apply_armor_reduction _ _ _ _ _) as [final mit].
    destruct acted; (apply (turn_same s); [reflexivity|exact HI]).
  - destruct (micro_move_cases actor steps s) as [->|(m & i & ->)]; [exact HI|].
    cbv zeta. destruct (bool_decide _); (apply (turn_same s); [reflexivity|exact HI]).
  - destruct (begin_grapple_cases starter s) as [->| ->]; [exact HI|].
    unfold turn_ok. simpl. destruct (starter =? _); [by left|by right].
  - unfold flip_turn, turn_ok. cbn zeta.
    destruct (turn_id (set_turn_id _ s) =? 0); simpl;
      destruct HI as [->| ->]; [by right|by left|by right|by left].
Qed.

(** *** The line-up *)

Lemma lined_same s s' :
  pos s' = pos s → user_id (a s') = user_id (a s) → user_id (b s') = user_id (b s) →
  vis_segments s' = vis_segments s → lined_up s → lined_up s'.
Proof. unfold lined_up, on_line. by intros -> -> -> ->. Qed.

(** A move in either direction, by any number of cells, keeps [a] to the
    left of [b] and both on the line. *)
Lemma micro_move_lined_up actor steps s : lined_up s → lined_up (micro_move actor steps s).
Proof.
  intros (pa & pb & (Hpa & Hpb & Hne & Ha & Hb) & Hlt).
  assert (Hid : user_id (a s) ≠ user_id (b s)) by congruence.
  destruct (micro_move_fighters actor steps s) as (Hfa & Hfb & Hv).
  unfold lined_up, on_line. rewrite Hfa, Hfb, Hv.
  unfold micro_move. destruct (grappling s) eqn:Hg; [by exists pa, pb|].
  rewrite Hpa, Hpb. cbn zeta. simpl default.
  destruct (negb (bool_decide _)); [by exists pa, pb|].
  match goal with
  | |- context [_check_grapple_transition ?p ?n ?x ?y] =>
      destruct (check_grapple_transition_frame p n x y) as (-> & _)
  end.
  change (pos (set_range_idx ?i ?s)) with (pos s).
  change (pos (set_pos ?m ?s)) with m.
  rewrite (proj2 (Z.ltb_lt pa pb) Hlt), (proj2 (Z.ltb_ge pb pa)) by lia.
  cbn [andb orb].
  destruct (actor =? user_id (a s)); cbn [andb orb]; destruct (Z.leb_spec 0 steps);
    (eexists _, _; split; [split_and!;
       [rewrite lookup_insert_ne by done; apply lookup_insert_eq
       |apply lookup_insert_eq |..]|]; lia).
Qed.

Lemma begin_grapple_lined_up starter s : lined_up s → lined_up (begin_grapple starter s).
Proof.
  intros Hl. destruct (begin_grapple_cases starter s) as [->| ->]; [exact Hl|].
  destruct Hl as (pa & pb & (Hpa & Hpb & Hne & Ha & Hb) & Hlt).
  assert (Hid : user_id (a s) ≠ user_id (b s)) by congruence.
  unfold lined_up, on_line, grapple_pos. simpl. cbv zeta.
  eexists _, _. split; [split_and!;
    [rewrite lookup_insert_ne by done; apply lookup_insert_eq
    |apply lookup_insert_eq |..]|]; try lia.
  all: pose proof (Z.div_pos (vis_segments s - 2) 2); pose proof (Z.div_le_upper_bound (vis_segments s - 2) 2 (vis_segments s - 2)); lia.
Qed.

Lemma lined_step s s' : lined_up s → write P s s' → lined_up s'.
Proof.
  intros HI Hw.
  destruct Hw; try (solve [apply (lined_same s); [reflexivity..|exact HI]]).
  - destruct w; (apply (lined_same s); [reflexivity..|exact HI]).
  - unfold detonated. destruct (apply_armor_reduction _ _ _ _ _) as [final mit].
    destruct acted; (apply (lined_same s); [reflexivity..|exact HI]).
  - by apply micro_move_lined_up.
  - by apply begin_grapple_lined_up.
  - unfold flip_turn. cbn zeta. simpl.
    destruct (_ =? 0); (apply (lined_same s); [reflexivity..|exact HI]).
Qed.

(** *** What a press keeps *)

(** X16. Whichever button is pressed, by whomever, and whatever the
    scripted opponent does in reply: hit points that were not negative are
    not negative afterwards, the waiting grenades keep a damage that is
    not negative, and nobody has more hit points than before. *)
Theorem press_keeps_hit_points act u s g :
  hp_sound s → hp_sound (press P act u s g).1 ∧ hp_le s (press P act u s g).1.
Proof.
  intros HI.
  apply (writes_invariant hp_sound hp_le hp_le_refl hp_le_trans hp_step s _ HI).
  apply press_writes.
Qed.

(** X17. The positioning, breath and bloodflow meters stay within 0..100
    over every press. *)
Theorem press_keeps_meters act u s g :
  meters_sound s → meters_sound (press P act u s g).1.
Proof.
  intros HI. apply (writes_keeps meters_sound meters_step s _ HI). apply press_writes.
Qed.

(** X18. Over every press the window of the log stays the tail of the
    full log, with six lines at most, and the full log only grows at its
    end. *)
Theorem press_keeps_log act u s g :
  log_sound s → log_sound (press P act u s g).1 ∧ log_grows s (press P act u s g).1.
Proof.
  intros HI.
  apply (writes_invariant log_sound log_grows log_grows_refl log_grows_trans log_step s _ HI).
  apply press_writes.
Qed.

(** X19. No press changes who fights (ids, names, the scripted flag), the
    guild, the width of the line or the cover on it; nobody who is
    unconscious wakes up, an ended duel stays ended, and the tick and the
    round count never go back. *)
Theorem press_keeps_cast act u s g :
  same_cast s (press P act u s g).1 ∧ only_forward s (press P act u s g).1.
Proof.
  apply (writes_invariant (λ _, True) (λ x y, same_cast x y ∧ only_forward x y)
           cast_refl cast_trans (λ x y _ Hw, conj I (cast_step x y Hw)) s _ I).
  apply press_writes.
Qed.

(** X20. When the owner of the turn is fighter 0 or 1 and both fighters
    stand on the line with [a] to the left of [b], the same holds after
    every press: the fighters never leave the line, share a cell or pass
    each other. *)
Theorem press_keeps_line_up act u s g :
  turn_ok s → lined_up s →
  turn_ok (press P act u s g).1 ∧ lined_up (press P act u s g).1.
Proof.
  intros Ht Hl. pose proof (press_writes P act u s g) as Hw.
  split; [exact (writes_keeps turn_ok turn_step s _ Ht Hw)
         |exact (writes_keeps lined_up lined_step s _ Hl Hw)].
Qed.

End Invariants.

(** ** Guards of the buttons and the choice of the view *)

Section Guards.
Context (P : Providers).

Lemma neq_eqb_false (u v : Z) : u ≠ v → (u =? v) = false.
Proof. intros H. by apply Z.eqb_neq. Qed.

Lemma main_guard_down u s :
  active s = false ∨ u ≠ user_id (fighter s (current s)) → main_is_my_turn u s = false.
Proof.
  unfold main_is_my_turn. intros [->|H]; [done|].
  rewrite (neq_eqb_false _ _ H). apply andb_false_r.
Qed.

Lemma grapple_guard_down u s :
  active s = false
  ∨ u ≠ user_id (fighter s (current s)) ∨ grappling s = false ∨ is_Some (choking s) →
  grapple_is_my_turn u s = false.
Proof.
  unfold grapple_is_my_turn. intros [->|[H|[->|H]]]; [done| | |].
  - rewrite (neq_eqb_false _ _ H), andb_false_r. done.
  - cbn [negb orb]. apply andb_false_r.
  - rewrite (bool_decide_eq_true_2 _ H), orb_true_r. apply andb_false_r.
Qed.

Lemma choke_guard_down u s :
  active s = false
  ∨ u ≠ user_id (fighter s (current s))
  ∨ (∀ choker target, choking s = Some (choker, target) → choker ≠ u) →
  choke_is_my_turn u s = false.
Proof.
  unfold choke_is_my_turn. intros [->|[H|H]]; [done| |].
  - rewrite (neq_eqb_false _ _ H), andb_false_r. done.
  - destruct (choking s) as [[c t]|]; [|apply andb_false_r].
    rewrite (neq_eqb_false c u) by (by apply (H c t)). apply andb_false_r.
Qed.

Lemma victor_guard_down u v s : active s = false ∨ u ≠ v → _is_victor u v s = false.
Proof.
  unfold _is_victor. intros [->|H]; [done|].
  rewrite (neq_eqb_false _ _ H). apply andb_false_r.
Qed.

(** X21. A press that its guard turns down (the duel is over; the presser
    is not the fighter whose turn it is, or not the victor of the
    finisher; the grapple, the choke or the grappling distance that the
    button needs is not there) changes nothing: the duel is the same and
    no random number is drawn. *)
Theorem press_turned_down act u s g : turned_down act u s → press P act u s g = (s, g).
Proof.
  intros H. unfold turned_down in H.
  destruct act; cbv beta iota delta [press].
  - unfold btn_advance. rewrite main_guard_down; [done|tauto].
  - unfold btn_disengage. rewrite main_guard_down; [done|tauto].
  - unfold btn_attack. rewrite main_guard_down; [done|tauto].
  - unfold btn_grenade. rewrite main_guard_down; [done|tauto].
  - unfold btn_grapple.
    destruct (main_is_my_turn u s) eqn:Hm; [|done]. cbn [negb].
    destruct H as [H|[H|H]].
    + rewrite main_guard_down in Hm; [done|tauto].
    + rewrite main_guard_down in Hm; [done|tauto].
    + by rewrite H.
  - unfold btn_wrestle. rewrite grapple_guard_down; [done|tauto].
  - unfold btn_punch. rewrite grapple_guard_down; [done|tauto].
  - unfold btn_breakfree. rewrite grapple_guard_down; [done|tauto].
  - unfold btn_choke. rewrite grapple_guard_down; [done|tauto].
  - unfold btn_squeeze. rewrite choke_guard_down; [done|tauto].
  - unfold btn_letgo. rewrite choke_guard_down; [done|tauto].
  - unfold btn_mercy. rewrite victor_guard_down; [done|tauto].
  - unfold btn_beat. rewrite victor_guard_down; [done|tauto].
  - unfold btn_kidnap. rewrite victor_guard_down; [done|tauto].
Qed.

(** X22. The buttons a viewer is shown are buttons that viewer may
    press: the grapple, choke and finisher views are handed only to a
    viewer whom the guard of that view lets through, the main view only
    while the duel runs outside grapple, choke and finisher, and a viewer
    whom the main view's guard lets through gets a view with buttons. *)
Theorem make_view_matches_guards s viewer :
  match _make_view s viewer with
  | DuelLogView => main_is_my_turn viewer s = true → is_Some (finisher s) ∨ is_Some (choking s)
  | DuelMainView =>
      active s = true ∧ finisher s = None ∧ choking s = None ∧ grappling s = false
  | GrappleView => grapple_is_my_turn viewer s = true ∧ finisher s = None
  | ChokeView => choke_is_my_turn viewer s = true ∧ finisher s = None
  | FinalizeView victor target =>
      _is_victor viewer victor s = true ∧ finisher s = Some (victor, target)
  end.
Proof.
  unfold _make_view, main_is_my_turn, grapple_is_my_turn, choke_is_my_turn, _is_victor.
  destruct (active s); cbn [negb andb]; [|done].
  destruct (finisher s) as [[v t]|].
  { destruct (viewer =? v) eqn:E; [done|]. intros _. left. by eexists. }
  destruct (choking s) as [[c t]|].
  { destruct (user_id (fighter s (current s)) =? c) eqn:E1; cbn [andb];
      [|intros _; right; by eexists].
    destruct (viewer =? c) eqn:E2; [|intros _; right; by eexists].
    apply Z.eqb_eq in E1, E2. subst. by rewrite !Z.eqb_refl. }
  destruct (grappling s).
  - destruct (viewer =? _) eqn:E; [|done].
    cbn [negb orb andb]. rewrite bool_decide_eq_false_2 by (by intros [? ?]). done.
  - done.
Qed.

End Guards.

(** ** Setting up a duel *)

Section Setup.
Context (P : Providers).

(** Reduces the fields of a state that is built by setters. *)
Ltac fields :=
  cbv [DuelState_init set_a set_b set_range_idx set_pos set_last_mover set_turn_id
       set_log_lines set_full_log_lines set_active set_round_no set_grappling set_positioning
       set_choking set_breath set_bloodflow set_unconscious set_clearing_stacks
       set_clearing_expiries set_turn_tick set_in_cover set_cover_pct set_grenades_pending
       set_skip_turn_for set_last_hit set_grapple_just_started set_grapple_starter_id
       set_grapple_flip set_finisher set_trails set_cover_line
       guild_id a b range_idx vis_segments pos last_mover turn_id log_lines full_log_lines
       active round_no grappling positioning choking breath bloodflow unconscious
       clearing_stacks clearing_expiries turn_tick hidden in_cover cover_pct grenades_pending
       skip_turn_for last_hit grapple_just_started grapple_starter_id grapple_flip finisher
       cover_line trails _target_vis_gap _seed_combat_log
       Arena.duel Arena.channel_id Arena.weather Arena.map_time Arena.initiative_note
       Arena.odds_phrase Arena.public_msg_id Arena.set_duel Arena.set_map_time
       Arena.set_initiative_note Arena.set_odds_phrase Arena.set_public_msg_id
       _post_public_banner].

Lemma random_choice_run {A} (x0 : A) (rest : list A) g :
  ∃ x, x ∈ x0 :: rest ∧ random_choice x0 rest g = (x, pop g).
Proof.
  unfold random_choice. run. destruct (next_raw_pop g) as [n ->].
  eexists. split; [|reflexivity].
  destruct ((x0 :: rest) !! _) as [x|] eqn:E; simpl.
  - by eapply list_elem_of_lookup_2.
  - by left.
Qed.

Lemma ensures_random_choice {A} (x0 : A) (rest : list A) :
  ensures (random_choice x0 rest) (λ x, x ∈ x0 :: rest).
Proof. intros g. by destruct (random_choice_run x0 rest g) as (x & Hx & ->). Qed.

(** *** The battlefield *)

Lemma cover_count_replicate n : cover_count (replicate n None) = 0%nat.
Proof.
  unfold cover_count. induction n as [|n IH]; [done|]. simpl.
  rewrite filter_cons_False; [exact IH|]. by intros [? ?].
Qed.

Lemma cover_count_insert (cover : list (option string)) i x :
  (cover_count (<[i := x]> cover) <= S (cover_count cover))%nat.
Proof.
  unfold cover_count. revert i. induction cover as [|y l IH]; intros i; [simpl; lia|].
  destruct i as [|i]; simpl.
  - rewrite !filter_cons. repeat case_decide; simpl; lia.
  - specialize (IH i). rewrite !filter_cons. case_decide; simpl; lia.
Qed.

Lemma sprinkle_cover_spec segs num :
  1 <= segs → ∀ cover placed k,
  sprinkled segs k cover placed →
  ensures (sprinkle_cover segs num cover placed)
    (λ cover', ∃ placed', sprinkled segs (k + num) cover' placed').
Proof.
  intros Hsegs. induction num as [|num IH]; intros cover placed k Hinv.
  - apply ensures_ret. exists placed. by rewrite Nat.add_0_r.
  - cbn [sprinkle_cover].
    eapply ensures_bind; [apply (ensures_randint 0 (segs - 1)); lia|].
    intros p Hp. cbv beta in Hp.
    destruct (bool_decide _) eqn:Hnear.
    + eapply ensures_weaken; [apply (IH cover placed k Hinv)|].
      intros cover' (placed' & (H1 & H2 & H3 & H4)). exists placed'.
      split_and!; try done. lia.
    + apply bool_decide_eq_false in Hnear.
      eapply ensures_bind; [apply ensures_random_choice|].
      intros token Htok.
      assert (Htok' : token ∈ COVER_SET).
      { revert Htok. unfold COVER_BARRICADE, COVER_BARREL, COVER_DOOR, COVER_SET.
        rewrite !elem_of_cons, elem_of_nil.
        intros [->|[->|[->|[->|[]]]]]; auto. }
      eapply ensures_weaken; [apply (IH _ ({[p]} ∪ placed) (S k))|].
      * destruct Hinv as (H1 & H2 & H3 & H4).
        assert (Hfar : ∀ q, q ∈ placed → 1 < Z.abs (p - q)).
        { intros q Hq. destruct (Z_lt_le_dec 1 (Z.abs (p - q))) as [|Hle]; [done|].
          exfalso. apply Hnear. by exists q. }
        assert (Hcov : ∀ i, is_Some (mjoin (cover !! i)) → Z.of_nat i ∈ placed).
        { intros i [tok Hi]. destruct (cover !! i) as [[t|]|] eqn:E; simplify_eq/=.
          by apply (H2 i tok). }
        split_and!.
        -- by rewrite length_insert.
        -- intros i tok. destruct (decide (i = Z.to_nat p)) as [->|Hne].
           ++ rewrite list_lookup_insert_eq by lia. intros [= <-].
              split; [done|]. rewrite Z2Nat.id by lia.
              by apply elem_of_union_l, elem_of_singleton_2.
           ++ rewrite list_lookup_insert_ne by done. intros Hi.
              destruct (H2 i tok Hi). split; [done|by apply elem_of_union_r].
        -- intros i. destruct (decide (i = Z.to_nat p)) as [->|Hne].
           ++ intros _. rewrite list_lookup_insert_ne by lia.
              destruct (mjoin (cover !! S (Z.to_nat p))) eqn:E; [|done].
              specialize (Hfar _ (Hcov (S (Z.to_nat p)) (mk_is_Some _ _ E))). lia.
           ++ rewrite (list_lookup_insert_ne _ _ i) by done. intros Hi.
              destruct (decide (S i = Z.to_nat p)) as [Heq|Hne'].
              ** specialize (Hfar _ (Hcov i Hi)). lia.
              ** rewrite list_lookup_insert_ne by done. by apply H3.
        -- pose proof (cover_count_insert cover (Z.to_nat p) (Some token)). lia.
      * intros cover' (placed' & (H1 & H2 & H3 & H4)). exists placed'.
        split_and!; try done. lia.
Qed.

(** [_update_cover_flags] writes the two cover fields only. *)
Lemma update_cover_flag_form s w :
  ∃ c m, update_cover_flag s w = set_cover_pct m (set_in_cover c s).
Proof.
  unfold update_cover_flag. cbv zeta.
  destruct (cover_token _ _) as [tok|]; [destruct (bool_decide _)|]; eexists _, _; reflexivity.
Qed.

Lemma update_cover_flags_form s :
  ∃ c m, _update_cover_flags s = set_cover_pct m (set_in_cover c s).
Proof.
  unfold _update_cover_flags. cbn [foldl].
  destruct (update_cover_flag_form s SideA) as (c1 & m1 & ->).
  destruct (update_cover_flag_form (set_cover_pct m1 (set_in_cover c1 s)) SideB)
    as (c2 & m2 & ->).
  exists c2, m2. reflexivity.
Qed.

Lemma DuelState_new_run guild channel ca cb g :
  ∃ w, DuelState_new guild channel ca cb g
       = (Arena.mk (DuelState_init guild ca cb) channel w None "" "" None, pop g).
Proof.
  unfold DuelState_new. run.
  match goal with
  | |- context [random_choice ?x ?r g] => destruct (random_choice_run x r g) as (w & _ & ->)
  end.
  by exists w.
Qed.

Lemma decide_initiative_run ar g :
  ∃ t note line,
    (t = 0 ∨ t = 1)
    ∧ _decide_initiative P ar g
      = (Arena.set_duel
           (set_full_log_lines (full_log_lines (Arena.duel ar) ++ [line])
              (set_log_lines (log_lines (Arena.duel ar) ++ [line])
                 (set_turn_id t (Arena.duel ar))))
           (Arena.set_initiative_note note ar), pop g).
Proof.
  unfold _decide_initiative. cbv zeta. run.
  destruct (random_random_spec g) as (roll & _ & _ & ->).
  set (first := if Qle_bool roll _ then SideA else SideB).
  eexists (match first with SideA => 0 | SideB => 1 end), _, _.
  split; [destruct first; [by left|by right]|].
  f_equal. f_equal. f_equal.
  change (log_lines (set_log_lines ?l ?x)) with l. by rewrite last_snoc.
Qed.

Lemma init_battlefield_spec ar :
  1 <= vis_segments (Arena.duel ar) →
  ensures (_init_battlefield ar)
    (λ ar', ∃ mt cover c m,
       mt ∈ ["Day"; "Night"]
       ∧ battlefield_ok (vis_segments (Arena.duel ar)) cover
       ∧ ar' = Arena.set_duel
                 (set_cover_pct m
                    (set_in_cover c
                       (set_trails (<[user_id (b (Arena.duel ar)) := ∅]>
                                      (<[user_id (a (Arena.duel ar)) := ∅]> ∅))
                          (set_cover_line cover (Arena.duel ar)))))
                 (Arena.set_map_time (Some mt) ar)).
Proof.
  intros Hsegs. unfold _init_battlefield.
  eapply ensures_bind; [apply ensures_random_choice|]. intros mt Hmt. cbv zeta.
  eapply ensures_bind; [apply (ensures_randint 5 8); lia|]. intros num Hnum. cbv beta in Hnum.
  eapply ensures_bind.
  { apply (sprinkle_cover_spec _ (Z.to_nat num) Hsegs _ ∅ 0%nat).
    split_and!.
    - rewrite length_replicate. apply Z2Nat.id.
      change (0 <= vis_segments (Arena.duel ar)). lia.
    - intros i tok Hi. apply lookup_replicate in Hi as [? _]. done.
    - intros i [tok Hi]. destruct (replicate _ _ !! i) as [[t|]|] eqn:E; simplify_eq/=.
      apply lookup_replicate in E as [? _]. done.
    - by rewrite cover_count_replicate. }
  intros cover (placed & H1 & H2 & H3 & H4). apply ensures_ret.
  match goal with
  | |- context [_update_cover_flags ?x] => destruct (update_cover_flags_form x) as (c & m & ->)
  end.
  exists mt, cover, c, m. split; [exact Hmt|]. split; [|reflexivity].
  split_and!; [done| |done|lia]. intros i tok Hi. by destruct (H2 i tok Hi).
Qed.



(** The state that the set-up steps leave, for any outcome of the draws. *)
Lemma set_up_fresh key channel ca cb w t note line mt cover c m msg_id odds :
  (t = 0 ∨ t = 1) → battlefield_ok 26 cover →
  let s1 := _seed_combat_log (LOG_VISIBLE - 1) "◐" (DuelState_init key.1 ca cb) in
  let s2 := set_full_log_lines (full_log_lines s1 ++ [line])
              (set_log_lines (log_lines s1 ++ [line]) (set_turn_id t s1)) in
  let s3 := set_cover_pct m
              (set_in_cover c
                 (set_trails (<[user_id (b s2) := ∅]> (<[user_id (a s2) := ∅]> ∅))
                    (set_cover_line cover s2))) in
  let ar := Arena.mk s3 channel w (Some mt) note odds (Some msg_id) in
  (channel = key.2 → fresh_duel key ca cb ar)
  ∧ (0 <= hp ca → 0 <= hp cb → hp_sound s3)
  ∧ meters_sound s3 ∧ log_sound s3 ∧ turn_ok s3 ∧ cover_ok s3
  ∧ (user_id ca ≠ user_id cb → lined_up s3).
Proof.
  intros Ht (Hlen & Htok & Hsp & Hcnt). cbv zeta.
  assert (Hgap : iclamp (py_round (float 2 / float LAST_GATE * float (26 - 1))) 3 (26 - 3) = 12)
    by (by vm_compute).
  split_and!.
  - intros ->. unfold fresh_duel. fields. rewrite Hgap.
    split_and!; try reflexivity; try done.
  - intros Ha Hb. unfold hp_sound, sane_grenades. fields.
    split; [exact Ha|]. split; [exact Hb|]. intros uid pend. by rewrite lookup_empty.
  - unfold meters_sound. fields. split_and!.
    + do 2 (apply insert_in_range; [lia|]). intros uid x. by rewrite lookup_empty.
    + intros uid x. by rewrite lookup_empty.
    + intros uid x. by rewrite lookup_empty.
  - unfold log_sound. fields. split; [done|]. simpl. lia.
  - unfold turn_ok. fields. exact Ht.
  - unfold cover_ok. fields. split; [lia|]. right. lia.
  - intros Hne. unfold lined_up, on_line. fields. rewrite Hgap. exists 6, 18.
    split; [|lia]. split_and!; try lia.
    + rewrite lookup_insert_ne by done. apply lookup_insert_eq.
    + apply lookup_insert_eq.
Qed.

Lemma registry_ok_insert key ar reg :
  guild_id (Arena.duel ar) = key.1 → Arena.channel_id ar = key.2 →
  registry_ok reg → registry_ok (<[key := ar]> reg).
Proof.
  unfold registry_ok, Registry. intros Hg Hc Hreg k x.
  destruct (decide (k = key)) as [->|Hne].
  - rewrite lookup_insert_eq. intros [= <-]. rewrite Hg, Hc. by destruct key.
  - rewrite lookup_insert_ne by done. apply Hreg.
Qed.

(** Runs the set-up steps that [/duel start] and [/duel ai] share. *)
Ltac set_up_steps :=
  run;
  match goal with
  | |- context [DuelState_new ?gu ?ch ?x ?y ?g] =>
      let Hrun := fresh in
      destruct (DuelState_new_run gu ch x y g) as (w & Hrun); rewrite Hrun; clear Hrun
  end;
  cbv beta iota zeta;
  match goal with
  | |- context [_decide_initiative P ?ar ?g] =>
      let Hrun := fresh in
      destruct (decide_initiative_run ar g) as (t & note & line & Ht & Hrun);
      rewrite Hrun; clear Hrun
  end;
  cbv beta iota zeta;
  match goal with
  | |- context [_init_battlefield ?ar ?g] =>
      let H := fresh in
      assert (H : 1 <= vis_segments (Arena.duel ar)) by (fields; lia);
      let Hpost := fresh "Hpost" in
      pose proof (init_battlefield_spec ar H g) as Hpost; clear H;
      destruct (_init_battlefield ar g) as [ar3 g3];
      cbv beta in Hpost; cbn [fst] in Hpost;
      destruct Hpost as (mt & cover & c & m & _ & Hok & ->)
  end;
  cbv beta iota zeta.

(** X24. [/duel start] against oneself or in a channel whose duel is
    still running is refused and changes neither the registry nor the
    random stream.  Otherwise the channel gets a fresh duel between the
    two members: 100 hit points each, running, at the MID gate on cells 6
    and 18 of 26, five filler lines and the initiative line in the log, a
    battlefield with spaced cover, and every invariant that the buttons
    keep (hit points, meters, log window, turn owner, line-up). *)
Theorem duel_start_spec key msg_id me opponent reg :
  let ca := Combatant_init (Member.id me) (Member.display_name me) in
  let cb := Combatant_init (Member.id opponent) (Member.display_name opponent) in
  (Member.id opponent = Member.id me →
   ∀ g, duel_start P key msg_id me opponent reg g = ((SelfDuel, reg), g))
  ∧ (Member.id opponent ≠ Member.id me → channel_busy key reg = true →
     ∀ g, duel_start P key msg_id me opponent reg g = ((AlreadyActive, reg), g))
  ∧ (Member.id opponent ≠ Member.id me → channel_busy key reg = false →
     ensures (duel_start P key msg_id me opponent reg)
       (λ r, r.1 = Started
             ∧ ∃ ar, r.2 = <[key := ar]> reg
                     ∧ fresh_duel key ca cb ar
                     ∧ Arena.public_msg_id ar = Some msg_id
                     ∧ hp_sound (Arena.duel ar) ∧ meters_sound (Arena.duel ar)
                     ∧ log_sound (Arena.duel ar) ∧ turn_ok (Arena.duel ar)
                     ∧ cover_ok (Arena.duel ar) ∧ lined_up (Arena.duel ar)
                     ∧ (registry_ok reg → registry_ok r.2))).
Proof.
  cbv zeta. split_and!.
  - intros Heq g. unfold duel_start. by rewrite Heq, Z.eqb_refl.
  - intros Hne Hbusy g. unfold duel_start.
    by rewrite (proj2 (Z.eqb_neq _ _) Hne), Hbusy.
  - intros Hne Hbusy g. unfold duel_start.
    rewrite (proj2 (Z.eqb_neq _ _) Hne), Hbusy. cbv zeta.
    set_up_steps.
    cbn [fst snd]. split; [reflexivity|]. eexists. split; [reflexivity|].
    match goal with
    | |- context [_post_public_banner P msg_id ?x] =>
        let y := eval cbv [_post_public_banner Arena.set_duel Arena.set_map_time
                           Arena.set_initiative_note Arena.set_odds_phrase
                           Arena.set_public_msg_id Arena.duel Arena.channel_id
                           Arena.weather Arena.map_time Arena.initiative_note
                           Arena.odds_phrase Arena.public_msg_id]
                  in (_post_public_banner P msg_id x) in
        change (_post_public_banner P msg_id x) with y
    end.
    match goal with
    | |- context [Arena.mk ?s3 ?ch ?w0 (Some ?mt0) ?note0 ?odds0 (Some msg_id)] =>
        pose proof (set_up_fresh key ch
                      (Combatant_init (Member.id me) (Member.display_name me))
                      (Combatant_init (Member.id opponent) (Member.display_name opponent))
                      w0 t note0 line mt0 cover c m msg_id odds0 Ht Hok) as Hf
    end.
    cbv zeta in Hf. destruct Hf as (Hfresh & Hhp & Hm & Hl & Hto & Hc & Hlu).
    split; [exact (Hfresh eq_refl)|]. split; [reflexivity|].
    split; [apply Hhp; simpl; lia|]. split; [exact Hm|]. split; [exact Hl|].
    split; [exact Hto|]. split; [exact Hc|]. split; [apply Hlu; simpl; congruence|].
    apply registry_ok_insert; reflexivity.
Qed.

(** Everything that a sequence of writes keeps. *)
Lemma writes_keep_all s s' :
  writes P s s' → hp_sound s → meters_sound s → log_sound s → turn_ok s → cover_ok s →
  same_cast s s' ∧ hp_le s s' ∧ hp_sound s' ∧ meters_sound s' ∧ log_sound s' ∧ turn_ok s'
  ∧ cover_ok s' ∧ (lined_up s → lined_up s').
Proof.
  intros Hw Hhp Hm Hl Ht Hc.
  destruct (writes_invariant P (λ _, True) (λ x y, same_cast x y ∧ only_forward x y)
              cast_refl cast_trans (λ x y _ H, conj I (cast_step P x y H)) s s' I Hw)
    as (_ & Hcast & _).
  destruct (writes_invariant P hp_sound hp_le hp_le_refl hp_le_trans (hp_step P)
              s s' Hhp Hw) as (Hhp' & Hle).
  split; [exact Hcast|]. split; [exact Hle|]. split; [exact Hhp'|].
  split; [exact (writes_keeps P meters_sound (meters_step P) s s' Hm Hw)|].
  split; [exact (proj1 (writes_invariant P log_sound log_grows log_grows_refl
                          log_grows_trans (log_step P) s s' Hl Hw))|].
  split; [exact (writes_keeps P turn_ok (turn_step P) s s' Ht Hw)|].
  split.
  - destruct Hcast as (_ & _ & Hv & Hcl & _). unfold cover_ok in *. by rewrite Hv, Hcl.
  - intros Hlu. exact (writes_keeps P lined_up (lined_step P) s s' Hlu Hw).
Qed.

Lemma ai_user_id_range me_id : 10000000000 <= ai_user_id me_id < 11000000000.
Proof. unfold ai_user_id. pose proof (Z.mod_pos_bound me_id 1000000000). lia. Qed.

(** X25. [/duel ai] in a channel whose duel is still running is refused
    and changes nothing.  Otherwise the channel gets a duel of the member
    against "AI Defender", whose id is 10^10 plus the last nine digits of
    the member's id; the scripted opponent may already have taken its
    turn, and the duel handed over satisfies every invariant that the
    buttons keep. *)
Theorem duel_ai_spec key msg_id me reg :
  (channel_busy key reg = true →
   ∀ g, duel_ai P key msg_id me reg g = ((AlreadyActive, reg), g))
  ∧ (channel_busy key reg = false →
     ensures (duel_ai P key msg_id me reg)
       (λ r, r.1 = Started
             ∧ ∃ ar, r.2 = <[key := ar]> reg
                     ∧ user_id (a (Arena.duel ar)) = Member.id me
                     ∧ name (a (Arena.duel ar)) = Member.display_name me
                     ∧ is_ai (a (Arena.duel ar)) = false
                     ∧ user_id (b (Arena.duel ar)) = ai_user_id (Member.id me)
                     ∧ 10000000000 <= user_id (b (Arena.duel ar)) < 11000000000
                     ∧ name (b (Arena.duel ar)) = "AI Defender"
                     ∧ is_ai (b (Arena.duel ar)) = true
                     ∧ hp (a (Arena.duel ar)) <= 100 ∧ hp (b (Arena.duel ar)) <= 100
                     ∧ guild_id (Arena.duel ar) = key.1 ∧ Arena.channel_id ar = key.2
                     ∧ battlefield_ok 26 (cover_line (Arena.duel ar))
                     ∧ hp_sound (Arena.duel ar) ∧ meters_sound (Arena.duel ar)
                     ∧ log_sound (Arena.duel ar) ∧ turn_ok (Arena.duel ar)
                     ∧ cover_ok (Arena.duel ar)
                     ∧ (Member.id me ≠ ai_user_id (Member.id me) → lined_up (Arena.duel ar))
                     ∧ (registry_ok reg → registry_ok r.2))).
Proof.
  split.
  - intros Hbusy g. unfold duel_ai. by rewrite Hbusy.
  - intros Hbusy g. unfold duel_ai. rewrite Hbusy. cbv zeta.
    set_up_steps.
    match goal with
    | |- context [_post_public_banner P msg_id ?x] =>
        let y := eval cbv [_post_public_banner Arena.set_duel Arena.set_map_time
                           Arena.set_initiative_note Arena.set_odds_phrase
                           Arena.set_public_msg_id Arena.duel Arena.channel_id
                           Arena.weather Arena.map_time Arena.initiative_note
                           Arena.odds_phrase Arena.public_msg_id]
                  in (_post_public_banner P msg_id x) in
        change (_post_public_banner P msg_id x) with y
    end.
    pose proof (set_up_fresh key key.2
                  (Combatant_init (Member.id me) (Member.display_name me))
                  {| user_id := ai_user_id (Member.id me); name := "AI Defender"; hp := 100;
                     is_ai := true |}
                  w t note line mt cover c m msg_id "" Ht Hok) as Hf.
    cbv zeta in Hf. destruct Hf as (Hfresh & Hhp & Hm & Hl & Hto & Hc & Hlu).
    specialize (Hfresh eq_refl). specialize (Hhp ltac:(simpl; lia) ltac:(simpl; lia)).
    unfold fresh_duel in Hfresh. cbv zeta in Hfresh.
    cbn [Arena.duel Arena.channel_id] in Hfresh.
    destruct Hfresh as (Ha & Hb & Hgu & _ & _ & _ & _ & _ & _ & _ & _ & _ & _ & _ & _ & _ & _
                        & _ & Hvis & Hbf & _).
    match type of Ha with
    | a ?s = _ => set (s3 := s) in *
    end.
    clearbody s3. clear Hok.
    match goal with
    | |- context [(if ?cnd then _maybe_ai_take_turn P ?x else ?e) g3] =>
        assert (Hw : writes P s3 ((if cnd then _maybe_ai_take_turn P x else e) g3).1);
        [destruct cnd; [apply flow_maybe_ai_take_turn; apply rtc_refl|apply rtc_refl]
        |destruct ((if cnd then _maybe_ai_take_turn P x else e) g3) as [s4 g4]]
    end.
    cbn [fst snd] in *.
    destruct (writes_keep_all s3 s4 Hw Hhp Hm Hl Hto Hc)
      as ((Hw1 & Hgu' & Hv' & Hcl' & _) & (Hle1 & Hle2) & Hhp' & Hm' & Hl' & Hto' & Hc' & Hlu').
    destruct (Hw1 SideA) as (Hia & Hna & Haa). destruct (Hw1 SideB) as (Hib & Hnb & Hab).
    cbn [fighter] in *. rewrite Ha in Hia, Hna, Haa, Hle1. rewrite Hb in Hib, Hnb, Hab, Hle2.
    cbn [user_id name is_ai hp Combatant_init] in *.
    split; [reflexivity|]. eexists. split; [reflexivity|].
    cbn [Arena.duel Arena.set_duel Arena.channel_id].
    split; [exact Hia|]. split; [exact Hna|]. split; [exact Haa|]. split; [exact Hib|].
    split; [rewrite Hib; apply ai_user_id_range|].
    split; [exact Hnb|]. split; [exact Hab|]. split; [exact Hle1|]. split; [exact Hle2|].
    split; [by rewrite Hgu'|]. split; [reflexivity|].
    split; [by rewrite Hcl'|].
    split; [exact Hhp'|]. split; [exact Hm'|]. split; [exact Hl'|]. split; [exact Hto'|].
    split; [exact Hc'|]. split; [intros Hne; apply Hlu', Hlu; exact Hne|].
    apply registry_ok_insert; [change (guild_id s4 = key.1); by rewrite Hgu'|reflexivity].
Qed.




(** X27. On a line of at least one cell [_init_battlefield] lays out as
    many cells as the line has; every token is a cover token, no two
    tokens lie on neighbouring cells and there are eight at most.  The
    map time is Day or Night, both fighters get an empty trail, and the
    fighters, their positions, the gate, the turn and the log are as
    before. *)
Theorem init_battlefield_layout ar :
  1 <= vis_segments (Arena.duel ar) →
  ensures (_init_battlefield ar)
    (λ ar', let s := Arena.duel ar in
            let s' := Arena.duel ar' in
            battlefield_ok (vis_segments s) (cover_line s')
            ∧ (Arena.map_time ar' = Some "Day" ∨ Arena.map_time ar' = Some "Night")
            ∧ trails s' = <[user_id (b s) := ∅]> (<[user_id (a s) := ∅]> ∅)
            ∧ a s' = a s ∧ b s' = b s ∧ pos s' = pos s ∧ vis_segments s' = vis_segments s
            ∧ range_idx s' = range_idx s ∧ turn_id s' = turn_id s
            ∧ log_lines s' = log_lines s ∧ full_log_lines s' = full_log_lines s
            ∧ active s' = active s).
Proof.
  intros Hsegs. eapply ensures_weaken; [apply (init_battlefield_spec ar Hsegs)|].
  intros ar' (mt & cover & c & m & Hmt & Hok & ->). cbv zeta.
  cbn [Arena.duel Arena.set_duel Arena.set_map_time Arena.map_time].
  split; [exact Hok|]. split.
  { revert Hmt. rewrite !elem_of_cons, elem_of_nil. intros [->|[->|[]]]; [by left|by right]. }
  split_and!; reflexivity.
Qed.

(** X28. In a registry whose duels sit at the key of their own guild and
    channel, [/duel reset] frees the channel: the entry of the channel is
    gone, so the next [/duel start] there is not refused as busy, and no
    other channel is touched.  The duel that was there is handed back
    ended, without a pending finisher, with the reset line at the end of
    its log and its fighters as they were. *)
Theorem duel_reset_frees_channel key reg :
  registry_ok reg →
  ensures (duel_reset key reg)
    (λ r, r.2 = delete key reg
          ∧ channel_busy key r.2 = false
          ∧ registry_ok r.2
          ∧ match reg !! key with
            | None => r.1 = None
            | Some ar =>
                ∃ ar' fx,
                  r.1 = Some ar'
                  ∧ active (Arena.duel ar') = false
                  ∧ finisher (Arena.duel ar') = None
                  ∧ full_log_lines (Arena.duel ar')
                    = full_log_lines (Arena.duel ar) ++ [fx +:+ " " +:+ "⛔ Duel reset."]
                  ∧ a (Arena.duel ar') = a (Arena.duel ar)
                  ∧ b (Arena.duel ar') = b (Arena.duel ar)
            end).
Proof.
  intros Hreg g. unfold duel_reset. unfold registry_ok, Registry in *.
  assert (Hdel : channel_busy key (delete key reg) = false
                 ∧ registry_ok (delete key reg)).
  { split.
    - unfold channel_busy, Registry. by rewrite lookup_delete_eq.
    - unfold registry_ok, Registry. intros k x [_ Hk]%lookup_delete_Some. by apply Hreg. }
  destruct (reg !! key) as [ar|] eqn:Hlook.
  - cbv zeta. run.
    match goal with
    | |- context [push ?l ?x g] => destruct (push_spec l x g) as (fx & ->)
    end.
    cbn [fst snd]. change (guild_id (add_raw ?l (set_active ?v (set_finisher ?f ?x))))
      with (guild_id x).
    cbn [Arena.channel_id Arena.set_duel]. rewrite (Hreg key ar Hlook).
    split; [reflexivity|]. split; [apply Hdel|]. split; [apply Hdel|].
    eexists _, fx. split; [reflexivity|]. cbn [Arena.duel].
    split_and!; reflexivity.
  - run. cbn [fst snd]. rewrite delete_id by done. split; [reflexivity|].
    split; [unfold channel_busy, Registry; by rewrite Hlook|]. split; [exact Hreg|reflexivity].
Qed.

End Setup.

(** * More concrete runs *)

Section MoreRuns.
Import Sample Stock.



(** The odds line of the banner without provider and equipment: Ann at 74
    hit points scores 29 and Bob at 42 scores 21.  Ann's share 0.58 reads
    as a close fight when she is the challenger; when Bob is, his share
    0.42 reads as a slight edge to Ann. *)
Lemma banner_odds_example :
  profile_score bare 1 74 = 29%Q ∧ profile_score bare 2 42 = 21%Q
  ∧ banner_share bare ann74 bob42 = b64 (58 # 100)
  ∧ banner_share bare bob42 ann74 = b64 (42 # 100)
  ∧ odds_phrase (banner_share bare ann74 bob42) "Ann" "Bob"
    = "It looks like it's going to be a close fight."
  ∧ odds_phrase (banner_share bare bob42 ann74) "Bob" "Ann" = "Slight edge to Ann.".
Proof. repeat split; vm_compute; reflexivity. Qed.

(** The initiative at fitness 14.5 against 10: the float share times 100
    is 54.50000000000001 and shows as 55 to 45, where the exact 54.5
    would round to the even 54. *)
Lemma decide_initiative_example :
  py_round (b64 (initiative_share fit duel * 100)) = 55
  ∧ Arena.initiative_note (_decide_initiative fit arena g_lucky).1 = "a55_[b45]"
  ∧ py_round (((1 # 2) + (1 # 100) * ((145 # 10) - 10)) * 100) = 54.
Proof. repeat split; vm_compute; reflexivity. Qed.

(** X6 at work: the sample player prefers the primary slot, where the
    rifle reaches "Mid". *)
Lemma pick_weapon_for_range_spec_witness :
  let kit := Loadout.get_combatkit (λ _ _, player) 7 1 in
  (preferred_slot kit ∉ ["armor"; "mods"; "preferred_slot"])
  ∧ pick_weapon_for_range "Mid" kit = (Some "primary", Some rifle_profile)
  ∧ kit_get kit "primary" = Some rifle_profile
  ∧ "Mid" ∈ ranges rifle_profile.
Proof.
  cbv zeta.
  assert (H : preferred_slot (Loadout.get_combatkit (λ _ _, player) 7 1)
              ∉ ["armor"; "mods"; "preferred_slot"])
    by (intros H; apply (bool_decide_pack _) in H; exact H).
  assert (E : pick_weapon_for_range "Mid" (Loadout.get_combatkit (λ _ _, player) 7 1)
              = (Some "primary", Some rifle_profile)) by reflexivity.
  pose proof (pick_weapon_for_range_spec "Mid" _ H) as Hp. cbv zeta in Hp.
  rewrite E in Hp. destruct Hp as (H1 & H2 & _).
  split; [exact H|]. split; [exact E|]. split; [exact H1|exact H2].
Defined.

Lemma player_well_equipped : well_equipped player.
Proof.
  intros sl iid Hin _. unfold player in Hin. cbn [Inventory.equipment] in Hin.
  repeat (apply elem_of_cons in Hin as [Hin|Hin]; [try discriminate Hin|]).
  - injection Hin as _ ->. by eexists.
  - by apply elem_of_nil in Hin.
Qed.

(** X13 at work: the sample player's rifle sits in the primary slot;
    removing the rifle empties the slot, so no slot names it. *)
Lemma inventory_keeps_references_witness :
  well_equipped player
  ∧ well_equipped (Inventory.remove_item "i2" player).2
  ∧ Inventory.dict_get "primary" (Inventory.equipment (Inventory.remove_item "i2" player).2)
    = Some None.
Proof.
  split; [exact player_well_equipped|].
  split; [|reflexivity].
  exact (proj1 (proj2 (inventory_keeps_references player player_well_equipped)) "i2").
Defined.

(** X14 at work: at the MID gate the sample player fights with the
    rifle. *)
Lemma weapon_classes_by_gate_witness :
  pick_weapon_for_range (rg_to_loadout_range MID)
    (Loadout.get_combatkit (λ _ _, player) 7 1) = (Some "primary", Some rifle_profile)
  ∧ wclass rifle_profile ∈ classes_at MID.
Proof.
  assert (E : pick_weapon_for_range (rg_to_loadout_range MID)
                (Loadout.get_combatkit (λ _ _, player) 7 1)
              = (Some "primary", Some rifle_profile)) by reflexivity.
  split; [exact E|].
  exact (proj1 (weapon_classes_by_gate (λ _ _, player) 7 1 MID "primary" rifle_profile E)).
Defined.

(** X15 at work: the knife goes to its own slot, "secondary", and is the
    secondary weapon of the kit from then on; the rifle stays the
    primary one. *)
Lemma equipped_weapon_in_kit_witness :
  let st' := (Inventory.equip_item "i1" None player).2 in
  slots_unique player ∧ "i1" ≠ ""
  ∧ Inventory.find_inst (Inventory.inventory player) "i1" = Some knife
  ∧ (Inventory.equip_item "i1" None player).1.1 = true
  ∧ resolved_slot None knife = "secondary"
  ∧ secondary (Loadout.get_combatkit (λ _ _, st') 7 1)
    = Loadout._profile_from_item "secondary" (Some knife)
  ∧ primary (Loadout.get_combatkit (λ _ _, st') 7 1)
    = primary (Loadout.get_combatkit (λ _ _, player) 7 1).
Proof.
  cbv zeta.
  assert (Hu : slots_unique player)
    by (unfold slots_unique; apply (bool_decide_unpack _); by vm_compute).
  assert (Hne : "i1" ≠ "") by discriminate.
  assert (Hf : Inventory.find_inst (Inventory.inventory player) "i1" = Some knife)
    by reflexivity.
  assert (Hok : (Inventory.equip_item "i1" None player).1.1 = true) by reflexivity.
  destruct (equipped_weapon_in_kit player "i1" None knife 7 1 Hu Hne Hf Hok)
    as (_ & _ & _ & Hs & _).
  split; [exact Hu|]. split; [exact Hne|]. split; [exact Hf|]. split; [exact Hok|].
  split; [reflexivity|]. exact (Hs eq_refl).
Defined.

Lemma duel_grenade_hp_sound : hp_sound duel_grenade.
Proof.
  split; [by vm_compute|]. split; [by vm_compute|].
  intros uid pend. unfold duel_grenade.
  change (grenades_pending (set_grenades_pending ?m ?s)) with m.
  intros [_ <-]%lookup_singleton_Some. by vm_compute.
Qed.

(** X16 at work: Ann attacks with Bob's grenade pending on her; it goes
    off first and she is left with 70 of her 100 hit points. *)
Lemma press_keeps_hit_points_witness :
  hp_sound duel_grenade
  ∧ hp_sound (press armored Attack 1 duel_grenade g_lucky).1
  ∧ hp_le duel_grenade (press armored Attack 1 duel_grenade g_lucky).1
  ∧ hp (a (press armored Attack 1 duel_grenade g_lucky).1) = 70.
Proof.
  split; [exact duel_grenade_hp_sound|].
  destruct (press_keeps_hit_points armored Attack 1 duel_grenade g_lucky
              duel_grenade_hp_sound) as [H1 H2].
  split; [exact H1|]. split; [exact H2|reflexivity].
Defined.

Lemma duel_choke_meters_sound : meters_sound duel_choke.
Proof.
  unfold meters_sound, duel_choke.
  change (breath (set_breath ?m ?s)) with m.
  change (bloodflow (set_breath ?m (set_bloodflow ?m' ?s))) with m'.
  split_and!.
  - intros uid v H. apply (insert_in_range (<[1 := 50]> ∅) 2 50 ltac:(lia)) with uid.
    + apply insert_in_range; [lia|]. intros u x. by rewrite lookup_empty.
    + exact H.
  - intros uid v [_ <-]%lookup_singleton_Some. lia.
  - intros uid v [_ <-]%lookup_singleton_Some. lia.
Qed.

(** X17 at work: Ann tightens the choke on Bob, whose breath is at 5;
    the meter stops at 0. *)
Lemma press_keeps_meters_witness :
  meters_sound duel_choke
  ∧ meters_sound (press bare Squeeze 1 duel_choke g_lucky).1
  ∧ breath (press bare Squeeze 1 duel_choke g_lucky).1 !! 2 = Some 0.
Proof.
  split; [exact duel_choke_meters_sound|].
  split; [|reflexivity].
  exact (press_keeps_meters bare Squeeze 1 duel_choke g_lucky duel_choke_meters_sound).
Defined.

Lemma duel_log_sound : log_sound duel.
Proof. split; [done|]. simpl. lia. Qed.

(** X18 at work: the first advance of the sample duel puts one line at
    the end of the empty logs. *)
Lemma press_keeps_log_witness :
  log_sound duel
  ∧ log_sound (press bare Advance 1 duel g_lucky).1
  ∧ log_grows duel (press bare Advance 1 duel g_lucky).1
  ∧ length (full_log_lines (press bare Advance 1 duel g_lucky).1) = 1%nat.
Proof.
  split; [exact duel_log_sound|].
  destruct (press_keeps_log bare Advance 1 duel g_lucky duel_log_sound) as [H1 H2].
  split; [exact H1|]. split; [exact H2|reflexivity].
Defined.

Lemma duel_lined_up : lined_up duel.
Proof. exists 6, 18. split; [|lia]. unfold on_line. split_and!; by vm_compute. Qed.

(** X20 at work: Ann advances from cell 6 toward Bob on cell 18 and the
    turn passes to Bob. *)
Lemma press_keeps_line_up_witness :
  turn_ok duel ∧ lined_up duel
  ∧ turn_ok (press bare Advance 1 duel g_lucky).1
  ∧ lined_up (press bare Advance 1 duel g_lucky).1
  ∧ turn_id (press bare Advance 1 duel g_lucky).1 = 1.
Proof.
  assert (Ht : turn_ok duel) by (by left).
  destruct (press_keeps_line_up bare Advance 1 duel g_lucky Ht duel_lined_up) as [H1 H2].
  split; [exact Ht|]. split; [exact duel_lined_up|]. split; [exact H1|].
  split; [exact H2|reflexivity].
Defined.

(** X21 at work: Bob presses Attack while the turn is Ann's. *)
Lemma press_turned_down_witness :
  turned_down Attack 2 duel
  ∧ press bare Attack 2 duel g_lucky = (duel, g_lucky).
Proof.
  assert (H : turned_down Attack 2 duel) by (right; by vm_compute).
  split; [exact H|]. exact (press_turned_down bare Attack 2 duel g_lucky H).
Defined.

(** X27 at work: the battlefield of the sample duel, 26 cells wide. *)
Lemma init_battlefield_layout_witness :
  1 <= vis_segments (Arena.duel arena)
  ∧ battlefield_ok 26 (cover_line (Arena.duel (_init_battlefield arena g_lucky).1))
  ∧ Arena.map_time (_init_battlefield arena g_lucky).1 = Some "Day".
Proof.
  assert (H : 1 <= vis_segments (Arena.duel arena)) by (by vm_compute).
  split; [exact H|]. split; [|reflexivity].
  exact (proj1 (init_battlefield_layout arena H g_lucky)).
Defined.

Lemma registry_registry_ok : registry_ok registry.
Proof.
  unfold registry_ok, registry, Registry.
  intros key ar [<- <-]%lookup_singleton_Some. reflexivity.
Qed.

(** X28 at work: the reset of channel 9 of guild 7 leaves the registry
    empty. *)
Lemma duel_reset_frees_channel_witness :
  registry_ok registry
  ∧ (duel_reset (7, 9) registry g_lucky).1.2 = delete (7, 9) registry
  ∧ channel_busy (7, 9) (duel_reset (7, 9) registry g_lucky).1.2 = false.
Proof.
  split; [exact registry_registry_ok|].
  destruct (duel_reset_frees_channel (7, 9) registry registry_registry_ok g_lucky)
    as (H1 & H2 & _).
  split; [exact H1|exact H2].
Defined.

End MoreRuns.
